(** * Hive rules engine (open_spiel/games/hive)

    A shallow embedding of the hex board store, the move generator, the
    state machine and the UHP string surface of [hive_hexboard.h],
    [hive_hexboard.cc], [hive.h] and [hive.cc], followed by the properties
    established about them.

    Conventions of the embedding:
    - [int8_t] coordinates are integers of [Z] with the two's-complement
      wrap-around written out ([int8]); [int] and [int64_t] values stay far
      from their limits and are plain [Z];
    - C++ enumerations are inductive types, with their underlying value
      given by a [_value] function wherever the source computes with it;
    - [absl::flat_hash_set<HivePosition>] is a duplicate-free list; its
      iteration order is unspecified in the source, so results about sets are
      stated on membership;
    - functions that can abort ([SPIEL_CHECK_*], [SpielFatalError]), read a
      container out of range, or loop, return an [option]; [None] stands for
      the abort or for an exhausted loop bound of the model. *)

From Stdlib Require Import ZArith List String Ascii Bool Lia DecimalString.
From Stdlib Require Import Sorted.
Import ListNotations.
Local Open Scope Z_scope.

Notation "'let?' x ':=' e 'in' k" :=
  (match e with Some x => k | None => None end)
  (at level 10, x pattern, e at level 200, k at level 200).

(** ** Enumerations (hive_hexboard.h) *)

Inductive BugType : Type :=
  | kQueen | kAnt | kGrasshopper | kSpider | kBeetle
  | kMosquito | kLadybug | kPillbug
  | kNumBugTypes | kNone.

Definition BugType_value (t : BugType) : Z :=
  match t with
  | kQueen => 0 | kAnt => 1 | kGrasshopper => 2 | kSpider => 3
  | kBeetle => 4 | kMosquito => 5 | kLadybug => 6 | kPillbug => 7
  | kNumBugTypes => 8 | kNone => 9
  end.

Definition BugType_eqb (a b : BugType) : bool :=
  BugType_value a =? BugType_value b.

(** [kNumCardinalDirections] is an alias of [kAbove] in the source. *)
Inductive Direction : Type :=
  | kNE | kE | kSE | kSW | kW | kNW | kAbove | kNumAllDirections.

Definition Direction_value (d : Direction) : Z :=
  match d with
  | kNE => 0 | kE => 1 | kSE => 2 | kSW => 3 | kW => 4 | kNW => 5
  | kAbove => 6 | kNumAllDirections => 7
  end.

(** [static_cast<Direction>(v)] for the values the source casts (0..7). *)
Definition Direction_of_value (v : Z) : Direction :=
  match v with
  | 0 => kNE | 1 => kE | 2 => kSE | 3 => kSW | 4 => kW | 5 => kNW
  | 6 => kAbove | _ => kNumAllDirections
  end.

Definition Direction_eqb (a b : Direction) : bool :=
  Direction_value a =? Direction_value b.

(** The range of [for (dir = 0; dir < kNumCardinalDirections; ++dir)]. *)
Definition cardinal_directions : list Direction :=
  [kNE; kE; kSE; kSW; kW; kNW].

Inductive Colour : Type := kWhite | kBlack.

Definition Colour_eqb (a b : Colour) : bool :=
  match a, b with
  | kWhite, kWhite | kBlack, kBlack => true
  | _, _ => false
  end.

Definition OtherColour (c : Colour) : Colour :=
  match c with kWhite => kBlack | kBlack => kWhite end.

Definition kPlayerWhite : Z := 0.
Definition kPlayerBlack : Z := 1.

Definition PlayerToColour (p : Z) : Colour :=
  if p =? kPlayerWhite then kWhite else kBlack.

Definition OppositeDirection (d : Direction) : Direction :=
  Direction_of_value ((Direction_value d + 3) mod 6).

Definition ClockwiseDirection (d : Direction) : Direction :=
  Direction_of_value ((Direction_value d + 1) mod 6).

Definition CounterClockwiseDirection (d : Direction) : Direction :=
  Direction_of_value ((Direction_value d + 5) mod 6).

(** ** Hex geometry: [HivePosition] *)

(** Narrowing of an [int] to [int8_t]. *)
Definition int8 (z : Z) : Z := (z + 128) mod 256 - 128.

Record HivePosition : Type := MkPos { q_ : Z; r_ : Z; h_ : Z }.

(** The values an [int8_t] field can hold. *)
Definition int8_range (z : Z) : Prop := -128 <= z <= 127.

Definition wf_pos (p : HivePosition) : Prop :=
  int8_range (q_ p) /\ int8_range (r_ p) /\ int8_range (h_ p).

Definition kOriginPosition : HivePosition := MkPos 0 0 0.
Definition kNullPosition : HivePosition := MkPos 0 0 (-1).

Definition pos_eqb (a b : HivePosition) : bool :=
  (q_ a =? q_ b) && (r_ a =? r_ b) && (h_ a =? h_ b).

Definition pos_add (a b : HivePosition) : HivePosition :=
  MkPos (int8 (q_ a + q_ b)) (int8 (r_ a + r_ b)) (int8 (h_ a + h_ b)).

Definition pos_sub (a b : HivePosition) : HivePosition :=
  MkPos (int8 (q_ a - q_ b)) (int8 (r_ a - r_ b)) (int8 (h_ a - h_ b)).

(** [std::abs] on the promoted [int]s, then the truncating division. *)
Definition DistanceTo (p other : HivePosition) : Z :=
  let diff := pos_sub p other in
  Z.quot (Z.abs (q_ diff) + Z.abs (q_ diff + r_ diff) + Z.abs (r_ diff)) 2.

(** The six neighbours are built with the default height 0. *)
Definition Neighbours (p : HivePosition) : list HivePosition :=
  [ MkPos (int8 (q_ p + 1)) (int8 (r_ p - 1)) 0;
    MkPos (int8 (q_ p + 1)) (int8 (r_ p)) 0;
    MkPos (int8 (q_ p)) (int8 (r_ p + 1)) 0;
    MkPos (int8 (q_ p - 1)) (int8 (r_ p + 1)) 0;
    MkPos (int8 (q_ p - 1)) (int8 (r_ p)) 0;
    MkPos (int8 (q_ p)) (int8 (r_ p - 1)) 0 ].

Definition Grounded (p : HivePosition) : HivePosition :=
  MkPos (q_ p) (r_ p) 0.

(** The array has seven entries; index [kNumAllDirections] is past its end
    and is never used by the source (the model gives the null position). *)
Definition kNeighbourOffsets (d : Direction) : HivePosition :=
  match d with
  | kNE => MkPos 1 (-1) 0
  | kE => MkPos 1 0 0
  | kSE => MkPos 0 1 0
  | kSW => MkPos (-1) 1 0
  | kW => MkPos (-1) 0 0
  | kNW => MkPos 0 (-1) 0
  | kAbove => MkPos 0 0 1
  | kNumAllDirections => kNullPosition
  end.

Definition NeighbourAt (p : HivePosition) (d : Direction) : HivePosition :=
  pos_add p (kNeighbourOffsets d).

Definition kMaxTileCount : Z := 28.
Definition kMaxBoardRadius : Z := 14.
Definition kDefaultBoardRadius : Z := 8.

Definition kBugCounts (t : BugType) : Z :=
  match t with
  | kQueen => 1 | kAnt => 3 | kGrasshopper => 3 | kSpider => 2
  | kBeetle => 2 | kMosquito => 1 | kLadybug => 1 | kPillbug => 1
  | _ => 0
  end.

(** ** Tile identity: [NewHiveTile] *)

Inductive NewHiveTile : Type :=
  | wQ | wA1 | wA2 | wA3 | wG1 | wG2 | wG3 | wS1 | wS2 | wB1 | wB2
  | wM | wL | wP
  | bQ | bA1 | bA2 | bA3 | bG1 | bG2 | bG3 | bS1 | bS2 | bB1 | bB2
  | bM | bL | bP
  | kNoneTile.

Definition tile_value (t : NewHiveTile) : Z :=
  match t with
  | wQ => 0 | wA1 => 1 | wA2 => 2 | wA3 => 3 | wG1 => 4 | wG2 => 5
  | wG3 => 6 | wS1 => 7 | wS2 => 8 | wB1 => 9 | wB2 => 10 | wM => 11
  | wL => 12 | wP => 13
  | bQ => 14 | bA1 => 15 | bA2 => 16 | bA3 => 17 | bG1 => 18 | bG2 => 19
  | bG3 => 20 | bS1 => 21 | bS2 => 22 | bB1 => 23 | bB2 => 24 | bM => 25
  | bL => 26 | bP => 27
  | kNoneTile => 28
  end.

Definition white_tiles : list NewHiveTile :=
  [wQ; wA1; wA2; wA3; wG1; wG2; wG3; wS1; wS2; wB1; wB2; wM; wL; wP].

Definition black_tiles : list NewHiveTile :=
  [bQ; bA1; bA2; bA3; bG1; bG2; bG3; bS1; bS2; bB1; bB2; bM; bL; bP].

Definition all_tiles : list NewHiveTile := white_tiles ++ black_tiles.

(** Construction of a tile from an integer; values other than 0..27 have
    no name in the enumeration and [HasValue] is false for them. *)
Definition tile_of_value (v : Z) : NewHiveTile :=
  if (0 <=? v) && (v <? 28) then nth (Z.to_nat v) all_tiles kNoneTile
  else kNoneTile.

Definition tile_eqb (a b : NewHiveTile) : bool :=
  tile_value a =? tile_value b.

Definition HasValue (t : NewHiveTile) : bool :=
  tile_value t <? tile_value kNoneTile.

Definition GetTilesForColour (c : Colour) : list NewHiveTile :=
  match c with kWhite => white_tiles | kBlack => black_tiles end.

(** The fall-through [switch] adds the counts of all earlier bug types. *)
Definition GetTileFrom (c : Colour) (type : BugType) (ordinal : Z)
  : NewHiveTile :=
  let retval := match c with kWhite => tile_value wQ | kBlack => tile_value bQ end in
  let s7 := kBugCounts kLadybug in
  let s6 := kBugCounts kMosquito in
  let s5 := kBugCounts kBeetle in
  let s4 := kBugCounts kSpider in
  let s3 := kBugCounts kGrasshopper in
  let s2 := kBugCounts kAnt in
  let s1 := kBugCounts kQueen in
  let retval :=
    match type with
    | kPillbug => retval + s7 + s6 + s5 + s4 + s3 + s2 + s1
    | kLadybug => retval + s6 + s5 + s4 + s3 + s2 + s1
    | kMosquito => retval + s5 + s4 + s3 + s2 + s1
    | kBeetle => retval + s4 + s3 + s2 + s1
    | kSpider => retval + s3 + s2 + s1
    | kGrasshopper => retval + s2 + s1
    | kAnt => retval + s1
    | _ => retval
    end in
  tile_of_value (retval + ordinal - 1).

Definition GetBugType (t : NewHiveTile) : BugType :=
  match t with
  | wQ | bQ => kQueen
  | wA1 | wA2 | wA3 | bA1 | bA2 | bA3 => kAnt
  | wG1 | wG2 | wG3 | bG1 | bG2 | bG3 => kGrasshopper
  | wS1 | wS2 | bS1 | bS2 => kSpider
  | wB1 | wB2 | bB1 | bB2 => kBeetle
  | wM | bM => kMosquito
  | wL | bL => kLadybug
  | wP | bP => kPillbug
  | kNoneTile => kNone
  end.

(** [GetColour] ends in [SpielFatalError] for the none-tile. *)
Definition GetColour (t : NewHiveTile) : option Colour :=
  if tile_value t <? tile_value bQ then Some kWhite
  else if HasValue t then Some kBlack
  else None.

Definition GetOrdinal (t : NewHiveTile) : Z :=
  match t with
  | kNoneTile => 0
  | wA2 | wG2 | wS2 | wB2 | bA2 | bG2 | bS2 | bB2 => 2
  | wA3 | wG3 | bA3 | bG3 => 3
  | _ => 1
  end.

(** ** Moves *)

Record Move : Type := MkMove {
  from : NewHiveTile;
  to : NewHiveTile;
  direction : Direction
}.

Definition IsPass (m : Move) : bool := negb (HasValue (from m)).

(** ** Sets of positions *)

Definition PosSet : Type := list HivePosition.

Definition set_contains (s : PosSet) (p : HivePosition) : bool :=
  existsb (pos_eqb p) s.

Definition set_insert (s : PosSet) (p : HivePosition) : PosSet :=
  if set_contains s p then s else s ++ [p].

Definition set_erase (s : PosSet) (p : HivePosition) : PosSet :=
  filter (fun x => negb (pos_eqb x p)) s.

(** ** Board store: [HexBoard] *)

Record HexBoard : Type := MkBoard {
  hex_radius_ : Z;
  num_tiles_ : Z;
  tile_grid_ : list NewHiveTile;
  played_tiles_ : list NewHiveTile;
  tile_positions_ : list HivePosition;
  covered_tiles_ : list NewHiveTile;
  articulation_points_ : PosSet;
  largest_radius : Z;
  last_moved_ : NewHiveTile;
  last_moved_from_ : HivePosition;
  colour_influence_white : PosSet;
  colour_influence_black : PosSet
}.

Definition Radius (b : HexBoard) : Z := hex_radius_ b.
Definition SquareDimensions (b : HexBoard) : Z := Radius b * 2 + 1.

(** The constructor: the radius is capped, the grid is a vector of
    [SquareDimensions()^2] none-tiles, every other member is
    default-initialised. *)
Definition HexBoard_new (board_radius : Z) (uses_mosquito uses_ladybug uses_pillbug : bool)
  : HexBoard :=
  let r := Z.min board_radius kMaxBoardRadius in
  let dims := r * 2 + 1 in
  MkBoard r kMaxTileCount
          (repeat kNoneTile (Z.to_nat (dims * dims)))
          []
          (repeat kNullPosition (Z.to_nat kMaxTileCount))
          (repeat kNoneTile 7)
          [] 0 kNoneTile kNullPosition [] [].

Definition colour_influence_ (b : HexBoard) (c : Colour) : PosSet :=
  match c with
  | kWhite => colour_influence_white b
  | kBlack => colour_influence_black b
  end.

(** The result is a [size_t]: a negative [int] converts modulo 2^64. *)
Definition AxialToIndex (b : HexBoard) (pos : HivePosition) : Z :=
  (q_ pos + Radius b + (r_ pos + Radius b) * SquareDimensions b) mod 2 ^ 64.

(** The grid index that [GetTopTileAt] reads; [None] when it returns before
    touching the grid. *)
Definition GetTopTileAt_index (b : HexBoard) (pos : HivePosition) : option Z :=
  if DistanceTo pos kOriginPosition >? Radius b then None
  else Some (AxialToIndex b pos).

Definition GetTopTileAt (b : HexBoard) (pos : HivePosition) : NewHiveTile :=
  match GetTopTileAt_index b pos with
  | None => kNoneTile
  | Some i => nth (Z.to_nat i) (tile_grid_ b) kNoneTile
  end.

(** [tile_positions_[tile]]; every use in the source is on a tile that has a
    value. *)
Definition tile_positions_at (b : HexBoard) (t : NewHiveTile) : HivePosition :=
  nth (Z.to_nat (tile_value t)) (tile_positions_ b) kNullPosition.

Definition GetPositionOf (b : HexBoard) (t : NewHiveTile) : HivePosition :=
  if HasValue t then tile_positions_at b t else kNullPosition.

Definition IsInPlay (b : HexBoard) (t : NewHiveTile) : bool :=
  HasValue t && negb (pos_eqb (tile_positions_at b t) kNullPosition).

Definition IsInPlay_type (b : HexBoard) (c : Colour) (type : BugType) (ordinal : Z)
  : bool :=
  IsInPlay b (GetTileFrom c type ordinal).

Definition LastMovedTile (b : HexBoard) : NewHiveTile := last_moved_ b.
Definition LastMovedFrom (b : HexBoard) : HivePosition := last_moved_from_ b.

(** The [to_ignore] argument is not used by the body. *)
Definition NeighboursOf (b : HexBoard) (pos to_ignore : HivePosition)
  : list NewHiveTile :=
  filter HasValue (map (GetTopTileAt b) (Neighbours pos)).

Definition IsQueenSurrounded (b : HexBoard) (c : Colour) : bool :=
  let queen := match c with kWhite => wQ | kBlack => bQ end in
  if negb (IsInPlay b queen) then false
  else forallb (fun neighbour_pos =>
                  negb (tile_eqb (GetTopTileAt b neighbour_pos) kNoneTile))
               (Neighbours (tile_positions_at b queen)).

Definition IsGated (b : HexBoard) (pos : HivePosition) (d : Direction)
           (to_ignore : HivePosition) : bool :=
  let cw := pos_add pos (kNeighbourOffsets (ClockwiseDirection d)) in
  let ccw := pos_add pos (kNeighbourOffsets (CounterClockwiseDirection d)) in
  let cw_exists := negb (pos_eqb cw to_ignore)
                   && (h_ (GetPositionOf b (GetTopTileAt b cw)) >=? h_ pos) in
  let ccw_exists := negb (pos_eqb ccw to_ignore)
                    && (h_ (GetPositionOf b (GetTopTileAt b ccw)) >=? h_ pos) in
  if h_ pos =? 0 then Bool.eqb cw_exists ccw_exists
  else cw_exists && ccw_exists.

Definition IsConnected (b : HexBoard) (pos to_ignore : HivePosition) : bool :=
  (0 <? Z.of_nat (List.length (NeighboursOf b pos to_ignore))).

(** [std::find_if]: the offset from [begin()] of the first element that
    satisfies the predicate, or the size of the range for [end()]. *)
Fixpoint find_if {A : Type} (p : A -> bool) (l : list A) : nat :=
  match l with
  | [] => O
  | x :: l' => if p x then O else S (find_if p l')
  end.

(** An iterator of [std::array<NewHiveTile, 7>] is a pointer into the array
    member: the address of the array plus the offset (a tile is one byte).
    Its conversion to [bool] is the test against the null pointer. *)
Definition iterator_address (array_address : positive) (offset : nat) : Z :=
  Z.pos array_address + Z.of_nat offset.

Definition pointer_to_bool (address : Z) : bool := negb (address =? 0).

(** [IsCovered(HivePosition)] returns the iterator itself, converted to
    [bool]; [covered_address] is the address of [covered_tiles_]. *)
Definition IsCovered_pos (covered_address : positive) (b : HexBoard)
           (pos : HivePosition) : bool :=
  pointer_to_bool
    (iterator_address covered_address
       (find_if (fun tile => pos_eqb (GetPositionOf b tile) pos)
                (covered_tiles_ b))).

Definition IsCovered (b : HexBoard) (t : NewHiveTile) : bool :=
  HasValue t && existsb (tile_eqb t) (covered_tiles_ b).

Definition IsPinned_pos (b : HexBoard) (pos : HivePosition) : bool :=
  set_contains (articulation_points_ b) pos.

Definition IsPinned (b : HexBoard) (t : NewHiveTile) : bool :=
  HasValue t && IsPinned_pos b (tile_positions_at b t).

Definition GetTileBelow (b : HexBoard) (pos : HivePosition) : NewHiveTile :=
  let below := pos_sub pos (kNeighbourOffsets kAbove) in
  if pos_eqb (GetPositionOf b (GetTopTileAt b below)) below
  then GetTopTileAt b below
  else
    match find (fun tile => HasValue tile && pos_eqb (tile_positions_at b tile) below)
               (covered_tiles_ b) with
    | Some tile => tile
    | None => kNoneTile
    end.

(** ** Mutation of the board store *)

Definition with_largest_radius (b : HexBoard) (v : Z) : HexBoard :=
  MkBoard (hex_radius_ b) (num_tiles_ b) (tile_grid_ b) (played_tiles_ b)
          (tile_positions_ b) (covered_tiles_ b) (articulation_points_ b)
          v (last_moved_ b) (last_moved_from_ b)
          (colour_influence_white b) (colour_influence_black b).

Definition with_tile_grid (b : HexBoard) (v : list NewHiveTile) : HexBoard :=
  MkBoard (hex_radius_ b) (num_tiles_ b) v (played_tiles_ b)
          (tile_positions_ b) (covered_tiles_ b) (articulation_points_ b)
          (largest_radius b) (last_moved_ b) (last_moved_from_ b)
          (colour_influence_white b) (colour_influence_black b).

Definition with_played_tiles (b : HexBoard) (v : list NewHiveTile) : HexBoard :=
  MkBoard (hex_radius_ b) (num_tiles_ b) (tile_grid_ b) v
          (tile_positions_ b) (covered_tiles_ b) (articulation_points_ b)
          (largest_radius b) (last_moved_ b) (last_moved_from_ b)
          (colour_influence_white b) (colour_influence_black b).

Definition with_tile_positions (b : HexBoard) (v : list HivePosition) : HexBoard :=
  MkBoard (hex_radius_ b) (num_tiles_ b) (tile_grid_ b) (played_tiles_ b)
          v (covered_tiles_ b) (articulation_points_ b)
          (largest_radius b) (last_moved_ b) (last_moved_from_ b)
          (colour_influence_white b) (colour_influence_black b).

Definition with_covered_tiles (b : HexBoard) (v : list NewHiveTile) : HexBoard :=
  MkBoard (hex_radius_ b) (num_tiles_ b) (tile_grid_ b) (played_tiles_ b)
          (tile_positions_ b) v (articulation_points_ b)
          (largest_radius b) (last_moved_ b) (last_moved_from_ b)
          (colour_influence_white b) (colour_influence_black b).

Definition with_articulation_points (b : HexBoard) (v : PosSet) : HexBoard :=
  MkBoard (hex_radius_ b) (num_tiles_ b) (tile_grid_ b) (played_tiles_ b)
          (tile_positions_ b) (covered_tiles_ b) v
          (largest_radius b) (last_moved_ b) (last_moved_from_ b)
          (colour_influence_white b) (colour_influence_black b).

Definition with_last_moved (b : HexBoard) (v : NewHiveTile) : HexBoard :=
  MkBoard (hex_radius_ b) (num_tiles_ b) (tile_grid_ b) (played_tiles_ b)
          (tile_positions_ b) (covered_tiles_ b) (articulation_points_ b)
          (largest_radius b) v (last_moved_from_ b)
          (colour_influence_white b) (colour_influence_black b).

Definition with_last_moved_from (b : HexBoard) (v : HivePosition) : HexBoard :=
  MkBoard (hex_radius_ b) (num_tiles_ b) (tile_grid_ b) (played_tiles_ b)
          (tile_positions_ b) (covered_tiles_ b) (articulation_points_ b)
          (largest_radius b) (last_moved_ b) v
          (colour_influence_white b) (colour_influence_black b).

Definition with_colour_influence (b : HexBoard) (c : Colour) (v : PosSet) : HexBoard :=
  MkBoard (hex_radius_ b) (num_tiles_ b) (tile_grid_ b) (played_tiles_ b)
          (tile_positions_ b) (covered_tiles_ b) (articulation_points_ b)
          (largest_radius b) (last_moved_ b) (last_moved_from_ b)
          (match c with kWhite => v | kBlack => colour_influence_white b end)
          (match c with kWhite => colour_influence_black b | kBlack => v end).

(** A write [v[i] = x] into a vector or array; out of range is undefined
    behaviour in the source and [None] here. *)
Definition vector_set {A : Type} (l : list A) (i : Z) (x : A) : option (list A) :=
  if (0 <=? i) && (i <? Z.of_nat (List.length l))
  then Some (firstn (Z.to_nat i) l ++ x :: skipn (S (Z.to_nat i)) l)
  else None.

(** The first loop of [MoveTile] over [covered_tiles_]: the tile goes into
    the first slot that holds no tile; nothing happens when all are taken. *)
Fixpoint cover_tile (covered : list NewHiveTile) (t : NewHiveTile)
  : list NewHiveTile :=
  match covered with
  | [] => []
  | c :: rest => if negb (HasValue c) then t :: rest else c :: cover_tile rest t
  end.

(** The greatest index whose element satisfies [p] (the reverse loop). *)
Fixpoint last_index_where {A : Type} (p : A -> bool) (l : list A) : option nat :=
  match l with
  | [] => None
  | x :: l' =>
      match last_index_where p l' with
      | Some i => Some (S i)
      | None => if p x then Some O else None
      end
  end.

(** Clearing slot [i] and [std::rotate(begin + i, begin + i + 1, end)]. *)
Definition uncover_at (covered : list NewHiveTile) (i : nat) : list NewHiveTile :=
  firstn i covered ++ skipn (S i) covered ++ [kNoneTile].

Definition UpdateInfluence (b : HexBoard) (c : Colour) : option HexBoard :=
  let step (acc : option PosSet) (tile : NewHiveTile) : option PosSet :=
    let? s := acc in
    let? tc := GetColour tile in
    if negb (Colour_eqb tc c) then Some s
    else if IsCovered b tile then Some s
    else Some (fold_left (fun s pos => set_insert s (Grounded pos))
                         (Neighbours (tile_positions_at b tile)) s) in
  let? s := fold_left step (played_tiles_ b) (Some []) in
  Some (with_colour_influence b c s).

(** *** Articulation points *)

(** [absl::flat_hash_map<HivePosition, int>]; [operator[]] yields 0 for a
    key that is not present. *)
Definition PosMap : Type := list (HivePosition * Z).

Definition map_get (m : PosMap) (k : HivePosition) : Z :=
  match find (fun e => pos_eqb (fst e) k) m with
  | Some e => snd e
  | None => 0
  end.

Definition map_set (m : PosMap) (k : HivePosition) (v : Z) : PosMap :=
  (k, v) :: filter (fun e => negb (pos_eqb (fst e) k)) m.

Record APState : Type := MkAP {
  ap_visited : PosSet;
  ap_entry_point : PosMap;
  ap_low_point : PosMap;
  ap_visit_order : Z;
  ap_points : PosSet
}.

Definition ap_set_low (st : APState) (k : HivePosition) (v : Z) : APState :=
  MkAP (ap_visited st) (ap_entry_point st) (map_set (ap_low_point st) k v)
       (ap_visit_order st) (ap_points st).

Definition ap_add_point (st : APState) (p : HivePosition) : APState :=
  MkAP (ap_visited st) (ap_entry_point st) (ap_low_point st)
       (ap_visit_order st) (set_insert (ap_points st) p).

(** The recursive lambda [dfs] of [UpdateArticulationPoints]; [fuel] bounds
    the recursion depth. *)
Fixpoint ap_dfs (fuel : nat) (b : HexBoard) (vertex parent : HivePosition)
         (is_root : bool) (st : APState) : option APState :=
  match fuel with
  | O => None
  | S fuel' =>
      let st := MkAP (set_insert (ap_visited st) vertex)
                     (map_set (ap_entry_point st) vertex (ap_visit_order st))
                     (map_set (ap_low_point st) vertex (ap_visit_order st))
                     (ap_visit_order st + 1)
                     (ap_points st) in
      let step (acc : option (APState * Z)) (dir : Direction) :=
        let? (st, children) := acc in
        let to_vertex := pos_add vertex (kNeighbourOffsets dir) in
        if negb (HasValue (GetTopTileAt b to_vertex)) then Some (st, children)
        else if pos_eqb to_vertex parent then Some (st, children)
        else if set_contains (ap_visited st) to_vertex then
          Some (ap_set_low st vertex
                  (Z.min (map_get (ap_low_point st) vertex)
                         (map_get (ap_entry_point st) to_vertex)),
                children)
        else
          let? st := ap_dfs fuel' b to_vertex vertex false st in
          let children := children + 1 in
          let st := ap_set_low st vertex
                      (Z.min (map_get (ap_low_point st) vertex)
                             (map_get (ap_low_point st) to_vertex)) in
          let st := if (map_get (ap_low_point st) to_vertex
                          >=? map_get (ap_entry_point st) vertex)
                       && negb is_root
                    then ap_add_point st vertex else st in
          Some (st, children) in
      let? (st, children) := fold_left step cardinal_directions (Some (st, 0)) in
      Some (if is_root && (children >? 1) then ap_add_point st vertex else st)
  end.

(** The search starts at the position recorded for the white Queen. *)
Definition UpdateArticulationPoints (b : HexBoard) : option HexBoard :=
  let? st := ap_dfs (List.length (tile_grid_ b) + 2) b
                    (tile_positions_at b wQ) kNullPosition true
                    (MkAP [] [] [] 0 []) in
  Some (with_articulation_points b (ap_points st)).

(** *** [MoveTile] and [Pass] *)

Definition SetH (p : HivePosition) (h : Z) : HivePosition :=
  MkPos (q_ p) (r_ p) h.

(** The position a move leads to: reference tile plus offset, let down onto
    the top of the pile there; the origin when there is no reference. *)
Definition MoveTile_new_pos (b : HexBoard) (move : Move) : HivePosition :=
  if HasValue (to move) then
    let new_pos := pos_add (tile_positions_at b (to move))
                           (kNeighbourOffsets (direction move)) in
    if h_ new_pos >? 0 then
      let top_tile := GetTopTileAt b new_pos in
      if HasValue top_tile
      then SetH new_pos (int8 (h_ (tile_positions_at b top_tile) + 1))
      else SetH new_pos 0
    else new_pos
  else kOriginPosition.

(** Returns the boolean result together with the board after the call. *)
Definition MoveTile (b : HexBoard) (move : Move) : option (bool * HexBoard) :=
  if negb (HasValue (from move)) then None else
  let new_pos := MoveTile_new_pos b move in
  let dist := DistanceTo new_pos kOriginPosition in
  let b := with_largest_radius b (Z.max (largest_radius b) dist) in
  if dist >? hex_radius_ b then Some (false, b) else
  let old_pos := tile_positions_at b (from move) in
  let b := if pos_eqb old_pos kNullPosition
           then with_played_tiles b (played_tiles_ b ++ [from move]) else b in
  let b := if negb (pos_eqb new_pos old_pos)
           then with_last_moved_from b old_pos else b in
  let old_idx := AxialToIndex b old_pos in
  let new_idx := AxialToIndex b new_pos in
  let? at_new := nth_error (tile_grid_ b) (Z.to_nat new_idx) in
  let b := if HasValue at_new
           then with_covered_tiles b (cover_tile (covered_tiles_ b) at_new)
           else b in
  let? grid := vector_set (tile_grid_ b) new_idx (from move) in
  let b := with_tile_grid b grid in
  let? positions := vector_set (tile_positions_ b) (tile_value (from move)) new_pos in
  let b := with_tile_positions b positions in
  let b := with_last_moved b (from move) in
  let? b :=
    if h_ old_pos >? 0 then
      match last_index_where
              (fun c => negb (tile_eqb c kNoneTile)
                        && pos_eqb (Grounded old_pos) (Grounded (GetPositionOf b c)))
              (covered_tiles_ b) with
      | Some i =>
          let? grid := vector_set (tile_grid_ b) old_idx
                                  (nth i (covered_tiles_ b) kNoneTile) in
          Some (with_covered_tiles (with_tile_grid b grid)
                                   (uncover_at (covered_tiles_ b) i))
      | None => Some b
      end
    else if negb (pos_eqb old_pos kNullPosition) then
      let? grid := vector_set (tile_grid_ b) old_idx kNoneTile in
      Some (with_tile_grid b grid)
    else Some b in
  let? colour := GetColour (from move) in
  let? b := UpdateInfluence b colour in
  let? b := if (h_ old_pos >? 0) || (h_ new_pos >? 0)
            then UpdateInfluence b (OtherColour colour) else Some b in
  let? b := UpdateArticulationPoints b in
  Some (true, b).

Definition Pass (b : HexBoard) : HexBoard :=
  with_last_moved_from (with_last_moved b kNoneTile) kNullPosition.

(** ** Move generator *)

Definition queen_of (c : Colour) : NewHiveTile :=
  match c with kWhite => wQ | kBlack => bQ end.

(** The moves [GeneratePlacementMoves] appends to [out]. Reading
    [played_tiles_.front()] of an empty vector is undefined. *)
Definition GeneratePlacementMoves (b : HexBoard) (to_move : Colour) (move_number : Z)
  : option (list Move) :=
  if move_number =? 0 then
    Some (flat_map (fun tile =>
                      if BugType_eqb (GetBugType tile) kQueen then []
                      else [MkMove tile kNoneTile kAbove])
                   (GetTilesForColour to_move))
  else if move_number =? 1 then
    let? front := hd_error (played_tiles_ b) in
    Some (flat_map (fun tile =>
                      if BugType_eqb (GetBugType tile) kQueen then []
                      else map (fun i => MkMove tile front i) cardinal_directions)
                   (GetTilesForColour to_move))
  else
    let queen_placed := (move_number >=? 8) || IsInPlay b (queen_of to_move) in
    Some (flat_map
            (fun tile =>
               if IsInPlay b tile then []
               else if ((move_number =? 6) || (move_number =? 7))
                       && negb queen_placed
                       && negb (BugType_eqb (GetBugType tile) kQueen) then []
               else
                 flat_map
                   (fun pos =>
                      if HasValue (GetTopTileAt b pos) then []
                      else if set_contains (colour_influence_ b (OtherColour to_move)) pos
                      then []
                      else
                        flat_map
                          (fun i =>
                             let to_pos := pos_add pos (kNeighbourOffsets i) in
                             let neighbour := GetTopTileAt b to_pos in
                             if HasValue neighbour
                             then [MkMove tile neighbour (OppositeDirection i)]
                             else [])
                          cardinal_directions)
                   (colour_influence_ b to_move))
            (GetTilesForColour to_move)).

(** The three-part test of both loops of the slide search: the step from
    [pos] in direction [dir] is refused when the target holds a tile, when
    the passage is gated, or when the target touches no tile. *)
Definition slide_blocked (b : HexBoard) (start_pos pos : HivePosition)
           (dir : Direction) : bool :=
  let to_test := pos_add pos (kNeighbourOffsets dir) in
  HasValue (GetTopTileAt b to_test)
  || IsGated b pos dir start_pos
  || negb (IsConnected b to_test start_pos).

(** The recursive lambda [dfs] of [GenerateValidSlides], on the pair of the
    [visited] set and the [out] set; [fuel] bounds the recursion depth. *)
Fixpoint slides_dfs (fuel : nat) (b : HexBoard) (start_pos : HivePosition)
         (distance : Z) (pos : HivePosition) (from_dir : Direction) (depth : Z)
         (st : PosSet * PosSet) : option (PosSet * PosSet) :=
  match fuel with
  | O => None
  | S fuel' =>
      let unlimited_distance := distance <? 0 in
      let '(visited, out) := st in
      if set_contains visited pos
         || (negb unlimited_distance && (depth >? distance))
      then Some (visited, out)
      else
        let out :=
          fold_left
            (fun out dir =>
               let to_test := pos_add pos (kNeighbourOffsets dir) in
               if Direction_eqb dir from_dir then out
               else if set_contains visited to_test then out
               else if slide_blocked b start_pos pos dir then out
               else if (depth =? distance) || unlimited_distance
                    then set_insert out to_test else out)
            cardinal_directions out in
        if depth =? distance then Some (visited, out)
        else
          let visited := set_insert visited pos in
          fold_left
            (fun acc dir =>
               let? (visited, out) := acc in
               let to_test := pos_add pos (kNeighbourOffsets dir) in
               if Direction_eqb dir from_dir then Some (visited, out)
               else if set_contains visited to_test then Some (visited, out)
               else if slide_blocked b start_pos pos dir then Some (visited, out)
               else
                 let out := if (depth =? distance) || unlimited_distance
                            then set_insert out to_test else out in
                 let? (visited, out) :=
                   slides_dfs fuel' b start_pos distance to_test
                              (OppositeDirection dir) (depth + 1) (visited, out) in
                 Some (if negb unlimited_distance
                       then set_erase visited to_test else visited,
                       out))
            cardinal_directions (Some (visited, out))
  end.

(** Recursion depth of the search: [distance] levels when the distance is
    limited, otherwise at most one level per cell that can be entered. *)
Definition slides_fuel (b : HexBoard) (distance : Z) : nat :=
  if distance <? 0
  then Z.to_nat ((SquareDimensions b + 2) * (SquareDimensions b + 2)) + 2
  else Z.to_nat distance + 1.

Definition GenerateValidSlides (out : PosSet) (b : HexBoard) (tile : NewHiveTile)
           (start_pos : HivePosition) (distance : Z) : option PosSet :=
  if IsPinned b tile || IsCovered b tile then Some out
  else
    let? (_, out) := slides_dfs (slides_fuel b distance) b start_pos distance
                                start_pos kNumAllDirections 1 ([], out) in
    Some out.

Definition GenerateValidClimbs (out : PosSet) (b : HexBoard) (tile : NewHiveTile)
           (start_pos : HivePosition) : PosSet :=
  if IsPinned b tile || IsCovered b tile then out
  else
    let ground_pos := Grounded start_pos in
    fold_left
      (fun out d =>
         let neighbour := GetTopTileAt b (pos_add ground_pos (kNeighbourOffsets d)) in
         if HasValue neighbour then
           let to_pos := NeighbourAt (tile_positions_at b neighbour) kAbove in
           if (h_ to_pos >? h_ start_pos)
              && negb (IsGated b (MkPos (q_ start_pos) (r_ start_pos) (h_ to_pos))
                               d kNullPosition)
           then set_insert out to_pos
           else if (h_ to_pos <=? h_ start_pos)
                   && negb (IsGated b start_pos d kNullPosition)
           then set_insert out to_pos
           else out
         else
           let to_pos := pos_add ground_pos (kNeighbourOffsets d) in
           if (h_ to_pos <? h_ start_pos)
              && negb (IsGated b start_pos d kNullPosition)
           then set_insert out to_pos
           else out)
      cardinal_directions out.

(** The [while] loop of the grasshopper jump. *)
Fixpoint grasshopper_jump (fuel : nat) (b : HexBoard) (to_test : HivePosition)
         (d : Direction) (found : bool) : option (HivePosition * bool) :=
  match fuel with
  | O => None
  | S fuel' =>
      if HasValue (GetTopTileAt b to_test)
      then grasshopper_jump fuel' b (pos_add to_test (kNeighbourOffsets d)) d true
      else Some (to_test, found)
  end.

Definition GenerateValidGrasshopperPositions (out : PosSet) (b : HexBoard)
           (tile : NewHiveTile) (start_pos : HivePosition) : option PosSet :=
  if IsPinned b tile || IsCovered b tile then Some out
  else
    fold_left
      (fun acc d =>
         let? out := acc in
         let? (to_test, found) :=
           grasshopper_jump (Z.to_nat (SquareDimensions b) + 2) b
                            (pos_add start_pos (kNeighbourOffsets d)) d false in
         Some (if found then set_insert out to_test else out))
      cardinal_directions (Some out).

Definition GenerateValidLadybugPositions (out : PosSet) (b : HexBoard)
           (tile : NewHiveTile) (start_pos : HivePosition) : PosSet :=
  if IsPinned b tile || IsCovered b tile then out
  else
    let intermediates1 := GenerateValidClimbs [] b tile start_pos in
    let intermediates2 :=
      fold_left (fun acc pos => GenerateValidClimbs acc b tile pos)
                intermediates1 [] in
    let intermediates3 :=
      fold_left
        (fun acc pos =>
           if (h_ pos =? 0)
              || pos_eqb pos (pos_add start_pos (kNeighbourOffsets kAbove))
           then acc
           else GenerateValidClimbs acc b tile pos)
        intermediates2 [] in
    fold_left (fun out pos => if h_ pos =? 0 then set_insert out pos else out)
              intermediates3 out.

Definition GenerateValidPillbugSpecials (b : HexBoard) (tile : NewHiveTile)
           (start_pos : HivePosition) : list Move :=
  if IsCovered b tile then []
  else
    let open_dirs :=
      filter (fun dir =>
                negb (IsGated b (pos_add start_pos (kNeighbourOffsets kAbove))
                              dir kNullPosition))
             cardinal_directions in
    let valid_targets :=
      flat_map
        (fun dir =>
           let test_tile := GetTopTileAt b (pos_add start_pos (kNeighbourOffsets dir)) in
           if HasValue test_tile then
             if negb (IsPinned b test_tile) && negb (IsCovered b test_tile)
                && negb (tile_eqb test_tile (LastMovedTile b))
                && (h_ (GetPositionOf b test_tile) =? 0)
             then [test_tile] else []
           else [])
        open_dirs in
    let valid_positions :=
      flat_map
        (fun dir =>
           let test_pos := pos_add start_pos (kNeighbourOffsets dir) in
           if HasValue (GetTopTileAt b test_pos) then [] else [test_pos])
        open_dirs in
    flat_map
      (fun target_tile =>
         flat_map
           (fun target_pos =>
              flat_map
                (fun dir =>
                   let ref_tile :=
                     GetTopTileAt b (pos_add target_pos (kNeighbourOffsets dir)) in
                   if HasValue ref_tile && negb (tile_eqb ref_tile target_tile)
                   then [MkMove target_tile ref_tile (OppositeDirection dir)]
                   else [])
                cardinal_directions)
           valid_positions)
      valid_targets.

(** The last loop of [GenerateMovesFor]: every destination becomes one move
    per reference tile. *)
Definition reference_moves (b : HexBoard) (tile : NewHiveTile)
           (start_pos : HivePosition) (positions : PosSet) : list Move :=
  flat_map
    (fun to_pos =>
       if h_ to_pos >? 0 then [MkMove tile (GetTopTileAt b to_pos) kAbove]
       else
         flat_map
           (fun dir =>
              let neighbour := GetTopTileAt b (pos_add to_pos (kNeighbourOffsets dir)) in
              if HasValue neighbour then
                if (h_ start_pos >? 0) && tile_eqb neighbour tile
                then [MkMove tile (GetTileBelow b start_pos) (OppositeDirection dir)]
                else if negb (tile_eqb neighbour tile)
                then [MkMove tile neighbour (OppositeDirection dir)]
                else []
              else [])
           cardinal_directions)
    positions.

(** [GenerateMovesFor] for every acting type but the Mosquito: the
    destinations of the [switch], the Pillbug specials, then the reference
    moves. The result is what the call appends to [out]. *)
Definition GenerateMovesFor_acting (b : HexBoard) (tile : NewHiveTile)
           (acting_type : BugType) : option (list Move) :=
  let start_pos := tile_positions_at b tile in
  let? (positions, specials) :=
    match acting_type with
    | kQueen =>
        let? s := GenerateValidSlides [] b tile start_pos 1 in Some (s, [])
    | kAnt =>
        let? s := GenerateValidSlides [] b tile start_pos (-1) in Some (s, [])
    | kGrasshopper =>
        let? s := GenerateValidGrasshopperPositions [] b tile start_pos in Some (s, [])
    | kSpider =>
        let? s := GenerateValidSlides [] b tile start_pos 3 in Some (s, [])
    | kBeetle =>
        let s := GenerateValidClimbs [] b tile start_pos in
        if h_ start_pos =? 0
        then let? s := GenerateValidSlides s b tile start_pos 1 in Some (s, [])
        else Some (s, [])
    | kLadybug =>
        Some (GenerateValidLadybugPositions [] b tile start_pos, [])
    | kPillbug =>
        let? s := GenerateValidSlides [] b tile start_pos 1 in
        Some (s, GenerateValidPillbugSpecials b tile start_pos)
    | _ => Some ([], [])
    end in
  Some (specials ++ reference_moves b tile start_pos positions).

(** The Mosquito copies its neighbours; the nested calls of
    [GenerateMovesFor] are never for the Mosquito type itself. *)
Definition GenerateValidMosquitoPositions (b : HexBoard) (tile : NewHiveTile)
           (start_pos : HivePosition) (to_move : Colour) : option (list Move) :=
  if IsCovered b tile then Some []
  else if h_ start_pos >? 0 then GenerateMovesFor_acting b tile kBeetle
  else
    let step (acc : option (list BugType * list Move)) (neighbour : NewHiveTile) :=
      let? (types_seen, out) := acc in
      let type := GetBugType neighbour in
      if existsb (BugType_eqb type) types_seen then Some (types_seen, out)
      else
        let types_seen := type :: types_seen in
        if BugType_eqb type kMosquito then Some (types_seen, out)
        else if (BugType_eqb type kQueen || BugType_eqb type kSpider)
                && existsb (BugType_eqb kAnt) types_seen
        then Some (types_seen, out)
        else
          let? ms := GenerateMovesFor_acting b tile type in
          Some (types_seen, out ++ ms) in
    let? (_, out) := fold_left step (NeighboursOf b start_pos kNullPosition)
                               (Some ([], [])) in
    Some out.

Definition GenerateMovesFor (b : HexBoard) (tile : NewHiveTile)
           (acting_type : BugType) (to_move : Colour) : option (list Move) :=
  match acting_type with
  | kMosquito =>
      GenerateValidMosquitoPositions b tile (tile_positions_at b tile) to_move
  | _ => GenerateMovesFor_acting b tile acting_type
  end.

Definition GenerateAllMoves (b : HexBoard) (to_move : Colour) (move_number : Z)
  : option (list Move) :=
  let? placements := GeneratePlacementMoves b to_move move_number in
  if IsInPlay_type b to_move kQueen 1 then
    fold_left
      (fun acc tile =>
         let? out := acc in
         let? colour := GetColour tile in
         if Colour_eqb colour to_move && negb (tile_eqb tile (last_moved_ b))
         then let? ms := GenerateMovesFor b tile (GetBugType tile) to_move in
              Some (out ++ ms)
         else Some out)
      (played_tiles_ b) (Some placements)
  else Some placements.

(** ** UHP strings (hive_hexboard.cc, hive.cc) *)

(** Decimal rendering of an integer ([absl::StrAppend], [%d]). *)
Definition decimal (z : Z) : string := NilZero.string_of_int (Z.to_int z).

(** [NewHiveTile::ToUHP]; it starts with [SPIEL_CHECK_TRUE(HasValue())]. *)
Definition Tile_ToUHP (t : NewHiveTile) : option string :=
  if negb (HasValue t) then None else
  let? colour := GetColour t in
  let uhp := match colour with kWhite => "w" | kBlack => "b" end%string in
  let type := GetBugType t in
  let uhp := (uhp ++ match type with
                     | kQueen => "Q" | kAnt => "A" | kGrasshopper => "G"
                     | kSpider => "S" | kBeetle => "B" | kLadybug => "L"
                     | kMosquito => "M" | kPillbug => "P"
                     | _ => ""
                     end)%string in
  Some (if BugType_eqb type kAnt || BugType_eqb type kGrasshopper
           || BugType_eqb type kSpider || BugType_eqb type kBeetle
        then (uhp ++ decimal (GetOrdinal t))%string
        else uhp).

(** The lookup table of [NewHiveTile::UHPToTile]. *)
Definition UHPToTile_mapping : list (string * NewHiveTile) :=
  [ ("wQ", wQ);
    ("wA1", wA1); ("wA2", wA2); ("wA3", wA3);
    ("wG1", wG1); ("wG2", wG2); ("wG3", wG3);
    ("wS1", wS1); ("wS2", wS2);
    ("wB1", wB1); ("wB2", wB2);
    ("wM", wM);
    ("wL", wL);
    ("wP", wP);
    ("bQ", bQ);
    ("bA1", bA1); ("bA2", bA2); ("bA3", bA3);
    ("bG1", bG1); ("bG2", bG2); ("bG3", bG3);
    ("bS1", bS1); ("bS2", bS2);
    ("bB1", bB1); ("bB2", bB2);
    ("bM", bM);
    ("bL", bL);
    ("bP", bP) ]%string.

(** [SPIEL_CHECK_TRUE(it != string_mapping.end())] aborts on other input. *)
Definition UHPToTile (uhp : string) : option NewHiveTile :=
  match find (fun e => String.eqb (fst e) uhp) UHPToTile_mapping with
  | Some e => Some (snd e)
  | None => None
  end.

(** [Move::ToUHP]; an invalid direction ends in [SpielFatalError]. *)
Definition Move_ToUHP (m : Move) : option string :=
  if IsPass m then Some "pass"%string
  else if negb (HasValue (to m)) then Tile_ToUHP (from m)
  else
    let? reference_tile_uhp := Tile_ToUHP (to m) in
    let? offset_formatted :=
      match direction m with
      | kNE => Some (reference_tile_uhp ++ "/")
      | kE => Some (reference_tile_uhp ++ "-")
      | kSE => Some (reference_tile_uhp ++ "\")
      | kSW => Some ("/" ++ reference_tile_uhp)
      | kW => Some ("-" ++ reference_tile_uhp)
      | kNW => Some ("\" ++ reference_tile_uhp)
      | kAbove => Some reference_tile_uhp
      | kNumAllDirections => None
      end%string in
    let? from_uhp := Tile_ToUHP (from m) in
    Some (from_uhp ++ " " ++ offset_formatted)%string.

(** [absl::StrSplit(s, delimiter)] for a one-character delimiter: every
    occurrence separates two pieces, empty pieces included. *)
Fixpoint StrSplit (s : string) (delimiter : ascii) : list string :=
  match s with
  | EmptyString => [EmptyString]
  | String c s' =>
      if Ascii.eqb c delimiter then EmptyString :: StrSplit s' delimiter
      else match StrSplit s' delimiter with
           | piece :: pieces => String c piece :: pieces
           | [] => [String c EmptyString]
           end
  end.

Definition StrJoin (pieces : list string) (separator : string) : string :=
  String.concat separator pieces.

Fixpoint string_contains (chars : string) (c : ascii) : bool :=
  match chars with
  | EmptyString => false
  | String x chars' => Ascii.eqb x c || string_contains chars' c
  end.

(** [std::string::front] and [back]; undefined on the empty string. *)
Definition string_front (s : string) : option ascii :=
  match s with
  | EmptyString => None
  | String c _ => Some c
  end.

Fixpoint string_back (s : string) : option ascii :=
  match s with
  | EmptyString => None
  | String c EmptyString => Some c
  | String _ s' => string_back s'
  end.

(** [find_first_not_of] and [find_last_not_of]; [None] is [npos]. *)
Fixpoint find_first_not_of (s chars : string) : option nat :=
  match s with
  | EmptyString => None
  | String c s' =>
      if string_contains chars c
      then option_map S (find_first_not_of s' chars)
      else Some O
  end.

Fixpoint find_last_not_of (s chars : string) : option nat :=
  match s with
  | EmptyString => None
  | String c s' =>
      match find_last_not_of s' chars with
      | Some i => Some (S i)
      | None => if string_contains chars c then None else Some O
      end
  end.

(** ** Game and state (hive.h, hive.cc) *)

Record ExpansionInfo : Type := MkExpansions {
  uses_mosquito : bool;
  uses_ladybug : bool;
  uses_pillbug : bool
}.

(** The parameters declared in [kGameType]. *)
Record GameParameters : Type := MkParams {
  param_board_size : Z;
  param_m : bool;
  param_l : bool;
  param_p : bool
}.

Record HiveGame : Type := MkGame {
  board_radius_ : Z;
  game_num_bug_types_ : Z;
  game_expansions_ : ExpansionInfo
}.

Definition kNumPlayers : Z := 2.
Definition kDefaultNumBugTypes : Z := 5.
Definition kDefaultUHPGameType : string := "Base+PLM".
Definition kUHPNotStarted : string := "NotStarted".
Definition kUHPInProgress : string := "InProgress".
Definition kUHPWhiteWins : string := "WhiteWins".
Definition kUHPBlackWins : string := "BlackWins".
Definition kUHPDraw : string := "Draw".

(** The constructor takes the radius from [kDefaultBoardRadius] and reads
    the three expansion parameters. *)
Definition HiveGame_new (params : GameParameters) : HiveGame :=
  let expansions := MkExpansions (param_m params) (param_l params) (param_p params) in
  let n := kDefaultNumBugTypes in
  let n := if uses_mosquito expansions then n + 1 else n in
  let n := if uses_ladybug expansions then n + 1 else n in
  let n := if uses_pillbug expansions then n + 1 else n in
  MkGame kDefaultBoardRadius n expansions.

Definition NumDistinctActions : Z := 5488 + 1.
Definition MaxGameLength : Z := 1000.
Definition kTerminalPlayerId : Z := -4.

(** [game_], [history_] and [move_number_] are the members of the base
    class [State]; a new state has an empty history and move number 0. *)
Record HiveState : Type := MkState {
  game_ : HiveGame;
  history_ : list (Z * Z);
  move_number_ : Z;
  current_player_ : Z;
  board_ : HexBoard;
  expansions_ : ExpansionInfo;
  num_bug_types_ : Z;
  force_terminal_ : bool
}.

Definition HiveState_new (game : HiveGame) (board_size : Z)
           (expansions : ExpansionInfo) (num_bug_types : Z) : HiveState :=
  MkState game [] 0 kPlayerWhite
          (HexBoard_new board_size (uses_mosquito expansions)
                        (uses_ladybug expansions) (uses_pillbug expansions))
          expansions num_bug_types false.

Definition NewInitialState (g : HiveGame) : HiveState :=
  HiveState_new g (board_radius_ g) (game_expansions_ g) (game_num_bug_types_ g).

Definition Board (s : HiveState) : HexBoard := board_ s.
Definition MoveNumber (s : HiveState) : Z := move_number_ s.
Definition History (s : HiveState) : list Z := map snd (history_ s).
Definition PassAction : Z := NumDistinctActions - 1.

Definition WinConditionMet (s : HiveState) (player : Z) : bool :=
  IsQueenSurrounded (Board s) (OtherColour (PlayerToColour player)).

Definition IsTerminal (s : HiveState) : bool :=
  WinConditionMet s kPlayerWhite
  || WinConditionMet s kPlayerBlack
  || (MoveNumber s >=? MaxGameLength)
  || force_terminal_ s.

Definition CurrentPlayer (s : HiveState) : Z :=
  if IsTerminal s then kTerminalPlayerId else current_player_ s.

(** The two returns are the floats 1, -1 and 0; they are kept as integers. *)
Definition Returns (s : HiveState) : Z * Z :=
  let white_winner := WinConditionMet s kPlayerWhite in
  let black_winner := WinConditionMet s kPlayerBlack in
  if xorb white_winner black_winner
  then (if white_winner then 1 else -1, if black_winner then 1 else -1)
  else (0, 0).

(** Unsigned narrowing to [uint8_t]. *)
Definition uint8 (z : Z) : Z := z mod 256.

(** For the pass action the source leaves [direction] uninitialised; no
    caller reads it, the model puts [kNumAllDirections] there. *)
Definition ActionToMove (action : Z) : Move :=
  if action =? PassAction then MkMove kNoneTile kNoneTile kNumAllDirections
  else
    let direction := Z.rem action (Direction_value kNumAllDirections) in
    let to := Z.rem (Z.quot action (Direction_value kNumAllDirections)) kMaxTileCount in
    let from := Z.quot action (kMaxTileCount * Direction_value kNumAllDirections) in
    let to := if (from =? to) && (direction =? Direction_value kAbove)
              then tile_value kNoneTile else to in
    MkMove (tile_of_value (uint8 from)) (tile_of_value (uint8 to))
           (Direction_of_value (uint8 direction)).

Definition MoveToAction (move : Move) : Z :=
  if IsPass move then PassAction
  else
    let from := tile_value (from move) in
    if negb (HasValue (to move)) then
      from * (kMaxTileCount * Direction_value kNumAllDirections)
      + from * Direction_value kNumAllDirections
      + Direction_value kAbove
    else
      let to := tile_value (to move) in
      from * (kMaxTileCount * Direction_value kNumAllDirections)
      + to * Direction_value kNumAllDirections
      + Direction_value (direction move).

Definition ActionToString (action_id : Z) : option string :=
  Move_ToUHP (ActionToMove action_id).

(** [StringToAction]; [None] when the source aborts on the input. *)
Definition StringToAction (move_str : string) : option Z :=
  if String.eqb move_str "pass" then Some PassAction else
  let bugs := StrSplit move_str " "%char in
  if negb (0 <? Z.of_nat (List.length bugs)) then None else
  if negb (Z.of_nat (List.length bugs) <=? 2) then None else
  let? from := UHPToTile (nth 0 bugs EmptyString) in
  if negb (HasValue from) then None else
  if Z.of_nat (List.length bugs) =? 1
  then Some (MoveToAction (MkMove from kNoneTile kNumAllDirections))
  else
    let bug1 := nth 1 bugs EmptyString in
    let? c := string_front bug1 in
    let direction :=
      if Ascii.eqb c "\"%char then kNW
      else if Ascii.eqb c "-"%char then kW
      else if Ascii.eqb c "/"%char then kSW
      else kNumAllDirections in
    let? c := string_back bug1 in
    let direction :=
      if Direction_eqb direction kNumAllDirections then
        if Ascii.eqb c "\"%char then kSE
        else if Ascii.eqb c "-"%char then kE
        else if Ascii.eqb c "/"%char then kNE
        else direction
      else direction in
    let direction :=
      if Direction_eqb direction kNumAllDirections then kAbove else direction in
    let? start_index := find_first_not_of bug1 "\-/" in
    let? end_index := find_last_not_of bug1 "\-/" in
    let? to := UHPToTile (substring start_index (end_index - start_index + 1) bug1) in
    Some (MoveToAction (MkMove from to direction)).

(** [std::set<Action>]: insertion keeps the elements sorted and distinct. *)
Fixpoint set_insert_action (a : Z) (s : list Z) : list Z :=
  match s with
  | [] => [a]
  | x :: s' =>
      if a <? x then a :: s
      else if a =? x then s
      else x :: set_insert_action a s'
  end.

Definition LegalActions (s : HiveState) : option (list Z) :=
  let? moves := GenerateAllMoves (Board s) (PlayerToColour (current_player_ s))
                                 (move_number_ s) in
  let unique_actions :=
    fold_left (fun acc m => set_insert_action (MoveToAction m) acc) moves [] in
  Some (if Z.of_nat (List.length unique_actions) =? 0
        then [PassAction] else unique_actions).

Definition ProgressString (s : HiveState) : string :=
  if move_number_ s =? 0 then kUHPNotStarted
  else if move_number_ s >? MaxGameLength then kUHPDraw
  else
    let white_winner := WinConditionMet s kPlayerWhite in
    let black_winner := WinConditionMet s kPlayerBlack in
    if xorb white_winner black_winner
    then (if white_winner then kUHPWhiteWins else kUHPBlackWins)
    else if white_winner && black_winner then kUHPDraw
    else kUHPInProgress.

Definition TurnString (s : HiveState) : string :=
  let name := if current_player_ s =? kPlayerWhite
              then "White"%string else "Black"%string in
  let round := decimal (Z.quot (move_number_ s + 2) 2) in
  (name ++ "[" ++ round ++ "]")%string.

(** [ActionsToStrings] on the state and [History()] renders every action of the
    history with [ActionToString]. *)
Definition MovesString (s : HiveState) : option string :=
  let? strings :=
    fold_right (fun a acc => let? rest := acc in
                             let? str := ActionToString a in
                             Some (str :: rest))
               (Some []) (History s) in
  Some (StrJoin strings ";").

Definition Serialize (s : HiveState) : option string :=
  let? moves := MovesString s in
  Some (StrJoin [kDefaultUHPGameType; ProgressString s; TurnString s; moves] ";").

Definition with_board (s : HiveState) (b : HexBoard) : HiveState :=
  MkState (game_ s) (history_ s) (move_number_ s) (current_player_ s) b
          (expansions_ s) (num_bug_types_ s) (force_terminal_ s).

Definition with_force_terminal (s : HiveState) (v : bool) : HiveState :=
  MkState (game_ s) (history_ s) (move_number_ s) (current_player_ s) (board_ s)
          (expansions_ s) (num_bug_types_ s) v.

Definition with_current_player (s : HiveState) (v : Z) : HiveState :=
  MkState (game_ s) (history_ s) (move_number_ s) v (board_ s)
          (expansions_ s) (num_bug_types_ s) (force_terminal_ s).

Definition DoApplyAction (s : HiveState) (action : Z) : option HiveState :=
  let? s :=
    if action =? PassAction then Some (with_board s (Pass (Board s)))
    else
      let? (success, b) := MoveTile (Board s) (ActionToMove action) in
      let s := with_board s b in
      Some (if negb success then with_force_terminal s true else s) in
  Some (with_current_player s (Z.rem (current_player_ s + 1) kNumPlayers)).

(** Modelled from the spec: [State::ApplyAction] of the game framework,
    which is not among the sources. It runs [DoApplyAction], records the
    player and the action in the history and counts the move. *)
Definition ApplyAction (s : HiveState) (action : Z) : option HiveState :=
  let player := CurrentPlayer s in
  let? s' := DoApplyAction s action in
  Some (MkState (game_ s') (history_ s' ++ [(player, action)])
                (move_number_ s' + 1) (current_player_ s') (board_ s')
                (expansions_ s') (num_bug_types_ s') (force_terminal_ s')).

Definition DeserializeState (g : HiveGame) (str : string) : HiveState :=
  NewInitialState g.

(** ** Specification-side notions used by the properties *)

(** The radius is capped and the grid has the size the constructor gives
    it. *)
Definition grid_sized (b : HexBoard) : Prop :=
  hex_radius_ b <= kMaxBoardRadius
  /\ List.length (tile_grid_ b)
     = Z.to_nat (SquareDimensions b * SquareDimensions b).

(** *** Hex geometry in the words of the specification *)

(** The ground cell next to the cell of [p] in a cardinal direction, by its
    axial coordinates. *)
Definition hex_neighbour (p : HivePosition) (d : Direction) : HivePosition :=
  match d with
  | kNE => MkPos (q_ p + 1) (r_ p - 1) 0
  | kE => MkPos (q_ p + 1) (r_ p) 0
  | kSE => MkPos (q_ p) (r_ p + 1) 0
  | kSW => MkPos (q_ p - 1) (r_ p + 1) 0
  | kW => MkPos (q_ p - 1) (r_ p) 0
  | kNW => MkPos (q_ p) (r_ p - 1) 0
  | _ => MkPos (q_ p) (r_ p) 0
  end.

(** The six cells around the cell of [p]. *)
Definition six_cells (p : HivePosition) : list HivePosition :=
  [ hex_neighbour p kNE; hex_neighbour p kE; hex_neighbour p kSE;
    hex_neighbour p kSW; hex_neighbour p kW; hex_neighbour p kNW ].

(** The Queen of colour [c] has a recorded position other than the null
    position (it is in play) and each of the six cells around that position
    holds a tile. *)
Definition queen_enclosed (b : HexBoard) (c : Colour) : Prop :=
  let queen := match c with kWhite => wQ | kBlack => bQ end in
  tile_positions_at b queen <> kNullPosition
  /\ forall n, In n (six_cells (tile_positions_at b queen)) ->
               HasValue (GetTopTileAt b n) = true.

(** A board made by handing moves to [MoveTile] one after the other. *)
Definition board_after (b : HexBoard) (moves : list Move) : option HexBoard :=
  fold_left (fun acc m => let? b := acc in
                          let? (_, b') := MoveTile b m in
                          Some b')
            moves (Some b).

(** White's Queen at the origin with a black tile on each side. *)
Definition ring_moves : list Move :=
  [ MkMove wQ kNoneTile kAbove;
    MkMove bA1 wQ kNE; MkMove bA2 wQ kE; MkMove bA3 wQ kSE;
    MkMove bG1 wQ kSW; MkMove bG2 wQ kW; MkMove bG3 wQ kNW ].

Definition default_game : HiveGame := HiveGame_new (MkParams 8 true true true).

Definition empty_board : HexBoard := Board (NewInitialState default_game).

Definition ring_board : HexBoard :=
  match board_after empty_board ring_moves with
  | Some b => b
  | None => empty_board
  end.

Definition ring_state : HiveState :=
  with_board (NewInitialState default_game) ring_board.

(** *** Reachable states and scripted games *)

(** The states of a game: the initial one, and every state obtained from a
    non-terminal one by applying one of its legal actions. *)
Inductive reachable (g : HiveGame) : HiveState -> Prop :=
  | reachable_initial : reachable g (NewInitialState g)
  | reachable_apply (s s' : HiveState) (actions : list Z) (a : Z) :
      reachable g s ->
      IsTerminal s = false ->
      LegalActions s = Some actions ->
      In a actions ->
      ApplyAction s a = Some s' ->
      reachable g s'.

(** Plays the actions in turn, refusing any that is not legal. *)
Fixpoint play_legal (s : HiveState) (actions : list Z) : option HiveState :=
  match actions with
  | [] => Some s
  | a :: rest =>
      if IsTerminal s then None
      else
        let? legal := LegalActions s in
        if existsb (Z.eqb a) legal
        then let? s' := ApplyAction s a in play_legal s' rest
        else None
  end.

Definition uhp_actions (moves : list string) : option (list Z) :=
  fold_right (fun m acc => let? rest := acc in
                           let? a := StringToAction m in
                           Some (a :: rest))
             (Some []) moves.

Definition play_uhp (g : HiveGame) (moves : list string) : option HiveState :=
  let? actions := uhp_actions moves in
  play_legal (NewInitialState g) actions.

Definition state_or_initial (g : HiveGame) (o : option HiveState) : HiveState :=
  match o with Some s => s | None => NewInitialState g end.

(** One move played. *)
Definition opening_state : HiveState :=
  state_or_initial default_game (play_uhp default_game ["wG1"%string]).

(** Seventeen tiles placed in a straight line through the origin, which
    then spans the whole width of the board of radius 8. *)
Definition line_game : list string :=
  [ "wG1"; "bG1 wG1-"; "wA1 -wG1"; "bQ bG1-"; "wQ -wA1"; "bA1 bQ-";
    "wA2 -wQ"; "bA2 bA1-"; "wA3 -wA2"; "bA3 bA2-"; "wG2 -wA3"; "bG2 bA3-";
    "wG3 -wG2"; "bG3 bG2-"; "wS1 -wG3"; "bS1 bG3-"; "wS2 -wS1" ]%string.

Definition line_state : HiveState :=
  state_or_initial default_game (play_uhp default_game line_game).

(** The next placement at the eastern end leaves the board. *)
Definition line_overflow_action : Z :=
  match StringToAction "bS2 bS1-" with Some a => a | None => PassAction end.

(** *** The session string *)




(** The action ids [0 .. n-1]. *)
Definition actions_upto (n : nat) : list Z := map Z.of_nat (seq 0 n).

Definition roundtrip_ok (a : Z) : bool :=
  match ActionToString a with
  | Some str =>
      match StringToAction str with
      | Some a' => a' =? a
      | None => false
      end
  | None => false
  end.

(** *** Slide paths *)

(** A slide step as both loops of the search accept it: a cardinal
    direction in which the step is not refused. *)
Definition ground_slide (b : HexBoard) (start_pos pos : HivePosition)
           (dir : Direction) : Prop :=
  In dir cardinal_directions /\ slide_blocked b start_pos pos dir = false.

(** [n] successive slide steps lead from [pos] to [target] without
    entering a cell of [avoid], the cell [pos] or a cell entered before. *)
Fixpoint slide_path (b : HexBoard) (start_pos : HivePosition) (avoid : PosSet)
         (pos : HivePosition) (n : nat) (target : HivePosition) : Prop :=
  match n with
  | O => False
  | S n' =>
      exists dir,
        ground_slide b start_pos pos dir
        /\ let next := pos_add pos (kNeighbourOffsets dir) in
           match n' with
           | O => target = next /\ ~ In next avoid
           | S _ => ~ In next (avoid ++ [pos])
                    /\ slide_path b start_pos (avoid ++ [pos]) next n' target
           end
  end.

(** [target] is reached from [start_pos] by exactly three slide steps
    through [p1] and [p2], the four cells being distinct. *)
Definition three_slides (b : HexBoard) (start_pos target : HivePosition) : Prop :=
  exists d1 d2 d3 p1 p2,
    ground_slide b start_pos start_pos d1
    /\ p1 = pos_add start_pos (kNeighbourOffsets d1)
    /\ ground_slide b start_pos p1 d2
    /\ p2 = pos_add p1 (kNeighbourOffsets d2)
    /\ ground_slide b start_pos p2 d3
    /\ target = pos_add p2 (kNeighbourOffsets d3)
    /\ NoDup [start_pos; p1; p2; target].

(** A cell that holds a tile, the moving tile's own start cell apart. *)
Definition occupied_besides (b : HexBoard) (start_pos p : HivePosition) : Prop :=
  p <> start_pos /\ HasValue (GetTopTileAt b p) = true.

(** The two cells on either side of the edge crossed when leaving the cell
    of [p] in direction [d]. *)
Definition flank_cells (p : HivePosition) (d : Direction)
  : HivePosition * HivePosition :=
  match d with
  | kNE => (hex_neighbour p kNW, hex_neighbour p kE)
  | kE => (hex_neighbour p kNE, hex_neighbour p kSE)
  | kSE => (hex_neighbour p kE, hex_neighbour p kSW)
  | kSW => (hex_neighbour p kSE, hex_neighbour p kW)
  | kW => (hex_neighbour p kSW, hex_neighbour p kNW)
  | kNW => (hex_neighbour p kW, hex_neighbour p kNE)
  | _ => (p, p)
  end.

(** The ground-slide primitive in the words of the specification, on cells
    named by their coordinates: the target is empty, the two cells flanking
    the edge are not both occupied (no gate) and not both empty (the slider
    keeps touching the hive), and the target has an occupied neighbour once
    the slider has left its start cell. *)
Definition ground_slide_spec (b : HexBoard) (start_pos pos : HivePosition)
           (dir : Direction) : Prop :=
  In dir [kNE; kE; kSE; kSW; kW; kNW]
  /\ let target := hex_neighbour pos dir in
     let side1 := fst (flank_cells pos dir) in
     let side2 := snd (flank_cells pos dir) in
     ~ occupied_besides b start_pos target
     /\ ~ (occupied_besides b start_pos side1 /\ occupied_besides b start_pos side2)
     /\ (occupied_besides b start_pos side1 \/ occupied_besides b start_pos side2)
     /\ exists n, In n (six_cells target) /\ occupied_besides b start_pos n.

(** Every tile on the grid has a recorded position at height 0 or above. *)
Definition heights_recorded (b : HexBoard) : Prop :=
  Forall (fun t => HasValue t = true -> 0 <= h_ (tile_positions_at b t))
         (tile_grid_ b).

Definition heights_recordedb (b : HexBoard) : bool :=
  forallb (fun t => if HasValue t then 0 <=? h_ (tile_positions_at b t) else true)
          (tile_grid_ b).

(** [target] is reached from [start_pos] by exactly three steps of the
    ground-slide primitive through [p1] and [p2], the four cells being
    distinct. *)
Definition three_slides_spec (b : HexBoard) (start_pos target : HivePosition)
  : Prop :=
  exists d1 d2 d3 p1 p2,
    ground_slide_spec b start_pos start_pos d1
    /\ p1 = hex_neighbour start_pos d1
    /\ ground_slide_spec b start_pos p1 d2
    /\ p2 = hex_neighbour p1 d2
    /\ ground_slide_spec b start_pos p2 d3
    /\ target = hex_neighbour p2 d3
    /\ NoDup [start_pos; p1; p2; target].

(** The position reached in the repository's test data for Spider moves
    ([game_string4] of hive_test.cc). *)
Definition spider_game : list string :=
  [ "wG1"; "bA1 wG1-"; "wS1 \wG1"; "bQ bA1-"; "wQ /wG1"; "bG1 bQ\";
    "wG2 wQ\"; "bB1 /bG1"; "wB1 /wG2"; "bG2 bG1\"; "wG3 /wB1"; "bG2 -bB1";
    "wB2 wG3\"; "bA1 bG1\"; "wA1 wB2-"; "bA1 bB1\"; "wA2 wA1/"; "bA1 bG1-";
    "wS2 wA2-"; "bA1 bG1\"; "wA3 wS2\"; "bA1 wA3-" ]%string.

Definition spider_state : HiveState :=
  state_or_initial default_game (play_uhp default_game spider_game).

(** Three placements each, neither Queen among them. *)
Definition fourth_turn_game : list string :=
  [ "wG1"; "bG1 wG1-"; "wA1 -wG1"; "bA1 bG1-"; "wA2 -wA1"; "bA2 bA1-" ]%string.

Definition fourth_turn_state : HiveState :=
  state_or_initial default_game (play_uhp default_game fourth_turn_game).

(** *** The board radius and the player's Queen *)

(** Hex distance of a cell from the origin, by the formula of the
    specification. *)
Definition hex_distance (p : HivePosition) : Z :=
  (Z.abs (q_ p) + Z.abs (q_ p + r_ p) + Z.abs (r_ p)) / 2.

(** The Queen of the player with the given id (0 is White, 1 is Black). *)
Definition queen_of_player (player : Z) : NewHiveTile :=
  if player =? 0 then wQ else bQ.

(** *** The One-Hive property *)

(** A played tile with no tile on top of it. *)
Definition uncovered_tile (b : HexBoard) (t : NewHiveTile) : Prop :=
  In t (played_tiles_ b) /\ ~ In t (covered_tiles_ b).

(** Two uncovered tiles, the cell of the second among the six cells around
    the cell of the first. *)
Definition tiles_adjacent (b : HexBoard) (t u : NewHiveTile) : Prop :=
  uncovered_tile b t /\ uncovered_tile b u
  /\ In (Grounded (tile_positions_at b u)) (six_cells (tile_positions_at b t)).

Inductive hive_connected (b : HexBoard) : NewHiveTile -> NewHiveTile -> Prop :=
  | hive_connected_refl (t : NewHiveTile) : hive_connected b t t
  | hive_connected_step (t u v : NewHiveTile) :
      tiles_adjacent b t u -> hive_connected b u v -> hive_connected b t v.

(** The played, uncovered tiles form a single connected component. *)
Definition OneHive (b : HexBoard) : Prop :=
  forall t u, uncovered_tile b t -> uncovered_tile b u -> hive_connected b t u.

Definition uncovered_tileb (b : HexBoard) (t : NewHiveTile) : bool :=
  existsb (tile_eqb t) (played_tiles_ b)
  && negb (existsb (tile_eqb t) (covered_tiles_ b)).

Definition tiles_adjacentb (b : HexBoard) (t u : NewHiveTile) : bool :=
  uncovered_tileb b t && uncovered_tileb b u
  && set_contains (six_cells (tile_positions_at b t))
                  (Grounded (tile_positions_at b u)).

Definition every_tile : list NewHiveTile := all_tiles ++ [kNoneTile].

(** A chain of at most [n] adjacent tiles leads from [t] to [u]. *)
Fixpoint connected_within (n : nat) (b : HexBoard) (t u : NewHiveTile) : bool :=
  if tile_eqb t u then true
  else match n with
       | O => false
       | S n' =>
           existsb (fun v => if tiles_adjacentb b t v
                             then connected_within n' b v u else false)
                   every_tile
       end.

Definition OneHiveb (b : HexBoard) : bool :=
  forallb (fun t =>
             forallb (fun u =>
                        if uncovered_tileb b t && uncovered_tileb b u
                        then connected_within (List.length (played_tiles_ b)) b t u
                        else true)
                     every_tile)
          every_tile.

(** A set of tiles, given by [side], that no adjacency leaves. *)
Definition closed_side (b : HexBoard) (side : NewHiveTile -> bool) : bool :=
  forallb (fun t =>
             forallb (fun u => implb (side t && tiles_adjacentb b t u) (side u))
                     every_tile)
          every_tile.

(** Five tiles in a row, Black's Queen among them, White's not yet. *)
Definition split_game : list string :=
  [ "wG1"; "bG1 wG1-"; "wA1 -wG1"; "bQ bG1-"; "wA2 -wA1" ]%string.

Definition split_state : HiveState :=
  state_or_initial default_game (play_uhp default_game split_game).

(** Black's Grasshopper, in the middle of the row, jumps over the Queen. *)
Definition split_action : Z :=
  match StringToAction "bG1 bQ-" with Some a => a | None => PassAction end.

Definition split_result : HiveState :=
  state_or_initial default_game (ApplyAction split_state split_action).

(** The tiles at or west of the origin. *)
Definition west_side (b : HexBoard) (t : NewHiveTile) : bool :=
  uncovered_tileb b t && (q_ (tile_positions_at b t) <=? 0).

(** ** Further functions of the sources *)

(** *** Utilities of the game (hive.h) *)

Definition MinUtility : Z := -1.

Definition MaxUtility : Z := 1.

Definition UtilitySum : Z := 0.

(** *** Observation planes (hive.h, hive.cc) *)












(** *** Placeable cells (hive_hexboard.h) *)

(** The test behind the placement planes of the observation. *)
Definition IsPlaceable (b : HexBoard) (c : Colour) (pos : HivePosition) : bool :=
  set_contains (colour_influence_ b c) pos
  && negb (set_contains (colour_influence_ b (OtherColour c)) pos)
  && negb (IsInPlay b (GetTopTileAt b pos)).

(** ** Further specification-side notions *)

(** A state at a given move number, on the empty board. *)
Definition state_at_move (n : Z) : HiveState :=
  MkState default_game [] n kPlayerWhite empty_board
          (game_expansions_ default_game) (game_num_bug_types_ default_game) false.

(** The ring position at move 14. *)
Definition decided_state : HiveState :=
  MkState default_game [] 14 kPlayerWhite ring_board
          (game_expansions_ default_game) (game_num_bug_types_ default_game) false.

(** Every value of the [Direction] enumeration. *)
Definition all_directions : list Direction :=
  cardinal_directions ++ [kAbove; kNumAllDirections].

(** Equality of moves, field by field. *)
Definition move_eqb (m1 m2 : Move) : bool :=
  tile_eqb (from m1) (from m2) && tile_eqb (to m1) (to m2)
  && Direction_eqb (direction m1) (direction m2).

(** What decoding the action id of a move gives. *)
Definition decoded_form (m : Move) : Move :=
  if HasValue (to m)
     && negb (tile_eqb (from m) (to m) && Direction_eqb (direction m) kAbove)
  then m
  else MkMove (from m) kNoneTile kAbove.

(** The check that decoding the action id of [m] gives [decoded_form m],
    for a move of a tile in a direction other than [kNumAllDirections]. *)
Definition decode_encode_ok (m : Move) : bool :=
  if HasValue (from m) && negb (Direction_eqb (direction m) kNumAllDirections)
  then move_eqb (ActionToMove (MoveToAction m)) (decoded_form m)
  else true.

(** Five tiles in a row and a Beetle that has climbed onto its Queen. *)
Definition climb_game : list string :=
  [ "wG1"; "bB1 wG1-"; "wQ -wG1"; "bQ bB1-"; "wB1 -wQ"; "bA1 bQ-"; "wB1 wQ" ]%string.

(** The state after the moves of [climb_game]. *)
Definition climb_state : HiveState :=
  state_or_initial default_game (play_uhp default_game climb_game).


(** The cell [k] steps from the cell of [p] in direction [d]. *)
Fixpoint line_cell (p : HivePosition) (d : Direction) (k : nat) : HivePosition :=
  match k with
  | O => Grounded p
  | S k' => hex_neighbour (line_cell p d k') d
  end.

(** A jump over [k] tiles in a straight line, onto the first empty cell. *)
Definition jump_over (b : HexBoard) (start_pos : HivePosition) (d : Direction)
           (k : nat) : Prop :=
  (1 <= k)%nat
  /\ (forall i, (1 <= i <= k)%nat ->
                HasValue (GetTopTileAt b (line_cell start_pos d i)) = true)
  /\ HasValue (GetTopTileAt b (line_cell start_pos d (S k))) = false.

(** Index consistency: the tile on top of a cell has that cell as its
    recorded position, at a height of 0 or more. *)
Definition cells_indexed (b : HexBoard) : Prop :=
  forall p, wf_pos p -> HasValue (GetTopTileAt b p) = true ->
    q_ (tile_positions_at b (GetTopTileAt b p)) = q_ p
    /\ r_ (tile_positions_at b (GetTopTileAt b p)) = r_ p
    /\ 0 <= h_ (tile_positions_at b (GetTopTileAt b p)) <= 127.

(** The influence sets hold ground cells only. *)
Definition influence_grounded (b : HexBoard) : Prop :=
  forall c p, In p (colour_influence_ b c) -> wf_pos p /\ h_ p = 0.

(** The integers from [lo] on, [n] of them. *)
Definition Z_range (lo : Z) (n : nat) : list Z :=
  map (fun i => lo + Z.of_nat i) (seq 0 n).

(** [cells_indexed], checked on every cell of the largest board. *)
Definition cells_indexedb (b : HexBoard) : bool :=
  forallb
    (fun q =>
       forallb
         (fun r =>
            let t := GetTopTileAt b (MkPos q r 0) in
            if HasValue t
            then (q_ (tile_positions_at b t) =? q)
                 && (r_ (tile_positions_at b t) =? r)
                 && (0 <=? h_ (tile_positions_at b t))
                 && (h_ (tile_positions_at b t) <=? 127)
            else true)
         (Z_range (-14) 29))
    (Z_range (-14) 29).

(** [influence_grounded], checked on both influence sets. *)
Definition influence_groundedb (b : HexBoard) : bool :=
  forallb (fun p => (-128 <=? q_ p) && (q_ p <=? 127) && (-128 <=? r_ p)
                    && (r_ p <=? 127) && (h_ p =? 0))
          (colour_influence_white b ++ colour_influence_black b).

(** * Properties *)

(** ** Equality tests *)

Lemma pos_eqb_eq (a b : HivePosition) : pos_eqb a b = true <-> a = b.
Proof.
  destruct a as [qa ra ha], b as [qb rb hb]; unfold pos_eqb; simpl.
  rewrite !andb_true_iff, !Z.eqb_eq. split.
  - intros [[-> ->] ->]. reflexivity.
  - intros E. injection E as -> -> ->. auto.
Qed.

Lemma pos_eqb_refl (a : HivePosition) : pos_eqb a a = true.
Proof. apply pos_eqb_eq. reflexivity. Qed.

Lemma pos_eqb_neq (a b : HivePosition) : pos_eqb a b = false <-> a <> b.
Proof.
  split.
  - intros E Heq. apply pos_eqb_eq in Heq. congruence.
  - intros N. destruct (pos_eqb a b) eqn:E; [|reflexivity].
    apply pos_eqb_eq in E. contradiction.
Qed.

Lemma tile_value_inj (a b : NewHiveTile) : tile_value a = tile_value b -> a = b.
Proof. destruct a, b; simpl; intros E; (reflexivity || discriminate E). Qed.

Lemma tile_eqb_eq (a b : NewHiveTile) : tile_eqb a b = true <-> a = b.
Proof.
  unfold tile_eqb. rewrite Z.eqb_eq. split.
  - apply tile_value_inj.
  - intros ->. reflexivity.
Qed.

Lemma HasValue_not_none (t : NewHiveTile) :
  HasValue t = negb (tile_eqb t kNoneTile).
Proof. destruct t; reflexivity. Qed.

Lemma set_contains_In (s : PosSet) (p : HivePosition) :
  set_contains s p = true <-> In p s.
Proof.
  unfold set_contains. rewrite existsb_exists. split.
  - intros [x [Hx E]]. apply pos_eqb_eq in E. subst x. exact Hx.
  - intros Hp. exists p. split; [exact Hp | apply pos_eqb_refl].
Qed.

Lemma set_insert_In (s : PosSet) (p x : HivePosition) :
  In x (set_insert s p) <-> In x s \/ x = p.
Proof.
  unfold set_insert. destruct (set_contains s p) eqn:E.
  - apply set_contains_In in E. split; [auto | intros [H | ->]; assumption].
  - rewrite in_app_iff. simpl. intuition congruence.
Qed.

Lemma set_erase_In (s : PosSet) (p x : HivePosition) :
  In x (set_erase s p) <-> In x s /\ x <> p.
Proof.
  unfold set_erase. rewrite filter_In, negb_true_iff, pos_eqb_neq. tauto.
Qed.

(** ** Geometry *)

Lemma int8_id (z : Z) : int8_range z -> int8 z = z.
Proof.
  unfold int8_range, int8. intros Hz.
  rewrite Z.mod_small by lia. lia.
Qed.

Lemma int8_in_range (z : Z) : int8_range (int8 z).
Proof.
  unfold int8_range, int8.
  pose proof (Z.mod_pos_bound (z + 128) 256 eq_refl). lia.
Qed.

(** Inside the radius both axial coordinates are within [-R, R]. *)
Lemma DistanceTo_origin_bound (p : HivePosition) (radius : Z) :
  wf_pos p ->
  DistanceTo p kOriginPosition <= radius ->
  - radius <= q_ p <= radius /\ - radius <= r_ p <= radius.
Proof.
  intros (Hq & Hr & Hh). unfold DistanceTo, pos_sub; simpl.
  rewrite !Z.sub_0_r, (int8_id _ Hq), (int8_id _ Hr).
  intros Hd.
  assert (Hs : Z.abs (q_ p) + Z.abs (q_ p + r_ p) + Z.abs (r_ p) <= 2 * radius + 1).
  { revert Hd. generalize (Z.abs (q_ p) + Z.abs (q_ p + r_ p) + Z.abs (r_ p)).
    intros z Hd. Z.to_euclidean_division_equations. lia. }
  lia.
Qed.

(** ** Board store *)

Lemma HexBoard_new_grid_sized (radius : Z) (m l p : bool) :
  grid_sized (HexBoard_new radius m l p).
Proof.
  unfold grid_sized, HexBoard_new, SquareDimensions, Radius; simpl. split.
  - apply Z.le_min_r.
  - apply repeat_length.
Qed.

Lemma vector_set_length {A : Type} (l l' : list A) (i : Z) (x : A) :
  vector_set l i x = Some l' -> List.length l' = List.length l.
Proof.
  unfold vector_set.
  destruct ((0 <=? i) && (i <? Z.of_nat (List.length l))) eqn:E; [|discriminate].
  apply andb_true_iff in E. destruct E as [E1 E2].
  apply Z.leb_le in E1. apply Z.ltb_lt in E2.
  intros H.
  replace l' with (firstn (Z.to_nat i) l ++ x :: skipn (S (Z.to_nat i)) l)
    by congruence.
  rewrite length_app. cbn [List.length]. rewrite length_firstn, length_skipn. lia.
Qed.

(** A cell with a coordinate that does not fit the board holds no tile. *)
Lemma GetTopTileAt_far (b : HexBoard) (p : HivePosition) :
  grid_sized b ->
  30 <= Z.abs (int8 (q_ p)) \/ 30 <= Z.abs (int8 (r_ p)) ->
  GetTopTileAt b p = kNoneTile.
Proof.
  intros [Hcap _] Hfar. unfold GetTopTileAt, GetTopTileAt_index.
  assert (Hd : DistanceTo p kOriginPosition > Radius b).
  { unfold DistanceTo, pos_sub, Radius, kMaxBoardRadius in *. simpl.
    rewrite !Z.sub_0_r.
    set (a := int8 (q_ p)) in *. set (c := int8 (r_ p)) in *.
    assert (30 <= Z.abs a + Z.abs (a + c) + Z.abs c) by lia.
    revert H. generalize (Z.abs a + Z.abs (a + c) + Z.abs c). intros z Hz.
    Z.to_euclidean_division_equations. lia. }
  apply Z.gtb_gt in Hd. rewrite Hd. reflexivity.
Qed.

Lemma Neighbours_six_cells (p : HivePosition) :
  -127 <= q_ p <= 126 -> -127 <= r_ p <= 126 ->
  Neighbours p = six_cells p.
Proof.
  intros Hq Hr. unfold Neighbours, six_cells, hex_neighbour.
  rewrite !int8_id by (unfold int8_range; lia). reflexivity.
Qed.

(** At the rim of the coordinate range one of the six cells, by either
    reckoning, is off the board and so holds no tile. *)
Lemma rim_cell_empty (b : HexBoard) (p : HivePosition) :
  grid_sized b -> wf_pos p ->
  ~ (-127 <= q_ p <= 126 /\ -127 <= r_ p <= 126) ->
  (exists n, In n (Neighbours p) /\ GetTopTileAt b n = kNoneTile)
  /\ (exists n, In n (six_cells p) /\ GetTopTileAt b n = kNoneTile).
Proof.
  intros Hs (Hq & Hr & _) Hout. unfold int8_range in *.
  assert (Hcase : q_ p = 127 \/ q_ p = -128 \/ r_ p = 127 \/ r_ p = -128) by lia.
  unfold Neighbours, six_cells, hex_neighbour.
  destruct Hcase as [E | [E | [E | E]]]; rewrite E; split.
  - eexists. split; [right; left; reflexivity|]. apply GetTopTileAt_far; [exact Hs|].
    left. vm_compute. discriminate.
  - eexists. split; [right; left; reflexivity|]. apply GetTopTileAt_far; [exact Hs|].
    left. vm_compute. discriminate.
  - eexists. split; [do 4 right; left; reflexivity|].
    apply GetTopTileAt_far; [exact Hs|]. left. vm_compute. discriminate.
  - eexists. split; [do 4 right; left; reflexivity|].
    apply GetTopTileAt_far; [exact Hs|]. left. vm_compute. discriminate.
  - eexists. split; [do 2 right; left; reflexivity|].
    apply GetTopTileAt_far; [exact Hs|]. right. vm_compute. discriminate.
  - eexists. split; [do 2 right; left; reflexivity|].
    apply GetTopTileAt_far; [exact Hs|]. right. vm_compute. discriminate.
  - eexists. split; [do 5 right; left; reflexivity|].
    apply GetTopTileAt_far; [exact Hs|]. right. vm_compute. discriminate.
  - eexists. split; [do 5 right; left; reflexivity|].
    apply GetTopTileAt_far; [exact Hs|]. right. vm_compute. discriminate.
Qed.

Lemma IsQueenSurrounded_spec (b : HexBoard) (c : Colour) :
  grid_sized b ->
  wf_pos (tile_positions_at b (match c with kWhite => wQ | kBlack => bQ end)) ->
  IsQueenSurrounded b c = true <-> queen_enclosed b c.
Proof.
  intros Hs Hwf. unfold IsQueenSurrounded, queen_enclosed, IsInPlay.
  set (queen := match c with kWhite => wQ | kBlack => bQ end) in *.
  assert (Hq : HasValue queen = true) by (destruct c; reflexivity).
  rewrite Hq. cbn [andb]. set (p := tile_positions_at b queen) in *.
  destruct (pos_eqb p kNullPosition) eqn:Enull; cbn [negb].
  - apply pos_eqb_eq in Enull. split; [discriminate | intros [N _]; contradiction].
  - apply pos_eqb_neq in Enull. rewrite forallb_forall.
    destruct (Z_le_dec (-127) (q_ p)) as [Q1|Q1];
      [destruct (Z_le_dec (q_ p) 126) as [Q2|Q2];
       [destruct (Z_le_dec (-127) (r_ p)) as [R1|R1];
        [destruct (Z_le_dec (r_ p) 126) as [R2|R2]|]|]|].
    1: { rewrite Neighbours_six_cells by lia. split.
         - intros Hall. split; [exact Enull|]. intros n Hn.
           rewrite HasValue_not_none. apply Hall. exact Hn.
         - intros [_ Hall] n Hn. rewrite <- HasValue_not_none. apply Hall. exact Hn. }
    all: destruct (rim_cell_empty b p Hs Hwf ltac:(lia))
        as [(n1 & Hn1 & E1) (n2 & Hn2 & E2)];
      split;
      [ intros Hall; specialize (Hall n1 Hn1); rewrite E1 in Hall; discriminate Hall
      | intros [_ Hall]; specialize (Hall n2 Hn2); rewrite E2 in Hall;
        discriminate Hall ].
Qed.

Lemma UpdateInfluence_frame (b b' : HexBoard) (c : Colour) :
  UpdateInfluence b c = Some b' ->
  hex_radius_ b' = hex_radius_ b /\ tile_grid_ b' = tile_grid_ b.
Proof.
  unfold UpdateInfluence.
  match goal with
  | |- context [fold_left ?f ?l ?a] => destruct (fold_left f l a)
  end; [|discriminate].
  intros [= <-]. split; reflexivity.
Qed.

Lemma UpdateArticulationPoints_frame (b b' : HexBoard) :
  UpdateArticulationPoints b = Some b' ->
  hex_radius_ b' = hex_radius_ b /\ tile_grid_ b' = tile_grid_ b.
Proof.
  unfold UpdateArticulationPoints.
  destruct (ap_dfs _ b _ _ _ _); [|discriminate].
  intros [= <-]. split; reflexivity.
Qed.

(** Case analysis on a scrutinee that contains no other case analysis. *)
Ltac split_inner_match :=
  match goal with
  | |- context [match ?x with _ => _ end] =>
      lazymatch x with
      | context [match _ with _ => _ end] => fail
      | _ => destruct x eqn:?
      end
  end.

Ltac board_fields :=
  cbn [hex_radius_ num_tiles_ tile_grid_ played_tiles_ tile_positions_
       covered_tiles_ articulation_points_ largest_radius last_moved_
       last_moved_from_ colour_influence_white colour_influence_black
       with_largest_radius with_tile_grid with_played_tiles
       with_tile_positions with_covered_tiles with_articulation_points
       with_last_moved with_last_moved_from with_colour_influence] in *.

(** Writes into the grid keep its size, so every board produced by
    [MoveTile] has a grid of the constructor's size. *)
Lemma MoveTile_grid_sized (b b' : HexBoard) (m : Move) (ok : bool) :
  MoveTile b m = Some (ok, b') -> grid_sized b -> grid_sized b'.
Proof.
  unfold grid_sized, SquareDimensions, Radius.
  intros HM [Hr Hlen].
  assert (Goal : hex_radius_ b' = hex_radius_ b
                 /\ List.length (tile_grid_ b') = List.length (tile_grid_ b)).
  2: { destruct Goal as [-> ->]. split; assumption. }
  clear Hr Hlen. revert HM. unfold MoveTile, tile_positions_at, AxialToIndex,
    SquareDimensions, Radius.
  repeat (board_fields; split_inner_match);
    board_fields; try discriminate;
    intros [= <- <-];
    repeat match goal with
           | H : UpdateInfluence _ _ = Some _ |- _ =>
               apply UpdateInfluence_frame in H; destruct H as [? ?]
           | H : UpdateArticulationPoints _ = Some _ |- _ =>
               apply UpdateArticulationPoints_frame in H; destruct H as [? ?]
           | H : vector_set _ _ _ = Some _ |- _ =>
               apply vector_set_length in H
           end;
    board_fields; split; congruence.
Qed.

Lemma Pass_grid_sized (b : HexBoard) : grid_sized b -> grid_sized (Pass b).
Proof. unfold grid_sized. intros H. exact H. Qed.

Section BoundsChecked.

Variable b : HexBoard.
Hypothesis Hsized : grid_sized b.

Lemma AxialToIndex_in_grid (pos : HivePosition) :
  wf_pos pos ->
  DistanceTo pos kOriginPosition <= Radius b ->
  0 <= AxialToIndex b pos < Z.of_nat (List.length (tile_grid_ b)).
Proof.
  intros Hwf Hd. destruct Hsized as [Hcap Hlen].
  destruct (DistanceTo_origin_bound pos (Radius b) Hwf Hd) as [Hq Hr].
  unfold AxialToIndex, SquareDimensions in *. unfold Radius in *.
  unfold kMaxBoardRadius in Hcap.
  set (rad := hex_radius_ b) in *.
  assert (Hrad : 0 <= rad <= 14) by lia.
  assert (Hidx : 0 <= q_ pos + rad + (r_ pos + rad) * (rad * 2 + 1)
                 < (rad * 2 + 1) * (rad * 2 + 1)) by nia.
  rewrite Hlen, Z2Nat.id by nia.
  rewrite Z.mod_small; [exact Hidx|].
  split; [lia|]. apply Z.lt_trans with (1 := proj2 Hidx).
  assert ((rad * 2 + 1) * (rad * 2 + 1) <= 29 * 29) by nia.
  apply Z.le_lt_trans with (1 := H). reflexivity.
Qed.

(** C9 — [GetTopTileAt] is total and never reads outside the grid: for a
    position farther from the origin than the radius it returns the
    none-tile without computing any grid index; for a position within the
    radius the flat index it reads lies inside the grid array. *)
Theorem GetTopTileAt_total (pos : HivePosition) :
  wf_pos pos ->
  (DistanceTo pos kOriginPosition > Radius b ->
     GetTopTileAt_index b pos = None /\ GetTopTileAt b pos = kNoneTile)
  /\ (DistanceTo pos kOriginPosition <= Radius b ->
      exists i, GetTopTileAt_index b pos = Some i
                /\ 0 <= i < Z.of_nat (List.length (tile_grid_ b))
                /\ nth_error (tile_grid_ b) (Z.to_nat i)
                   = Some (GetTopTileAt b pos)).
Proof.
  intros Hwf. unfold GetTopTileAt, GetTopTileAt_index. split.
  - intros Hd. apply Z.gtb_gt in Hd. rewrite Hd. split; reflexivity.
  - intros Hd.
    destruct (DistanceTo pos kOriginPosition >? Radius b) eqn:E.
    + apply Z.gtb_gt in E. lia.
    + pose proof (AxialToIndex_in_grid pos Hwf Hd) as Hi.
      exists (AxialToIndex b pos). split; [reflexivity|]. split; [exact Hi|].
      apply nth_error_nth'. lia.
Qed.

End BoundsChecked.

Lemma GetTopTileAt_total_witness :
  (DistanceTo (MkPos 9 (-2) 0) kOriginPosition > Radius ring_board ->
     GetTopTileAt_index ring_board (MkPos 9 (-2) 0) = None
     /\ GetTopTileAt ring_board (MkPos 9 (-2) 0) = kNoneTile)
  /\ (DistanceTo (MkPos 9 (-2) 0) kOriginPosition <= Radius ring_board ->
      exists i, GetTopTileAt_index ring_board (MkPos 9 (-2) 0) = Some i
                /\ 0 <= i < Z.of_nat (List.length (tile_grid_ ring_board))
                /\ nth_error (tile_grid_ ring_board) (Z.to_nat i)
                   = Some (GetTopTileAt ring_board (MkPos 9 (-2) 0))).
Proof.
  apply (GetTopTileAt_total ring_board).
  - split; vm_compute; [discriminate | reflexivity].
  - unfold wf_pos, int8_range; simpl; lia.
Defined.

(** C4 — the position overload [IsCovered(HivePosition)] answers [true] for
    every board and every position, whatever the address of the array: in
    particular for the origin of the empty board, a cell with no tile at
    all. *)
Theorem IsCovered_pos_always_true (covered_address : positive) :
  (forall b pos, IsCovered_pos covered_address b pos = true)
  /\ GetTopTileAt empty_board kOriginPosition = kNoneTile
  /\ IsCovered_pos covered_address empty_board kOriginPosition = true.
Proof.
  assert (H : forall b pos, IsCovered_pos covered_address b pos = true).
  { intros b pos. unfold IsCovered_pos, pointer_to_bool, iterator_address.
    apply negb_true_iff, Z.eqb_neq. lia. }
  split; [exact H|]. split; [reflexivity | apply H].
Qed.

(** C6 — when a Queen is in play and each of the six cells around it, named
    by their axial coordinates, holds a tile, the state is terminal; with
    exactly one Queen enclosed the owner of the other Queen gets +1 and the
    enclosed side -1, and with both enclosed the returns are (0, 0). *)
Theorem surrounded_queen_terminal (s : HiveState) :
  grid_sized (Board s) ->
  wf_pos (tile_positions_at (Board s) wQ) ->
  wf_pos (tile_positions_at (Board s) bQ) ->
  queen_enclosed (Board s) kWhite \/ queen_enclosed (Board s) kBlack ->
  IsTerminal s = true
  /\ (queen_enclosed (Board s) kBlack -> ~ queen_enclosed (Board s) kWhite ->
      Returns s = (1, -1))
  /\ (queen_enclosed (Board s) kWhite -> ~ queen_enclosed (Board s) kBlack ->
      Returns s = (-1, 1))
  /\ (queen_enclosed (Board s) kWhite -> queen_enclosed (Board s) kBlack ->
      Returns s = (0, 0)).
Proof.
  intros Hs Hw Hb.
  rewrite <- (IsQueenSurrounded_spec (Board s) kWhite Hs Hw).
  rewrite <- (IsQueenSurrounded_spec (Board s) kBlack Hs Hb).
  unfold IsTerminal, Returns, WinConditionMet.
  change (OtherColour (PlayerToColour kPlayerWhite)) with kBlack.
  change (OtherColour (PlayerToColour kPlayerBlack)) with kWhite.
  destruct (IsQueenSurrounded (Board s) kWhite),
           (IsQueenSurrounded (Board s) kBlack); simpl;
    intros [H | H]; try discriminate H;
    repeat split; intros; try reflexivity; try discriminate; try congruence.
Qed.

Lemma surrounded_queen_terminal_witness :
  IsTerminal ring_state = true /\ Returns ring_state = (-1, 1).
Proof.
  assert (Hs : grid_sized (Board ring_state))
    by (split; vm_compute; [discriminate | reflexivity]).
  assert (Hwq : wf_pos (tile_positions_at (Board ring_state) wQ))
    by (repeat split; vm_compute; discriminate).
  assert (Hbq : wf_pos (tile_positions_at (Board ring_state) bQ))
    by (repeat split; vm_compute; discriminate).
  assert (Hw : queen_enclosed (Board ring_state) kWhite).
  { refine (proj1 (IsQueenSurrounded_spec (Board ring_state) kWhite Hs Hwq) _).
    vm_compute. reflexivity. }
  assert (Hb : ~ queen_enclosed (Board ring_state) kBlack).
  { intros [N _]. apply N. vm_compute. reflexivity. }
  destruct (surrounded_queen_terminal ring_state Hs Hwq Hbq (or_introl Hw))
    as (Ht & _ & Hr & _).
  split; [exact Ht | exact (Hr Hw Hb)].
Defined.

(** ** Out-of-board moves *)

Lemma IsQueenSurrounded_largest_radius (b : HexBoard) (v : Z) (c : Colour) :
  IsQueenSurrounded (with_largest_radius b v) c = IsQueenSurrounded b c.
Proof. reflexivity. Qed.

(** When the distance that [MoveTile] computes for the destination exceeds
    the radius, the call fails and changes [largest_radius] only;
    [DoApplyAction] then latches [force_terminal_]. *)
Lemma MoveTile_overflow_guard (s : HiveState) (action : Z) :
  action <> PassAction ->
  HasValue (from (ActionToMove action)) = true ->
  DistanceTo (MoveTile_new_pos (Board s) (ActionToMove action)) kOriginPosition
    > Radius (Board s) ->
  IsTerminal s = false ->
  exists b' s',
    MoveTile (Board s) (ActionToMove action) = Some (false, b')
    /\ tile_grid_ b' = tile_grid_ (Board s)
    /\ tile_positions_ b' = tile_positions_ (Board s)
    /\ played_tiles_ b' = played_tiles_ (Board s)
    /\ covered_tiles_ b' = covered_tiles_ (Board s)
    /\ colour_influence_ b' kWhite = colour_influence_ (Board s) kWhite
    /\ colour_influence_ b' kBlack = colour_influence_ (Board s) kBlack
    /\ articulation_points_ b' = articulation_points_ (Board s)
    /\ last_moved_ b' = last_moved_ (Board s)
    /\ last_moved_from_ b' = last_moved_from_ (Board s)
    /\ largest_radius b'
       = Z.max (largest_radius (Board s))
               (DistanceTo (MoveTile_new_pos (Board s) (ActionToMove action))
                           kOriginPosition)
    /\ DoApplyAction s action = Some s'
    /\ Board s' = b'
    /\ force_terminal_ s' = true
    /\ IsTerminal s' = true
    /\ Returns s' = (0, 0).
Proof.
  intros Hnp Hfrom Hdist Hterm.
  set (m := ActionToMove action) in *.
  set (dist := DistanceTo (MoveTile_new_pos (Board s) m) kOriginPosition) in *.
  set (b' := with_largest_radius (Board s) (Z.max (largest_radius (Board s)) dist)).
  assert (HM : MoveTile (Board s) m = Some (false, b')).
  { unfold MoveTile. rewrite Hfrom. cbn [negb]. fold dist. cbv zeta. fold b'.
    replace (hex_radius_ b') with (Radius (Board s)) by reflexivity.
    apply Z.gtb_gt in Hdist. rewrite Hdist. reflexivity. }
  set (s' := with_current_player (with_force_terminal (with_board s b') true)
               (Z.rem (current_player_ s + 1) kNumPlayers)).
  assert (HD : DoApplyAction s action = Some s').
  { unfold DoApplyAction. apply Z.eqb_neq in Hnp. rewrite Hnp.
    fold m. rewrite HM. reflexivity. }
  unfold IsTerminal in Hterm. apply orb_false_iff in Hterm.
  destruct Hterm as [Hterm _]. apply orb_false_iff in Hterm.
  destruct Hterm as [Hterm _]. apply orb_false_iff in Hterm.
  destruct Hterm as [Hw Hb].
  exists b', s'. repeat (split; [reflexivity || assumption|]).
  split.
  - unfold IsTerminal. replace (force_terminal_ s') with true by reflexivity.
    apply orb_true_r.
  - unfold Returns.
    replace (WinConditionMet s' kPlayerWhite) with (WinConditionMet s kPlayerWhite)
      by reflexivity.
    replace (WinConditionMet s' kPlayerBlack) with (WinConditionMet s kPlayerBlack)
      by reflexivity.
    rewrite Hw, Hb. reflexivity.
Qed.

(** ** Serialisation *)

(** C10 — [DeserializeState] yields the initial state of the game whatever
    string it is given; so the session string that [Serialize] produces for
    a state in which at least one move was made does not bring that state
    back. *)
Theorem DeserializeState_fresh (g : HiveGame) :
  (forall str, DeserializeState g str = NewInitialState g)
  /\ (forall s str, Serialize s = Some str -> 0 < MoveNumber s ->
                    DeserializeState g str <> s).
Proof.
  split.
  - intros str. reflexivity.
  - intros s str _ Hmoves Heq.
    assert (E : MoveNumber (DeserializeState g str) = 0) by reflexivity.
    rewrite Heq in E. lia.
Qed.

Lemma DeserializeState_fresh_witness :
  Serialize opening_state = Some "Base+PLM;InProgress;Black[1];wG1"%string
  /\ DeserializeState default_game "Base+PLM;InProgress;Black[1];wG1"
     <> opening_state.
Proof.
  assert (HS : Serialize opening_state
               = Some "Base+PLM;InProgress;Black[1];wG1"%string)
    by (vm_compute; reflexivity).
  split; [exact HS|].
  apply (proj2 (DeserializeState_fresh default_game) opening_state _ HS).
  vm_compute. reflexivity.
Defined.

(** *** Action ids and their strings *)

Lemma actions_upto_forall (f : Z -> bool) :
  forallb f (actions_upto (Z.to_nat NumDistinctActions)) = true ->
  forall a, 0 <= a <= PassAction -> f a = true.
Proof.
  intros Hall a Ha. rewrite forallb_forall in Hall. apply Hall.
  unfold actions_upto. apply in_map_iff. exists (Z.to_nat a). split.
  - apply Z2Nat.id. lia.
  - apply in_seq. unfold PassAction in Ha. lia.
Qed.

(** Every action id is rendered and parsed back to itself; this is the
    check of [BasicHiveTests] over all of [NumDistinctActions]. *)
Lemma action_roundtrip (a : Z) :
  0 <= a <= PassAction -> roundtrip_ok a = true.
Proof. apply actions_upto_forall. vm_compute. reflexivity. Qed.


Lemma tile_value_range (t : NewHiveTile) : 0 <= tile_value t <= 28.
Proof. destruct t; simpl; lia. Qed.

Lemma HasValue_lt (t : NewHiveTile) : HasValue t = true <-> tile_value t < 28.
Proof. unfold HasValue. simpl. apply Z.ltb_lt. Qed.

Lemma Direction_value_range (d : Direction) : 0 <= Direction_value d <= 7.
Proof. destruct d; simpl; lia. Qed.

Lemma MoveToAction_range (m : Move) : 0 <= MoveToAction m <= PassAction.
Proof.
  unfold MoveToAction, IsPass, PassAction, NumDistinctActions, kMaxTileCount.
  pose proof (tile_value_range (from m)).
  pose proof (tile_value_range (to m)).
  pose proof (Direction_value_range (direction m)).
  destruct (HasValue (from m)) eqn:Ef; cbn [negb]; [|lia].
  apply HasValue_lt in Ef.
  destruct (HasValue (to m)) eqn:Et; cbn [negb]; simpl Direction_value.
  - apply HasValue_lt in Et. lia.
  - lia.
Qed.

(** C7 — for every move, hence for every legal move the generator emits,
    the UHP string of its action id exists and parses back to that same
    action id. *)
Theorem uhp_roundtrip (m : Move) :
  exists str, ActionToString (MoveToAction m) = Some str
              /\ StringToAction str = Some (MoveToAction m).
Proof.
  pose proof (action_roundtrip _ (MoveToAction_range m)) as H.
  unfold roundtrip_ok in H.
  destruct (ActionToString (MoveToAction m)) as [str|]; [|discriminate].
  exists str. split; [reflexivity|].
  destruct (StringToAction str) as [a'|]; [|discriminate].
  apply Z.eqb_eq in H. congruence.
Qed.

(** *** The session string *)







(** ** Decoding an encoded move *)

Lemma tile_of_value_tile_value (t : NewHiveTile) :
  tile_of_value (tile_value t) = t.
Proof. destruct t; reflexivity. Qed.

Lemma ActionToMove_MoveToAction_from (m : Move) :
  IsPass m = false ->
  direction m <> kNumAllDirections ->
  MoveToAction m <> PassAction
  /\ from (ActionToMove (MoveToAction m)) = from m.
Proof.
  intros Hp Hd. unfold IsPass in Hp. apply negb_false_iff in Hp.
  pose proof (proj1 (HasValue_lt _) Hp) as Hf.
  pose proof (tile_value_range (from m)) as Hf0.
  assert (E : exists x, MoveToAction m = tile_value (from m) * 196 + x
                        /\ 0 <= x < 196).
  { unfold MoveToAction, IsPass. rewrite Hp. cbn [negb].
    unfold kMaxTileCount. simpl Direction_value.
    destruct (HasValue (to m)) eqn:Et; cbn [negb].
    - apply HasValue_lt in Et. pose proof (tile_value_range (to m)).
      assert (0 <= Direction_value (direction m) <= 6)
        by (destruct (direction m); simpl; try lia; congruence).
      exists (tile_value (to m) * 7 + Direction_value (direction m)). lia.
    - exists (tile_value (from m) * 7 + 6). lia. }
  destruct E as (x & Ea & Hx).
  assert (Hnp : MoveToAction m <> PassAction)
    by (unfold PassAction, NumDistinctActions; lia).
  split; [exact Hnp|].
  unfold ActionToMove. apply Z.eqb_neq in Hnp. rewrite Hnp. cbn [from].
  unfold kMaxTileCount. simpl Direction_value. change (28 * 7) with 196.
  rewrite Z.quot_div_nonneg by lia.
  replace (MoveToAction m / 196) with (tile_value (from m))
    by (apply Z.div_unique with x; lia).
  unfold uint8. rewrite Z.mod_small by lia.
  apply tile_of_value_tile_value.
Qed.

Lemma set_insert_action_In (a x : Z) (s : list Z) :
  In x (set_insert_action a s) <-> x = a \/ In x s.
Proof.
  induction s as [|y s IH]; simpl.
  - intuition.
  - destruct (a <? y) eqn:E1; [simpl; intuition|].
    destruct (a =? y) eqn:E2.
    + apply Z.eqb_eq in E2. subst y. simpl. intuition.
    + simpl. rewrite IH. intuition.
Qed.

Lemma unique_actions_In (moves : list Move) (acc : list Z) (x : Z) :
  In x (fold_left (fun acc m => set_insert_action (MoveToAction m) acc) moves acc)
  <-> In x acc \/ exists m, In m moves /\ x = MoveToAction m.
Proof.
  revert acc. induction moves as [|m moves IH]; intros acc; simpl.
  - split; [auto | intros [H | (m & [] & _)]; exact H].
  - rewrite IH, set_insert_action_In. split.
    + intros [[-> | H] | (m' & Hm' & ->)]; eauto.
    + intros [H | (m' & [<- | Hm'] & ->)]; eauto.
Qed.

(** ** The Queen must be placed on the fourth turn *)

Lemma IsInPlay_type_queen (b : HexBoard) (c : Colour) :
  IsInPlay_type b c kQueen 1 = IsInPlay b (queen_of c).
Proof. destruct c; reflexivity. Qed.

Lemma queen_tile_of_colour (c : Colour) (tile : NewHiveTile) :
  In tile (GetTilesForColour c) ->
  BugType_eqb (GetBugType tile) kQueen = true ->
  tile = queen_of c.
Proof.
  destruct c; simpl; intros H;
    repeat (destruct H as [<- | H]; [intros E; (reflexivity || discriminate E)|]);
    destruct H.
Qed.

Lemma OppositeDirection_cardinal (d : Direction) :
  In d cardinal_directions -> OppositeDirection d <> kNumAllDirections.
Proof.
  simpl. intros H.
  repeat (destruct H as [<- | H]; [vm_compute; discriminate|]). destruct H.
Qed.

(** On moves 6 and 7, with the Queen still in hand, every placement that is
    generated is a placement of the Queen next to a reference tile. *)
Lemma GeneratePlacementMoves_queen_only (b : HexBoard) (c : Colour) (n : Z) :
  n = 6 \/ n = 7 ->
  IsInPlay b (queen_of c) = false ->
  exists moves,
    GeneratePlacementMoves b c n = Some moves
    /\ forall m, In m moves ->
                 from m = queen_of c /\ direction m <> kNumAllDirections.
Proof.
  intros Hn Hq. unfold GeneratePlacementMoves.
  assert (E0 : (n =? 0) = false) by (apply Z.eqb_neq; lia).
  assert (E1 : (n =? 1) = false) by (apply Z.eqb_neq; lia).
  assert (E8 : (n >=? 8) = false) by (rewrite Z.geb_leb; apply Z.leb_gt; lia).
  assert (E67 : (n =? 6) || (n =? 7) = true).
  { apply orb_true_iff. rewrite !Z.eqb_eq. exact Hn. }
  rewrite E0, E1, E8, Hq, E67. cbn [orb andb negb].
  eexists. split; [reflexivity|].
  intros m Hm. apply in_flat_map in Hm. destruct Hm as (tile & Htile & Hm).
  destruct (IsInPlay b tile); [destruct Hm|].
  destruct (BugType_eqb (GetBugType tile) kQueen) eqn:Etype;
    cbn [negb] in Hm; [|destruct Hm].
  pose proof (queen_tile_of_colour c tile Htile Etype) as ->.
  apply in_flat_map in Hm. destruct Hm as (pos & _ & Hm).
  destruct (HasValue (GetTopTileAt b pos)); [destruct Hm|].
  destruct (set_contains (colour_influence_ b (OtherColour c)) pos); [destruct Hm|].
  apply in_flat_map in Hm. destruct Hm as (i & Hi & Hm).
  destruct (HasValue (GetTopTileAt b (pos_add pos (kNeighbourOffsets i))));
    [|destruct Hm].
  destruct Hm as [<- | []]. cbn [from direction].
  split; [reflexivity | apply OppositeDirection_cardinal; exact Hi].
Qed.

(** With the Queen of the colour to move not in play on move 6 or 7, the
    generator returns placements of that Queen only. *)
Lemma legal_actions_queen_only (s : HiveState) :
  move_number_ s = 6 \/ move_number_ s = 7 ->
  IsInPlay (Board s) (queen_of (PlayerToColour (current_player_ s))) = false ->
  exists moves actions,
    GenerateAllMoves (Board s) (PlayerToColour (current_player_ s))
                     (move_number_ s) = Some moves
    /\ (forall m, In m moves ->
                  from m = queen_of (PlayerToColour (current_player_ s)))
    /\ LegalActions s = Some actions
    /\ (forall a, In a actions ->
                  a = PassAction
                  \/ (from (ActionToMove a)
                      = queen_of (PlayerToColour (current_player_ s))
                      /\ IsInPlay (Board s) (from (ActionToMove a)) = false)).
Proof.
  intros Hn Hq. set (c := PlayerToColour (current_player_ s)) in *.
  destruct (GeneratePlacementMoves_queen_only (Board s) c _ Hn Hq)
    as (moves & Hgen & Hmoves).
  assert (Hall : GenerateAllMoves (Board s) c (move_number_ s) = Some moves).
  { unfold GenerateAllMoves. rewrite Hgen, IsInPlay_type_queen, Hq. reflexivity. }
  exists moves. eexists. split; [exact Hall|].
  split; [intros m Hm; apply Hmoves; exact Hm|].
  unfold LegalActions. fold c. rewrite Hall. split; [reflexivity|].
  intros a Ha.
  match type of Ha with
  | In _ (if ?cond then _ else _) => destruct cond
  end.
  - left. destruct Ha as [<- | []]. reflexivity.
  - right. apply unique_actions_In in Ha.
    destruct Ha as [[] | (m & Hm & ->)].
    destruct (Hmoves m Hm) as [Hfrom Hdir].
    assert (Hpass : IsPass m = false).
    { unfold IsPass. rewrite Hfrom. destruct c; reflexivity. }
    destruct (ActionToMove_MoveToAction_from m Hpass Hdir) as [_ ->].
    rewrite Hfrom. split; [reflexivity | exact Hq].
Qed.

(** ** Slides of exact length *)

Lemma int8_int8_add (x y : Z) : int8 (int8 x + y) = int8 (x + y).
Proof.
  unfold int8. f_equal.
  replace ((x + 128) mod 256 - 128 + y + 128) with ((x + 128) mod 256 + y) by lia.
  rewrite Zplus_mod_idemp_l. f_equal. lia.
Qed.

Lemma pos_add_wf (p o : HivePosition) : wf_pos (pos_add p o).
Proof. unfold wf_pos, pos_add; simpl. repeat split; apply int8_in_range. Qed.

Lemma pos_add_offset_back (p : HivePosition) (d : Direction) :
  wf_pos p -> In d cardinal_directions ->
  pos_add (pos_add p (kNeighbourOffsets d)) (kNeighbourOffsets (OppositeDirection d)) = p.
Proof.
  intros (Hq & Hr & Hh) Hd. destruct p as [q r h]. simpl in *.
  repeat (destruct Hd as [<- | Hd];
          [unfold pos_add; simpl; rewrite !int8_int8_add; f_equal;
           rewrite int8_id; unfold int8_range in *; lia|]).
  destruct Hd.
Qed.

Lemma pos_add_offset_neq (p : HivePosition) (d : Direction) :
  In d cardinal_directions -> pos_add p (kNeighbourOffsets d) <> p.
Proof.
  intros Hd E. destruct p as [q r h].
  assert (Hmod : forall x k, int8 (x + k) = x -> (k mod 256 = 0)).
  { intros x k. unfold int8. intros Hx.
    assert (Hm : (x + k + 128) mod 256 = x + 128) by lia.
    pose proof (Z.mod_pos_bound (x + k + 128) 256 eq_refl) as Hb.
    rewrite Hm in Hb.
    replace k with ((x + k + 128) - (x + 128)) by lia.
    rewrite Zminus_mod, Hm, (Z.mod_small (x + 128)) by lia.
    rewrite Z.sub_diag. reflexivity. }
  simpl in Hd. unfold pos_add in E. simpl in E. injection E as Eq Er _.
  repeat (destruct Hd as [<- | Hd];
          [simpl in Eq, Er;
           first [apply Hmod in Eq; discriminate Eq
                 | apply Hmod in Er; discriminate Er]|]).
  destruct Hd.
Qed.

Lemma OppositeDirection_in_cardinal (d : Direction) :
  In d cardinal_directions -> In (OppositeDirection d) cardinal_directions.
Proof.
  simpl. intros H.
  repeat (destruct H as [<- | H]; [vm_compute; tauto|]). destruct H.
Qed.

Lemma Direction_eqb_eq (a b : Direction) : Direction_eqb a b = true <-> a = b.
Proof.
  unfold Direction_eqb. rewrite Z.eqb_eq. split.
  - destruct a, b; simpl; intros E; (reflexivity || discriminate E).
  - intros ->. reflexivity.
Qed.

Lemma set_erase_absent (s : PosSet) (p : HivePosition) :
  ~ In p s -> set_erase s p = s.
Proof.
  intros Hp. unfold set_erase. induction s as [|x s IH]; [reflexivity|].
  simpl. destruct (pos_eqb x p) eqn:E.
  - apply pos_eqb_eq in E. subst x. exfalso. apply Hp. left. reflexivity.
  - simpl. f_equal. apply IH. intros H. apply Hp. right. exact H.
Qed.

Lemma set_erase_appended (s : PosSet) (p : HivePosition) :
  ~ In p s -> set_erase (s ++ [p]) p = s.
Proof.
  intros Hp. unfold set_erase. rewrite filter_app. simpl.
  rewrite pos_eqb_refl. simpl. rewrite app_nil_r. apply set_erase_absent. exact Hp.
Qed.

Lemma set_insert_absent (s : PosSet) (p : HivePosition) :
  ~ In p s -> set_insert s p = s ++ [p].
Proof.
  intros Hp. unfold set_insert.
  destruct (set_contains s p) eqn:E; [|reflexivity].
  apply set_contains_In in E. contradiction.
Qed.

Lemma set_contains_false (s : PosSet) (p : HivePosition) :
  set_contains s p = false <-> ~ In p s.
Proof.
  rewrite <- set_contains_In. destruct (set_contains s p); intuition congruence.
Qed.

(** Folding a step that adds the targets [P d] of each direction. *)
Lemma fold_out_In (P : Direction -> HivePosition -> Prop)
      (f : PosSet -> Direction -> PosSet) (dirs : list Direction) :
  (forall d out t, In d dirs -> In t (f out d) <-> In t out \/ P d t) ->
  forall out t,
    In t (fold_left f dirs out) <-> In t out \/ exists d, In d dirs /\ P d t.
Proof.
  induction dirs as [|d dirs IH]; intros Hf out t; simpl.
  - split; [auto | intros [H | (d & [] & _)]; exact H].
  - rewrite IH by (intros; apply Hf; right; assumption).
    rewrite Hf by (left; reflexivity). split.
    + intros [[H | H] | (d' & Hd' & H)]; eauto 6.
    + intros [H | (d' & [<- | Hd'] & H)]; eauto 6.
Qed.

Lemma fold_state_In (P : Direction -> HivePosition -> Prop) (V : PosSet)
      (step : option (PosSet * PosSet) -> Direction -> option (PosSet * PosSet))
      (dirs : list Direction) :
  (forall d out, In d dirs ->
     exists out', step (Some (V, out)) d = Some (V, out')
                  /\ forall t, In t out' <-> In t out \/ P d t) ->
  forall out,
    exists out', fold_left step dirs (Some (V, out)) = Some (V, out')
                 /\ forall t, In t out' <-> In t out \/ exists d, In d dirs /\ P d t.
Proof.
  induction dirs as [|d dirs IH]; intros Hstep out; simpl.
  - exists out. split; [reflexivity|]. intros t.
    split; [auto | intros [H | (d & [] & _)]; exact H].
  - destruct (Hstep d out (or_introl eq_refl)) as (out1 & E1 & H1).
    rewrite E1.
    destruct (IH (fun d' o Hd' => Hstep d' o (or_intror Hd')) out1)
      as (out2 & E2 & H2).
    exists out2. split; [exact E2|]. intros t. rewrite H2, H1. split.
    + intros [[H | H] | (d' & Hd' & H)]; eauto 6.
    + intros [H | (d' & [<- | Hd'] & H)]; eauto 6.
Qed.

Lemma slides_dfs_limited (b : HexBoard) (start_pos : HivePosition) (distance : Z) :
  forall (n fuel : nat) (pos : HivePosition) (from_dir : Direction) (depth : Z)
         (visited out : PosSet),
    (1 <= n)%nat -> (n <= fuel)%nat ->
    depth = distance + 1 - Z.of_nat n ->
    0 < depth ->
    wf_pos pos ->
    ~ In pos visited ->
    (forall d, In d cardinal_directions -> Direction_eqb d from_dir = true ->
               In (pos_add pos (kNeighbourOffsets d)) visited) ->
    exists out',
      slides_dfs fuel b start_pos distance pos from_dir depth (visited, out)
      = Some (if (n =? 1)%nat then visited else visited ++ [pos], out')
      /\ forall t, In t out' <-> In t out \/ slide_path b start_pos visited pos n t.
Proof.
  induction n as [|n IH]; intros fuel pos from_dir depth visited out Hn Hfuel Hdepth Hpos Hwf Hfresh Hfrom;
    [lia|].
  destruct fuel as [|fuel]; [lia|].
  assert (Hlim : (distance <? 0) = false) by (apply Z.ltb_ge; lia).
  assert (Hle : (depth >? distance) = false) by (rewrite Z.gtb_ltb; apply Z.ltb_ge; lia).
  cbn [slides_dfs]. rewrite Hlim.
  rewrite (proj2 (set_contains_false visited pos) Hfresh), Hle.
  cbn [negb orb andb].
  destruct n as [|n].
  - (* the last level: depth = distance *)
    assert (Heq : (depth =? distance) = true) by (apply Z.eqb_eq; lia).
    rewrite Heq. cbn [orb Nat.eqb].
    eexists. split; [reflexivity|].
    intros t.
    match goal with
    | |- In t (fold_left ?f _ _) <-> _ =>
        rewrite (fold_out_In
                   (fun d t => slide_blocked b start_pos pos d = false
                               /\ t = pos_add pos (kNeighbourOffsets d)
                               /\ ~ In t visited) f)
    end.
    + cbn [slide_path]. unfold ground_slide. split.
      * intros [H | (d & Hd & Hb & -> & Hv)]; [left; exact H | right].
        exists d. auto.
      * intros [H | (d & [Hd Hb] & -> & Hv)]; [left; exact H | right].
        exists d. auto.
    + intros d out0 t0 Hd.
      destruct (Direction_eqb d from_dir) eqn:Ed.
      { split; [auto | intros [H | (_ & -> & Hv)]; [exact H|]].
        exfalso. apply Hv. apply Hfrom; assumption. }
      destruct (set_contains visited (pos_add pos (kNeighbourOffsets d))) eqn:Ev.
      { apply set_contains_In in Ev.
        split; [auto | intros [H | (_ & -> & Hv)]; [exact H | contradiction]]. }
      apply set_contains_false in Ev.
      destruct (slide_blocked b start_pos pos d) eqn:Eb.
      { split; [auto | intros [H | (Hb & _)]; [exact H | discriminate Hb]]. }
      rewrite set_insert_In. split.
      * intros [H | ->]; auto.
      * intros [H | (_ & -> & _)]; auto.
  - (* an inner level: depth < distance *)
    assert (Hne : (depth =? distance) = false) by (apply Z.eqb_neq; lia).
    rewrite Hne. cbn [orb Nat.eqb].
    rewrite (set_insert_absent visited pos Hfresh).
    set (V := visited ++ [pos]).
    match goal with
    | |- context [fold_left ?step cardinal_directions (Some (V, fold_left ?f _ _))] =>
        set (first_loop := f); set (second_loop := step)
    end.
    destruct (fold_state_In
                (fun d t => slide_blocked b start_pos pos d = false
                            /\ ~ In (pos_add pos (kNeighbourOffsets d)) V
                            /\ slide_path b start_pos V
                                          (pos_add pos (kNeighbourOffsets d))
                                          (S n) t)
                V second_loop cardinal_directions)
      with (out := fold_left first_loop cardinal_directions out)
      as (out' & E & Hout');
      [|assert (Hfirst : forall t,
                   In t (fold_left first_loop cardinal_directions out)
                   <-> In t out \/ exists d, In d cardinal_directions /\ False)].
    + (* one iteration of the second loop *)
      intros d out0 Hd. unfold second_loop. cbv beta iota.
      destruct (Direction_eqb d from_dir) eqn:Ed.
      { exists out0. split; [reflexivity|]. intros t.
        split; [auto | intros [H | (_ & Hv & _)]; [exact H|]].
        exfalso. apply Hv. unfold V. apply in_or_app. left.
        apply Hfrom; assumption. }
      destruct (set_contains V (pos_add pos (kNeighbourOffsets d))) eqn:Ev.
      { apply set_contains_In in Ev. exists out0. split; [reflexivity|].
        intros t. split; [auto | intros [H | (_ & Hv & _)]; [exact H | contradiction]]. }
      apply set_contains_false in Ev.
      destruct (slide_blocked b start_pos pos d) eqn:Eb.
      { exists out0. split; [reflexivity|]. intros t.
        split; [auto | intros [H | (Hb & _)]; [exact H | discriminate Hb]]. }
      destruct (IH fuel (pos_add pos (kNeighbourOffsets d)) (OppositeDirection d)
                   (depth + 1) V out0) as (out1 & E1 & H1).
      * lia.
      * lia.
      * lia.
      * lia.
      * apply pos_add_wf.
      * exact Ev.
      * intros d' Hd' Ed'. apply Direction_eqb_eq in Ed'. subst d'.
        rewrite pos_add_offset_back by assumption.
        unfold V. apply in_or_app. right. left. reflexivity.
      * rewrite E1. exists out1. split.
        -- f_equal. f_equal. destruct (S n =? 1)%nat.
           ++ apply set_erase_absent. exact Ev.
           ++ apply set_erase_appended. exact Ev.
        -- intros t. rewrite H1. split.
           ++ intros [H | H]; auto.
           ++ intros [H | (_ & _ & H)]; auto.
    + (* the first loop adds nothing *)
      intros t.
      apply (fold_out_In (fun _ _ => False) first_loop).
      intros d out0 t0 Hd. unfold first_loop.
      destruct (Direction_eqb d from_dir);
        [|destruct (set_contains visited (pos_add pos (kNeighbourOffsets d)));
          [|destruct (slide_blocked b start_pos pos d)]];
        tauto.
    + exists out'. split; [exact E|].
      intros t. rewrite Hout', Hfirst. cbn [slide_path]. fold V.
      unfold ground_slide. split.
      * intros [[H | (d & _ & [])] | (d & Hd & Hb & Hv & Hp)]; [left; exact H | right].
        exists d. auto.
      * intros [H | (d & [Hd Hb] & Hv & Hp)]; [left; left; exact H | right].
        exists d. auto.
Qed.

Lemma slide_path_three (b : HexBoard) (start_pos target : HivePosition) :
  slide_path b start_pos [] start_pos 3 target <-> three_slides b start_pos target.
Proof.
  cbn [slide_path app]. unfold three_slides. split.
  - intros (d1 & G1 & N1 & d2 & G2 & N2 & d3 & G3 & -> & N3).
    exists d1, d2, d3. eexists. eexists.
    repeat (split; [first [eassumption | reflexivity]|]).
    set (p1 := pos_add start_pos (kNeighbourOffsets d1)) in *.
    set (p2 := pos_add p1 (kNeighbourOffsets d2)) in *.
    assert (N4 : pos_add p2 (kNeighbourOffsets d3) <> p2)
      by (apply pos_add_offset_neq; apply G3).
    simpl in N1, N2, N3.
    repeat constructor; simpl; intuition congruence.
  - intros (d1 & d2 & d3 & p1 & p2 & G1 & -> & G2 & -> & G3 & -> & ND).
    inversion ND as [|? ? A1 ND1]; subst.
    inversion ND1 as [|? ? A2 ND2]; subst.
    inversion ND2 as [|? ? A3 _]; subst.
    simpl in A1, A2, A3.
    exists d1. split; [exact G1|]. split; [simpl; intuition congruence|].
    exists d2. split; [exact G2|]. split; [simpl; intuition congruence|].
    exists d3. split; [exact G3|]. split; [reflexivity|].
    simpl; intuition congruence.
Qed.

(** The destinations of a Spider that the search takes for neither pinned
    nor covered, as paths of three accepted steps of the search itself. *)
Lemma spider_slide_paths (b : HexBoard) (tile : NewHiveTile) (to_move : Colour) :
  GetBugType tile = kSpider ->
  IsPinned b tile = false ->
  IsCovered b tile = false ->
  wf_pos (tile_positions_at b tile) ->
  exists positions,
    GenerateValidSlides [] b tile (tile_positions_at b tile) 3 = Some positions
    /\ GenerateMovesFor b tile (GetBugType tile) to_move
       = Some (reference_moves b tile (tile_positions_at b tile) positions)
    /\ forall target,
         In target positions <-> three_slides b (tile_positions_at b tile) target.
Proof.
  intros Htype Hpin Hcov Hwf.
  set (start_pos := tile_positions_at b tile) in *.
  destruct (slides_dfs_limited b start_pos 3 3 (slides_fuel b 3) start_pos
                               kNumAllDirections 1 [] [])
    as (positions & E & Hpos).
  - lia.
  - unfold slides_fuel. simpl. lia.
  - reflexivity.
  - lia.
  - exact Hwf.
  - intros [].
  - intros d Hd Ed. apply Direction_eqb_eq in Ed. subst d.
    simpl in Hd. intuition discriminate.
  - assert (HG : GenerateValidSlides [] b tile start_pos 3 = Some positions).
    { unfold GenerateValidSlides. rewrite Hpin, Hcov. cbn [orb].
      unfold PosSet in *. rewrite E. reflexivity. }
    exists positions. split; [exact HG|]. split.
    + rewrite Htype. unfold GenerateMovesFor, GenerateMovesFor_acting.
      fold start_pos. rewrite HG. reflexivity.
    + intros target. rewrite Hpos, <- slide_path_three. simpl. tauto.
Qed.

(** ** The slide primitive on named cells *)

Lemma heights_recordedb_sound (b : HexBoard) :
  heights_recordedb b = true -> heights_recorded b.
Proof.
  unfold heights_recordedb, heights_recorded. rewrite forallb_forall, Forall_forall.
  intros H t Ht Hv. specialize (H t Ht). rewrite Hv in H. apply Z.leb_le. exact H.
Qed.

Lemma flank_exists (b : HexBoard) (p : HivePosition) :
  heights_recorded b ->
  (h_ (GetPositionOf b (GetTopTileAt b p)) >=? 0) = HasValue (GetTopTileAt b p).
Proof.
  intros Hrec. destruct (HasValue (GetTopTileAt b p)) eqn:E.
  - rewrite Z.geb_leb. apply Z.leb_le. unfold GetPositionOf. rewrite E.
    unfold heights_recorded in Hrec. rewrite Forall_forall in Hrec.
    apply Hrec; [|exact E].
    revert E. unfold GetTopTileAt.
    destruct (GetTopTileAt_index b p) as [i|]; [|discriminate].
    destruct (nth_in_or_default (Z.to_nat i) (tile_grid_ b) kNoneTile) as [Hin | ->];
      [intros _; exact Hin | discriminate].
  - unfold GetPositionOf. rewrite E. reflexivity.
Qed.

Lemma IsConnected_spec (b : HexBoard) (pos to_ignore : HivePosition) :
  IsConnected b pos to_ignore = true
  <-> exists n, In n (Neighbours pos) /\ HasValue (GetTopTileAt b n) = true.
Proof.
  unfold IsConnected, NeighboursOf. rewrite Z.ltb_lt. split.
  - intros H.
    destruct (filter HasValue (map (GetTopTileAt b) (Neighbours pos)))
      as [|t ts] eqn:E; [simpl in H; lia|].
    assert (Ht : In t (filter HasValue (map (GetTopTileAt b) (Neighbours pos))))
      by (rewrite E; left; reflexivity).
    apply filter_In in Ht. destruct Ht as [Ht Hv].
    apply in_map_iff in Ht. destruct Ht as (n & <- & Hn). exists n. auto.
  - intros (n & Hn & Hv).
    assert (Ht : In (GetTopTileAt b n)
                    (filter HasValue (map (GetTopTileAt b) (Neighbours pos)))).
    { apply filter_In. split; [apply in_map; exact Hn | exact Hv]. }
    destruct (filter HasValue (map (GetTopTileAt b) (Neighbours pos)));
      [destruct Ht | simpl; lia].
Qed.

(** Away from the rim of the coordinate range the offsets of the code lead
    to the cells named by their coordinates. *)
Lemma offsets_name_cells (pos : HivePosition) (d : Direction) :
  h_ pos = 0 -> -126 <= q_ pos <= 125 -> -126 <= r_ pos <= 125 ->
  In d cardinal_directions ->
  pos_add pos (kNeighbourOffsets d) = hex_neighbour pos d
  /\ pos_add pos (kNeighbourOffsets (CounterClockwiseDirection d))
     = fst (flank_cells pos d)
  /\ pos_add pos (kNeighbourOffsets (ClockwiseDirection d))
     = snd (flank_cells pos d)
  /\ Neighbours (hex_neighbour pos d) = six_cells (hex_neighbour pos d)
  /\ In (fst (flank_cells pos d)) (six_cells (hex_neighbour pos d))
  /\ In (snd (flank_cells pos d)) (six_cells (hex_neighbour pos d)).
Proof.
  intros Hh Hq Hr Hd. destruct pos as [q r h]. simpl in Hh, Hq, Hr. subst h.
  simpl in Hd.
  repeat (destruct Hd as [<- | Hd];
          [unfold pos_add; simpl;
           rewrite ?int8_id by (unfold int8_range; lia);
           repeat split;
           try (f_equal; lia);
           try (apply Neighbours_six_cells; simpl; lia);
           unfold six_cells, hex_neighbour; simpl;
           repeat first [left; f_equal; lia | right]|]).
  destruct Hd.
Qed.

(** On a board whose grid tiles have recorded heights, a step at ground
    level to a cell other than the start cell is accepted by the search
    exactly when it satisfies the primitive of the specification. *)
Lemma ground_slide_refines_spec (b : HexBoard) (start_pos pos : HivePosition)
      (dir : Direction) :
  heights_recorded b ->
  h_ pos = 0 -> -126 <= q_ pos <= 125 -> -126 <= r_ pos <= 125 ->
  hex_neighbour pos dir <> start_pos ->
  ground_slide b start_pos pos dir <-> ground_slide_spec b start_pos pos dir.
Proof.
  intros Hrec Hh Hq Hr Hne.
  unfold ground_slide, ground_slide_spec. cbv zeta.
  change (In dir [kNE; kE; kSE; kSW; kW; kNW]) with (In dir cardinal_directions).
  split; intros [Hd Hrest]; (split; [exact Hd|]);
    destruct (offsets_name_cells pos dir Hh Hq Hr Hd)
      as (Et & E1 & E2 & EN & N1 & N2);
    revert Hrest; unfold slide_blocked, IsGated; cbv zeta;
    rewrite Hh; cbn [Z.eqb]; rewrite !(flank_exists b _ Hrec);
    rewrite Et, E1, E2; unfold occupied_besides;
    set (target := hex_neighbour pos dir) in *;
    set (side1 := fst (flank_cells pos dir)) in *;
    set (side2 := snd (flank_cells pos dir)) in *.
  - intros Hb.
    apply orb_false_iff in Hb. destruct Hb as [Hb Hc].
    apply orb_false_iff in Hb. destruct Hb as [He Hg].
    rewrite He.
    destruct (pos_eqb side1 start_pos) eqn:E1'; destruct (pos_eqb side2 start_pos) eqn:E2';
      destruct (HasValue (GetTopTileAt b side1)) eqn:V1;
      destruct (HasValue (GetTopTileAt b side2)) eqn:V2;
      try discriminate Hg;
      try apply pos_eqb_neq in E1'; try apply pos_eqb_neq in E2';
      try apply pos_eqb_eq in E1'; try apply pos_eqb_eq in E2';
      (split; [intros [_ F]; discriminate F|]);
      (split; [intros [[A1 A2] [A3 A4]]; congruence|]);
      first [ split; [left; split; [assumption | reflexivity]
                     | exists side1; repeat split; assumption]
            | split; [right; split; [assumption | reflexivity]
                     | exists side2; repeat split; assumption] ].
  - intros (He & Hng & Hone & (n & Hn & _ & Hv)).
    assert (E : HasValue (GetTopTileAt b target) = false).
    { destruct (HasValue (GetTopTileAt b target)); [|reflexivity].
      exfalso. apply He. split; [exact Hne | reflexivity]. }
    rewrite E. cbn [orb].
    assert (C : IsConnected b target start_pos = true).
    { apply IsConnected_spec. exists n. rewrite EN. auto. }
    rewrite C. cbn [negb]. rewrite orb_false_r.
    destruct (pos_eqb side1 start_pos) eqn:E1'; destruct (pos_eqb side2 start_pos) eqn:E2';
      destruct (HasValue (GetTopTileAt b side1)) eqn:V1;
      destruct (HasValue (GetTopTileAt b side2)) eqn:V2;
      try reflexivity;
      try apply pos_eqb_neq in E1'; try apply pos_eqb_neq in E2';
      try apply pos_eqb_eq in E1'; try apply pos_eqb_eq in E2';
      exfalso;
      first [ apply Hng; split; split; (assumption || reflexivity)
            | destruct Hone as [[A B] | [A B]]; congruence ].
Qed.

Lemma hex_neighbour_near (p : HivePosition) (d : Direction) :
  h_ (hex_neighbour p d) = 0
  /\ q_ p - 1 <= q_ (hex_neighbour p d) <= q_ p + 1
  /\ r_ p - 1 <= r_ (hex_neighbour p d) <= r_ p + 1.
Proof. destruct d; simpl; lia. Qed.

(** One accepted step of the search and one step of the primitive lead to
    the same cell and are interchangeable. *)
Lemma slide_step_agrees (b : HexBoard) (start_pos pos next : HivePosition)
      (d : Direction) :
  heights_recorded b ->
  h_ pos = 0 -> -126 <= q_ pos <= 125 -> -126 <= r_ pos <= 125 ->
  next <> start_pos ->
  (ground_slide b start_pos pos d /\ next = pos_add pos (kNeighbourOffsets d))
  <-> (ground_slide_spec b start_pos pos d /\ next = hex_neighbour pos d).
Proof.
  intros Hrec Hh Hq Hr Hne. split; intros [Hg ->].
  - destruct (offsets_name_cells pos d Hh Hq Hr (proj1 Hg)) as (Et & _).
    rewrite Et in *. split; [|reflexivity].
    apply ground_slide_refines_spec; assumption.
  - destruct (offsets_name_cells pos d Hh Hq Hr (proj1 Hg)) as (Et & _).
    rewrite Et. split; [|reflexivity].
    apply ground_slide_refines_spec; assumption.
Qed.

Lemma NoDup_first_apart (a b c d : HivePosition) :
  NoDup [a; b; c; d] -> b <> a /\ c <> a /\ d <> a.
Proof.
  intros ND. inversion ND as [|? ? A _]. cbn [In] in A.
  repeat split; intros E; apply A; auto.
Qed.

Lemma three_slides_refines_spec (b : HexBoard) (start_pos target : HivePosition) :
  heights_recorded b ->
  h_ start_pos = 0 -> -100 <= q_ start_pos <= 100 -> -100 <= r_ start_pos <= 100 ->
  three_slides b start_pos target <-> three_slides_spec b start_pos target.
Proof.
  intros Hrec Hh Hq Hr. unfold three_slides, three_slides_spec.
  split; intros (d1 & d2 & d3 & p1 & p2 & G1 & E1 & G2 & E2 & G3 & E3 & ND);
    exists d1, d2, d3, p1, p2;
    destruct (NoDup_first_apart _ _ _ _ ND) as (A1 & A2 & A3).
  - destruct (proj1 (slide_step_agrees b start_pos start_pos p1 d1 Hrec Hh
                       ltac:(lia) ltac:(lia) A1) (conj G1 E1)) as [S1 F1].
    destruct (hex_neighbour_near start_pos d1) as (H1 & Q1 & R1).
    rewrite <- F1 in H1, Q1, R1.
    destruct (proj1 (slide_step_agrees b start_pos p1 p2 d2 Hrec H1
                       ltac:(lia) ltac:(lia) A2) (conj G2 E2)) as [S2 F2].
    destruct (hex_neighbour_near p1 d2) as (H2 & Q2 & R2).
    rewrite <- F2 in H2, Q2, R2.
    destruct (proj1 (slide_step_agrees b start_pos p2 target d3 Hrec H2
                       ltac:(lia) ltac:(lia) A3) (conj G3 E3)) as [S3 F3].
    repeat (split; [assumption|]). exact ND.
  - destruct (proj2 (slide_step_agrees b start_pos start_pos p1 d1 Hrec Hh
                       ltac:(lia) ltac:(lia) A1) (conj G1 E1)) as [S1 F1].
    destruct (hex_neighbour_near start_pos d1) as (H1 & Q1 & R1).
    rewrite <- E1 in H1, Q1, R1.
    destruct (proj2 (slide_step_agrees b start_pos p1 p2 d2 Hrec H1
                       ltac:(lia) ltac:(lia) A2) (conj G2 E2)) as [S2 F2].
    destruct (hex_neighbour_near p1 d2) as (H2 & Q2 & R2).
    rewrite <- E2 in H2, Q2, R2.
    destruct (proj2 (slide_step_agrees b start_pos p2 target d3 Hrec H2
                       ltac:(lia) ltac:(lia) A3) (conj G3 E3)) as [S3 F3].
    repeat (split; [assumption|]). exact ND.
Qed.

(** ** Moves that leave the board *)

Lemma DistanceTo_origin_hex (p : HivePosition) :
  int8_range (q_ p) -> int8_range (r_ p) ->
  DistanceTo p kOriginPosition = hex_distance p.
Proof.
  intros Hq Hr. unfold DistanceTo, hex_distance, pos_sub. simpl.
  rewrite !Z.sub_0_r, (int8_id _ Hq), (int8_id _ Hr).
  apply Z.quot_div_nonneg; lia.
Qed.

Lemma hex_distance_bound (p : HivePosition) (radius : Z) :
  hex_distance p <= radius ->
  - radius <= q_ p <= radius /\ - radius <= r_ p <= radius.
Proof.
  unfold hex_distance. intros Hd.
  assert (Hs : Z.abs (q_ p) + Z.abs (q_ p + r_ p) + Z.abs (r_ p) <= 2 * radius + 1).
  { revert Hd. generalize (Z.abs (q_ p) + Z.abs (q_ p + r_ p) + Z.abs (r_ p)).
    intros z Hd. Z.to_euclidean_division_equations. lia. }
  lia.
Qed.

(** The destination that [MoveTile] computes from a reference tile on the
    board lies in the cell next to the reference tile, or in its own cell
    for the direction [kAbove]. *)
Lemma MoveTile_new_pos_cell (b : HexBoard) (m : Move) :
  grid_sized b ->
  HasValue (to m) = true ->
  direction m <> kNumAllDirections ->
  hex_distance (tile_positions_at b (to m)) <= Radius b ->
  q_ (MoveTile_new_pos b m) = q_ (hex_neighbour (tile_positions_at b (to m)) (direction m))
  /\ r_ (MoveTile_new_pos b m) = r_ (hex_neighbour (tile_positions_at b (to m)) (direction m)).
Proof.
  intros [Hcap _] Hto Hdir Hon.
  destruct (hex_distance_bound _ _ Hon) as [Hq Hr].
  unfold Radius, kMaxBoardRadius in *.
  unfold MoveTile_new_pos. rewrite Hto.
  set (p := tile_positions_at b (to m)) in *.
  assert (E : q_ (pos_add p (kNeighbourOffsets (direction m)))
              = q_ (hex_neighbour p (direction m))
              /\ r_ (pos_add p (kNeighbourOffsets (direction m)))
                 = r_ (hex_neighbour p (direction m))).
  { destruct (direction m); try congruence; unfold pos_add; simpl;
      rewrite !int8_id by (unfold int8_range; lia); lia. }
  destruct (h_ (pos_add p (kNeighbourOffsets (direction m))) >? 0);
    [destruct (HasValue (GetTopTileAt b (pos_add p (kNeighbourOffsets (direction m)))))|];
    exact E.
Qed.

(** C2 — for a Spider at ground level on the board that is neither covered
    nor on an articulation point, the search with distance 3 returns, and
    the set of destinations it returns (the set that [GenerateMovesFor]
    turns into moves) is exactly the set of cells reached from the Spider's
    cell by three steps of the ground-slide primitive over four distinct
    cells; a cell reached only by one or two steps is therefore not in it. *)
Theorem spider_three_slides (b : HexBoard) (tile : NewHiveTile) (to_move : Colour) :
  GetBugType tile = kSpider ->
  ~ In (tile_positions_at b tile) (articulation_points_ b) ->
  ~ In tile (covered_tiles_ b) ->
  grid_sized b ->
  heights_recorded b ->
  wf_pos (tile_positions_at b tile) ->
  h_ (tile_positions_at b tile) = 0 ->
  hex_distance (tile_positions_at b tile) <= Radius b ->
  exists positions,
    GenerateValidSlides [] b tile (tile_positions_at b tile) 3 = Some positions
    /\ GenerateMovesFor b tile (GetBugType tile) to_move
       = Some (reference_moves b tile (tile_positions_at b tile) positions)
    /\ forall target,
         In target positions
         <-> three_slides_spec b (tile_positions_at b tile) target.
Proof.
  intros Htype Hart Hunc Hs Hrec Hwf Hh Hon.
  assert (Hpin : IsPinned b tile = false).
  { unfold IsPinned, IsPinned_pos.
    rewrite (proj2 (set_contains_false _ _) Hart). apply andb_false_r. }
  assert (Hcov : IsCovered b tile = false).
  { unfold IsCovered.
    destruct (existsb (tile_eqb tile) (covered_tiles_ b)) eqn:E;
      [|apply andb_false_r].
    apply existsb_exists in E. destruct E as (x & Hx & E).
    apply tile_eqb_eq in E. subst x. contradiction. }
  destruct (spider_slide_paths b tile to_move Htype Hpin Hcov Hwf)
    as (positions & HG & HM & Hpos).
  exists positions. split; [exact HG|]. split; [exact HM|].
  intros target. rewrite Hpos.
  destruct (hex_distance_bound _ _ Hon) as [Hq Hr].
  destruct Hs as [Hcap _]. unfold Radius, kMaxBoardRadius in *.
  apply three_slides_refines_spec; try assumption; lia.
Qed.

Lemma spider_three_slides_witness :
  exists positions,
    GenerateValidSlides [] (Board spider_state) wS1
                        (tile_positions_at (Board spider_state) wS1) 3
    = Some positions
    /\ GenerateMovesFor (Board spider_state) wS1 (GetBugType wS1) kWhite
       = Some (reference_moves (Board spider_state) wS1
                               (tile_positions_at (Board spider_state) wS1)
                               positions)
    /\ forall target,
         In target positions
         <-> three_slides_spec (Board spider_state)
                               (tile_positions_at (Board spider_state) wS1) target.
Proof.
  refine (spider_three_slides (Board spider_state) wS1 kWhite _ _ _ _ _ _ _ _).
  - reflexivity.
  - refine (proj1 (set_contains_false _ _) _). vm_compute. reflexivity.
  - intros Hin.
    assert (E : existsb (tile_eqb wS1) (covered_tiles_ (Board spider_state)) = true).
    { apply existsb_exists. exists wS1. split; [exact Hin | reflexivity]. }
    revert E. vm_compute. discriminate.
  - split; vm_compute; [discriminate | reflexivity].
  - refine (heights_recordedb_sound (Board spider_state) _). vm_compute. reflexivity.
  - repeat split; vm_compute; discriminate.
  - vm_compute. reflexivity.
  - vm_compute. discriminate.
Defined.

(** C3 — when the cell next to the reference tile in the direction of the
    move lies at a hex distance from the origin greater than the radius,
    [MoveTile] fails: the board it leaves differs from the one it found in
    [largest_radius] only; [DoApplyAction] then latches [force_terminal_], so
    the state is terminal, and (the move being applied to a state that was
    not terminal) the returns are (0, 0). *)
Theorem MoveTile_overflow (s : HiveState) (action : Z) :
  grid_sized (Board s) ->
  IsTerminal s = false ->
  action <> PassAction ->
  HasValue (from (ActionToMove action)) = true ->
  HasValue (to (ActionToMove action)) = true ->
  direction (ActionToMove action) <> kNumAllDirections ->
  hex_distance (tile_positions_at (Board s) (to (ActionToMove action)))
    <= Radius (Board s) ->
  hex_distance (hex_neighbour (tile_positions_at (Board s) (to (ActionToMove action)))
                              (direction (ActionToMove action)))
    > Radius (Board s) ->
  exists b' s',
    MoveTile (Board s) (ActionToMove action) = Some (false, b')
    /\ tile_grid_ b' = tile_grid_ (Board s)
    /\ tile_positions_ b' = tile_positions_ (Board s)
    /\ played_tiles_ b' = played_tiles_ (Board s)
    /\ covered_tiles_ b' = covered_tiles_ (Board s)
    /\ colour_influence_ b' kWhite = colour_influence_ (Board s) kWhite
    /\ colour_influence_ b' kBlack = colour_influence_ (Board s) kBlack
    /\ articulation_points_ b' = articulation_points_ (Board s)
    /\ last_moved_ b' = last_moved_ (Board s)
    /\ last_moved_from_ b' = last_moved_from_ (Board s)
    /\ largest_radius b'
       = Z.max (largest_radius (Board s))
               (hex_distance
                  (hex_neighbour (tile_positions_at (Board s) (to (ActionToMove action)))
                                 (direction (ActionToMove action))))
    /\ DoApplyAction s action = Some s'
    /\ Board s' = b'
    /\ force_terminal_ s' = true
    /\ IsTerminal s' = true
    /\ Returns s' = (0, 0).
Proof.
  intros Hs Hterm Hnp Hfrom Hto Hdir Hon Hoff.
  destruct (MoveTile_new_pos_cell (Board s) (ActionToMove action) Hs Hto Hdir Hon)
    as [Eq Er].
  assert (Ed : DistanceTo (MoveTile_new_pos (Board s) (ActionToMove action))
                          kOriginPosition
               = hex_distance (hex_neighbour
                                 (tile_positions_at (Board s) (to (ActionToMove action)))
                                 (direction (ActionToMove action)))).
  { destruct (hex_distance_bound _ _ Hon) as [Hq Hr].
    destruct Hs as [Hcap _]. unfold Radius, kMaxBoardRadius in *.
    destruct (hex_neighbour_near
                (tile_positions_at (Board s) (to (ActionToMove action)))
                (direction (ActionToMove action))) as (_ & Hq' & Hr').
    rewrite DistanceTo_origin_hex by (unfold int8_range; lia).
    unfold hex_distance. rewrite Eq, Er. reflexivity. }
  destruct (MoveTile_overflow_guard s action Hnp Hfrom ltac:(rewrite Ed; exact Hoff) Hterm)
    as (b' & s' & H).
  exists b', s'. rewrite <- Ed. exact H.
Qed.

Lemma MoveTile_overflow_witness :
  exists s', DoApplyAction line_state line_overflow_action = Some s'
             /\ largest_radius (Board s') = 9
             /\ force_terminal_ s' = true
             /\ IsTerminal s' = true
             /\ Returns s' = (0, 0).
Proof.
  destruct (MoveTile_overflow line_state line_overflow_action) as (b' & s' & H).
  - split; vm_compute; [discriminate | reflexivity].
  - vm_compute. reflexivity.
  - vm_compute. discriminate.
  - vm_compute. reflexivity.
  - vm_compute. reflexivity.
  - vm_compute. discriminate.
  - vm_compute. discriminate.
  - vm_compute. reflexivity.
  - decompose [and] H. exists s'. subst b'.
    split; [assumption|]. split; [|repeat split; assumption].
    match goal with
    | Hl : largest_radius (Board s') = _ |- _ => rewrite Hl
    end.
    vm_compute. reflexivity.
Defined.

(** ** The Queen on the fourth turn, by player *)

Lemma queen_of_player_colour (player : Z) :
  queen_of (PlayerToColour player) = queen_of_player player.
Proof.
  unfold PlayerToColour, queen_of_player, kPlayerWhite.
  destruct (player =? 0); reflexivity.
Qed.

(** C5 — in a state with move number 6 or 7 in which the Queen of the
    player to move has no recorded position yet, the generator returns
    placements of that Queen only (no movement is generated and every other
    tile is held back), so every legal action is the pass or decodes to a
    move of that Queen, from the hand. *)
Theorem queen_on_fourth_turn (s : HiveState) :
  move_number_ s = 6 \/ move_number_ s = 7 ->
  tile_positions_at (Board s) (queen_of_player (current_player_ s)) = kNullPosition ->
  exists moves actions,
    GenerateAllMoves (Board s) (PlayerToColour (current_player_ s))
                     (move_number_ s) = Some moves
    /\ (forall m, In m moves -> from m = queen_of_player (current_player_ s))
    /\ LegalActions s = Some actions
    /\ (forall a, In a actions ->
                  a = PassAction
                  \/ from (ActionToMove a) = queen_of_player (current_player_ s)).
Proof.
  intros Hn Hnull. rewrite <- queen_of_player_colour in *.
  assert (Hq : IsInPlay (Board s) (queen_of (PlayerToColour (current_player_ s)))
               = false).
  { unfold IsInPlay. rewrite Hnull, pos_eqb_refl. apply andb_false_r. }
  destruct (legal_actions_queen_only s Hn Hq) as (moves & actions & H1 & H2 & H3 & H4).
  exists moves, actions. repeat (split; [assumption|]).
  intros a Ha. destruct (H4 a Ha) as [E | [E _]]; auto.
Qed.

Lemma queen_on_fourth_turn_witness :
  exists moves actions,
    GenerateAllMoves (Board fourth_turn_state)
                     (PlayerToColour (current_player_ fourth_turn_state))
                     (move_number_ fourth_turn_state) = Some moves
    /\ (forall m, In m moves ->
                  from m = queen_of_player (current_player_ fourth_turn_state))
    /\ LegalActions fourth_turn_state = Some actions
    /\ (forall a, In a actions ->
                  a = PassAction
                  \/ from (ActionToMove a)
                     = queen_of_player (current_player_ fourth_turn_state)).
Proof.
  refine (queen_on_fourth_turn fourth_turn_state _ _).
  - left. vm_compute. reflexivity.
  - vm_compute. reflexivity.
Defined.

(** ** The One-Hive property *)

Lemma every_tile_In (t : NewHiveTile) : In t every_tile.
Proof. destruct t; vm_compute; tauto. Qed.

Lemma forallb_every_tile (f : NewHiveTile -> bool) :
  forallb f every_tile = true -> forall t, f t = true.
Proof. intros H t. rewrite forallb_forall in H. apply H, every_tile_In. Qed.

Lemma uncovered_tileb_spec (b : HexBoard) (t : NewHiveTile) :
  uncovered_tileb b t = true <-> uncovered_tile b t.
Proof.
  assert (Hex : forall l, existsb (tile_eqb t) l = true <-> In t l).
  { intros l. rewrite existsb_exists. split.
    - intros (x & Hx & E). apply tile_eqb_eq in E. subst x. exact Hx.
    - intros Hin. exists t. split; [exact Hin | apply tile_eqb_eq; reflexivity]. }
  unfold uncovered_tileb, uncovered_tile.
  rewrite andb_true_iff, negb_true_iff, Hex, <- (Hex (covered_tiles_ b)).
  destruct (existsb (tile_eqb t) (covered_tiles_ b)); intuition congruence.
Qed.

Lemma tiles_adjacentb_spec (b : HexBoard) (t u : NewHiveTile) :
  tiles_adjacentb b t u = true <-> tiles_adjacent b t u.
Proof.
  unfold tiles_adjacentb, tiles_adjacent.
  rewrite !andb_true_iff, !uncovered_tileb_spec, set_contains_In. tauto.
Qed.

Lemma connected_within_sound (b : HexBoard) (n : nat) :
  forall t u, connected_within n b t u = true -> hive_connected b t u.
Proof.
  induction n as [|n IH]; intros t u H; cbn [connected_within] in H;
    destruct (tile_eqb t u) eqn:E;
    try (apply tile_eqb_eq in E; subst u; constructor);
    try discriminate H.
  apply existsb_exists in H. destruct H as (v & _ & H).
  destruct (tiles_adjacentb b t v) eqn:Ha; [|discriminate H].
  apply hive_connected_step with v.
  - apply tiles_adjacentb_spec. exact Ha.
  - apply IH. exact H.
Qed.

Lemma OneHiveb_sound (b : HexBoard) : OneHiveb b = true -> OneHive b.
Proof.
  intros H t u Ht Hu.
  pose proof (forallb_every_tile _ (forallb_every_tile _ H t) u) as Htu.
  cbv beta in Htu.
  apply uncovered_tileb_spec in Ht. apply uncovered_tileb_spec in Hu.
  rewrite Ht, Hu in Htu. simpl in Htu.
  apply connected_within_sound with (1 := Htu).
Qed.

(** Connection never leaves a closed side. *)
Lemma closed_side_connected (b : HexBoard) (side : NewHiveTile -> bool) :
  closed_side b side = true ->
  forall t u, hive_connected b t u -> side t = true -> side u = true.
Proof.
  intros Hclosed t u Hc. induction Hc as [t | t u v Ha _ IH]; intros Hs.
  - exact Hs.
  - apply IH.
    pose proof (forallb_every_tile _ (forallb_every_tile _ Hclosed t) u) as Htu.
    cbv beta in Htu. apply tiles_adjacentb_spec in Ha. rewrite Hs, Ha in Htu.
    exact Htu.
Qed.

Lemma play_legal_reachable (g : HiveGame) (actions : list Z) :
  forall s s', reachable g s -> play_legal s actions = Some s' -> reachable g s'.
Proof.
  induction actions as [|a actions IH]; intros s s' Hs H; simpl in H.
  - injection H as <-. exact Hs.
  - destruct (IsTerminal s) eqn:Et; [discriminate|].
    destruct (LegalActions s) as [legal|] eqn:El; [|discriminate].
    destruct (existsb (Z.eqb a) legal) eqn:Ea; [|discriminate].
    destruct (ApplyAction s a) as [s1|] eqn:Ep; [|discriminate].
    apply IH with s1; [|exact H].
    apply existsb_exists in Ea. destruct Ea as (x & Hx & E).
    apply Z.eqb_eq in E. subst x.
    apply reachable_apply with s legal a; assumption.
Qed.

Lemma play_uhp_reachable (g : HiveGame) (moves : list string) (s : HiveState) :
  play_uhp g moves = Some s -> reachable g s.
Proof.
  unfold play_uhp. destruct (uhp_actions moves) as [actions|]; [|discriminate].
  apply play_legal_reachable. constructor.
Qed.

(** C1 — fails on the code. After five legal moves the hive is a row of
    five tiles with Black's Queen in play and White's still in hand; it is
    one hive. The articulation points were computed from the null position
    recorded for White's Queen, so no tile is pinned, and the legal actions
    of Black contain the jump of the Grasshopper from the middle of the row.
    Applying it leaves two tiles east of a gap and three west of it. *)
Theorem one_hive_broken_before_white_queen :
  reachable default_game split_state
  /\ IsTerminal split_state = false
  /\ IsInPlay (Board split_state) wQ = false
  /\ OneHive (Board split_state)
  /\ IsPinned (Board split_state) bG1 = false
  /\ (exists actions, LegalActions split_state = Some actions
                      /\ In split_action actions)
  /\ ApplyAction split_state split_action = Some split_result
  /\ ~ OneHive (Board split_result).
Proof.
  split. { refine (play_uhp_reachable default_game split_game split_state _).
    vm_compute. reflexivity. }
  split. { vm_compute. reflexivity. }
  split. { vm_compute. reflexivity. }
  split. { refine (OneHiveb_sound (Board split_state) _). vm_compute. reflexivity. }
  split. { vm_compute. reflexivity. }
  split.
  { destruct (LegalActions split_state) as [actions|] eqn:E.
    - exists actions. split; [reflexivity|].
      assert (Hb : existsb (Z.eqb split_action) actions = true).
      { revert E. vm_compute. intros [= <-]. reflexivity. }
      apply existsb_exists in Hb. destruct Hb as (x & Hx & Ex).
      apply Z.eqb_eq in Ex. subst x. exact Hx.
    - exfalso. revert E. vm_compute. discriminate. }
  split. { vm_compute. reflexivity. }
  intros Hone.
  assert (Hw : uncovered_tile (Board split_result) wG1).
  { refine (proj1 (uncovered_tileb_spec (Board split_result) wG1) _).
    vm_compute. reflexivity. }
  assert (Hq : uncovered_tile (Board split_result) bQ).
  { refine (proj1 (uncovered_tileb_spec (Board split_result) bQ) _).
    vm_compute. reflexivity. }
  pose proof (closed_side_connected (Board split_result)
                (west_side (Board split_result))) as Hside.
  assert (Hclosed : closed_side (Board split_result)
                                (west_side (Board split_result)) = true)
    by (vm_compute; reflexivity).
  specialize (Hside Hclosed wG1 bQ (Hone wG1 bQ Hw Hq)).
  assert (Hin : west_side (Board split_result) wG1 = true)
    by (vm_compute; reflexivity).
  specialize (Hside Hin). revert Hside. vm_compute. discriminate.
Qed.


(** * Further properties of the code *)

(** ** Returns and progress *)

(** X1 — the two returns always sum to [UtilitySum], each lies between
    [MinUtility] and [MaxUtility], and a state whose returns are not (0, 0)
    is terminal. *)
Theorem Returns_zero_sum (s : HiveState) :
  fst (Returns s) + snd (Returns s) = UtilitySum
  /\ MinUtility <= fst (Returns s) <= MaxUtility
  /\ MinUtility <= snd (Returns s) <= MaxUtility
  /\ (Returns s <> (0, 0) -> IsTerminal s = true).
Proof.
  unfold Returns, IsTerminal, UtilitySum, MinUtility, MaxUtility.
  destruct (WinConditionMet s kPlayerWhite), (WinConditionMet s kPlayerBlack);
    cbn; repeat split; try lia; try reflexivity; intros H; now elim H.
Qed.

Lemma WinConditionMet_spec (s : HiveState) (player : Z) :
  grid_sized (Board s) ->
  wf_pos (tile_positions_at (Board s) wQ) ->
  wf_pos (tile_positions_at (Board s) bQ) ->
  WinConditionMet s player = true
  <-> queen_enclosed (Board s) (OtherColour (PlayerToColour player)).
Proof.
  intros Hg Hw Hb. unfold WinConditionMet.
  apply IsQueenSurrounded_spec; [exact Hg|].
  destruct (OtherColour (PlayerToColour player)); assumption.
Qed.

Lemma not_true_false (x : bool) : ~ x = true -> x = false.
Proof. destruct x; [intros H; now elim H | reflexivity]. Qed.

(** X2 — at or beyond the move limit, with neither Queen enclosed, the state
    is terminal and its returns are (0, 0); the progress string is [Draw]
    beyond the limit but [InProgress] at exactly [MaxGameLength] moves:
    [IsTerminal] compares with [>=], [ProgressString] with [>]. *)
Theorem ProgressString_move_limit (s : HiveState) :
  grid_sized (Board s) ->
  wf_pos (tile_positions_at (Board s) wQ) ->
  wf_pos (tile_positions_at (Board s) bQ) ->
  ~ queen_enclosed (Board s) kWhite ->
  ~ queen_enclosed (Board s) kBlack ->
  MaxGameLength <= move_number_ s ->
  IsTerminal s = true
  /\ Returns s = (0, 0)
  /\ ProgressString s
     = if move_number_ s =? MaxGameLength then kUHPInProgress else kUHPDraw.
Proof.
  intros Hg Hw Hb Hnw Hnb Hn.
  assert (Ww : WinConditionMet s kPlayerWhite = false).
  { apply not_true_false. intros H.
    apply (WinConditionMet_spec s kPlayerWhite Hg Hw Hb) in H. exact (Hnb H). }
  assert (Wb : WinConditionMet s kPlayerBlack = false).
  { apply not_true_false. intros H.
    apply (WinConditionMet_spec s kPlayerBlack Hg Hw Hb) in H. exact (Hnw H). }
  unfold IsTerminal, Returns, ProgressString, MoveNumber. rewrite Ww, Wb. cbn [orb xorb andb].
  assert (E1 : (move_number_ s >=? MaxGameLength) = true).
  { rewrite Z.geb_leb. apply Z.leb_le. exact Hn. }
  rewrite E1. repeat split.
  assert (E0 : (move_number_ s =? 0) = false).
  { apply Z.eqb_neq. unfold MaxGameLength in Hn. lia. }
  rewrite E0.
  destruct (move_number_ s =? MaxGameLength) eqn:E.
  - apply Z.eqb_eq in E. rewrite E. reflexivity.
  - apply Z.eqb_neq in E.
    assert (E2 : (move_number_ s >? MaxGameLength) = true).
    { rewrite Z.gtb_ltb. apply Z.ltb_lt. lia. }
    rewrite E2. reflexivity.
Qed.

Lemma ProgressString_move_limit_witness :
  IsTerminal (state_at_move 1000) = true
  /\ Returns (state_at_move 1000) = (0, 0)
  /\ ProgressString (state_at_move 1000) = kUHPInProgress.
Proof.
  refine (ProgressString_move_limit (state_at_move 1000) _ _ _ _ _ _).
  - vm_compute. split; [intros H; discriminate H | reflexivity].
  - vm_compute. repeat split; intros H; discriminate H.
  - vm_compute. repeat split; intros H; discriminate H.
  - intros [H _]. apply H. reflexivity.
  - intros [H _]. apply H. reflexivity.
  - vm_compute. intros H; discriminate H.
Defined.

(** X3 — from the first move up to the move limit the progress string and
    the returns agree: [WhiteWins] goes with (1, -1), [BlackWins] with
    (-1, 1), and [Draw] or [InProgress] with (0, 0). *)
Theorem ProgressString_agrees_with_Returns (s : HiveState) :
  0 < move_number_ s <= MaxGameLength ->
  (ProgressString s = kUHPWhiteWins <-> Returns s = (1, -1))
  /\ (ProgressString s = kUHPBlackWins <-> Returns s = (-1, 1))
  /\ (ProgressString s = kUHPDraw \/ ProgressString s = kUHPInProgress
      <-> Returns s = (0, 0)).
Proof.
  intros [H0 H1]. unfold ProgressString, Returns.
  assert (E0 : (move_number_ s =? 0) = false) by (apply Z.eqb_neq; lia).
  assert (E1 : (move_number_ s >? MaxGameLength) = false).
  { rewrite Z.gtb_ltb. apply Z.ltb_ge. lia. }
  rewrite E0, E1.
  destruct (WinConditionMet s kPlayerWhite), (WinConditionMet s kPlayerBlack);
    cbn; repeat split; intros H; try discriminate H; try reflexivity;
    try (destruct H as [H | H]; discriminate H); auto.
Qed.

Lemma ProgressString_agrees_with_Returns_witness :
  (ProgressString decided_state = kUHPWhiteWins <-> Returns decided_state = (1, -1))
  /\ (ProgressString decided_state = kUHPBlackWins <-> Returns decided_state = (-1, 1))
  /\ (ProgressString decided_state = kUHPDraw \/ ProgressString decided_state = kUHPInProgress
      <-> Returns decided_state = (0, 0)).
Proof.
  apply (ProgressString_agrees_with_Returns decided_state).
  vm_compute. split; [reflexivity | intros H; discriminate H].
Defined.

(** ** Round trips of the encodings *)

(** X4 — encoding the move decoded from an action id gives the id back, for
    every id of the action space, the pass included. *)
Theorem MoveToAction_ActionToMove (a : Z) :
  0 <= a <= PassAction -> MoveToAction (ActionToMove a) = a.
Proof.
  intros Ha. apply Z.eqb_eq. revert a Ha.
  apply (actions_upto_forall (fun a => MoveToAction (ActionToMove a) =? a)).
  vm_compute. reflexivity.
Qed.

Lemma MoveToAction_ActionToMove_witness :
  MoveToAction (ActionToMove 300) = 300.
Proof. apply (MoveToAction_ActionToMove 300). vm_compute. split; intros H; discriminate H. Defined.

Lemma move_eqb_eq (m1 m2 : Move) : move_eqb m1 m2 = true -> m1 = m2.
Proof.
  destruct m1 as [f1 t1 d1], m2 as [f2 t2 d2]. unfold move_eqb. cbn [from to direction].
  rewrite !andb_true_iff. intros [[Hf Ht] Hd].
  apply tile_eqb_eq in Hf. apply tile_eqb_eq in Ht. apply Direction_eqb_eq in Hd.
  congruence.
Qed.

Lemma all_directions_In (d : Direction) : In d all_directions.
Proof. destruct d; cbn; tauto. Qed.

Lemma HasValue_named (t : NewHiveTile) : t <> kNoneTile -> HasValue t = true.
Proof. destruct t; intros H; try reflexivity. now elim H. Qed.

Lemma decode_encode_form (m : Move) :
  HasValue (from m) = true ->
  direction m <> kNumAllDirections ->
  ActionToMove (MoveToAction m) = decoded_form m.
Proof.
  intros Hf Hd.
  assert (G : forallb (fun f => forallb (fun t => forallb (fun d =>
                decode_encode_ok (MkMove f t d)) all_directions) every_tile)
                every_tile = true) by (vm_compute; reflexivity).
  destruct m as [f t d].
  rewrite forallb_forall in G. specialize (G f (every_tile_In f)).
  rewrite forallb_forall in G. specialize (G t (every_tile_In t)).
  rewrite forallb_forall in G. specialize (G d (all_directions_In d)).
  unfold decode_encode_ok in G. cbn [from to direction] in *.
  rewrite Hf in G.
  assert (E : Direction_eqb d kNumAllDirections = false).
  { destruct (Direction_eqb d kNumAllDirections) eqn:E; [| reflexivity].
    apply Direction_eqb_eq in E. contradiction. }
  rewrite E in G. cbn [andb negb] in G.
  apply move_eqb_eq in G. exact G.
Qed.

(** X5 — decoding the action id of a move of a tile in a direction other
    than [kNumAllDirections] gives the move back when it names a reference
    tile, unless it puts the tile above itself; a move without reference
    tile and a move of a tile above itself both decode to the opening form
    (tile, none, [kAbove]), so the two share one action id. *)
Theorem ActionToMove_MoveToAction (m : Move) :
  from m <> kNoneTile ->
  direction m <> kNumAllDirections ->
  (to m = kNoneTile \/ (to m = from m /\ direction m = kAbove) ->
   ActionToMove (MoveToAction m) = MkMove (from m) kNoneTile kAbove)
  /\ (to m <> kNoneTile -> ~ (to m = from m /\ direction m = kAbove) ->
      ActionToMove (MoveToAction m) = m).
Proof.
  intros Hf Hd.
  pose proof (decode_encode_form m (HasValue_named _ Hf) Hd) as E.
  rewrite E. unfold decoded_form. split.
  - intros [Ht | [Ht Hdir]].
    + rewrite Ht. reflexivity.
    + rewrite Ht, Hdir.
      rewrite (proj2 (tile_eqb_eq (from m) (from m)) eq_refl).
      rewrite andb_false_r. reflexivity.
  - intros Ht Hn. rewrite (HasValue_named _ Ht). cbn [andb].
    destruct (tile_eqb (from m) (to m)) eqn:E1; [| reflexivity].
    destruct (Direction_eqb (direction m) kAbove) eqn:E2; [| reflexivity].
    apply tile_eqb_eq in E1. apply Direction_eqb_eq in E2.
    exfalso. apply Hn. split; [symmetry; exact E1 | exact E2].
Qed.

Lemma ActionToMove_MoveToAction_witness :
  ActionToMove (MoveToAction (MkMove wB1 wB1 kAbove)) = MkMove wB1 kNoneTile kAbove.
Proof.
  refine (proj1 (ActionToMove_MoveToAction (MkMove wB1 wB1 kAbove) _ _) _).
  - intros H; discriminate H.
  - intros H; discriminate H.
  - right. split; reflexivity.
Defined.

(** X6 — [UHPToTile] and [ToUHP] are inverse to each other: a string parses
    to a tile exactly when the tile has a value and is rendered as that
    string; on any other string [UHPToTile] aborts. *)
Theorem tile_uhp_names (t : NewHiveTile) (uhp : string) :
  (HasValue t = true /\ Tile_ToUHP t = Some uhp) <-> UHPToTile uhp = Some t.
Proof.
  split.
  - intros [Hv H].
    destruct t; try discriminate Hv; vm_compute in H; injection H as <-;
      vm_compute; reflexivity.
  - unfold UHPToTile. intros H.
    destruct (find (fun e => String.eqb (fst e) uhp) UHPToTile_mapping)
      as [[name tile] |] eqn:F; [| discriminate H].
    injection H as ->.
    apply find_some in F. destruct F as [Hin E]. cbn [fst] in E.
    apply String.eqb_eq in E. subst name.
    unfold UHPToTile_mapping in Hin. cbn [In] in Hin.
    repeat (destruct Hin as [Hin | Hin];
            [injection Hin as <- <-; split; vm_compute; reflexivity |]).
    destruct Hin.
Qed.

Lemma existsb_tile_In (t : NewHiveTile) (l : list NewHiveTile) :
  existsb (tile_eqb t) l = true <-> In t l.
Proof.
  rewrite existsb_exists. split.
  - intros [x [Hin E]]. apply tile_eqb_eq in E. subst x. exact Hin.
  - intros Hin. exists t. split; [exact Hin | apply tile_eqb_eq; reflexivity].
Qed.

(** X7 — a tile with a value has a colour, is listed by [GetTilesForColour]
    for that colour only, has an ordinal between 1 and the count of its bug
    type, and is the tile [GetTileFrom] builds from its colour, bug type and
    ordinal. *)
Theorem tile_identity (t : NewHiveTile) :
  HasValue t = true ->
  exists c,
    GetColour t = Some c
    /\ In t (GetTilesForColour c)
    /\ ~ In t (GetTilesForColour (OtherColour c))
    /\ 1 <= GetOrdinal t <= kBugCounts (GetBugType t)
    /\ GetTileFrom c (GetBugType t) (GetOrdinal t) = t.
Proof.
  intros Hv.
  exists (if tile_value t <? tile_value bQ then kWhite else kBlack).
  rewrite <- !existsb_tile_In.
  destruct t; try discriminate Hv; vm_compute;
    repeat split; intros H; discriminate H.
Qed.

Lemma tile_identity_witness :
  exists c,
    GetColour bG3 = Some c
    /\ In bG3 (GetTilesForColour c)
    /\ ~ In bG3 (GetTilesForColour (OtherColour c))
    /\ 1 <= GetOrdinal bG3 <= kBugCounts (GetBugType bG3)
    /\ GetTileFrom c (GetBugType bG3) (GetOrdinal bG3) = bG3.
Proof. apply (tile_identity bG3). reflexivity. Defined.

(** X8 — on the six cardinal directions [OppositeDirection] is an
    involution, the clockwise and counter-clockwise turns undo each other,
    three clockwise turns give the opposite direction, and all three stay
    within the cardinal directions. *)
Theorem direction_turns (d : Direction) :
  In d cardinal_directions ->
  OppositeDirection (OppositeDirection d) = d
  /\ ClockwiseDirection (CounterClockwiseDirection d) = d
  /\ CounterClockwiseDirection (ClockwiseDirection d) = d
  /\ ClockwiseDirection (ClockwiseDirection (ClockwiseDirection d))
     = OppositeDirection d
  /\ In (OppositeDirection d) cardinal_directions
  /\ In (ClockwiseDirection d) cardinal_directions
  /\ In (CounterClockwiseDirection d) cardinal_directions.
Proof.
  intros H. cbn in H.
  repeat (destruct H as [<- | H]; [vm_compute; tauto |]). destruct H.
Qed.

Lemma direction_turns_witness :
  OppositeDirection (OppositeDirection kNW) = kNW
  /\ ClockwiseDirection (CounterClockwiseDirection kNW) = kNW
  /\ CounterClockwiseDirection (ClockwiseDirection kNW) = kNW
  /\ ClockwiseDirection (ClockwiseDirection (ClockwiseDirection kNW))
     = OppositeDirection kNW
  /\ In (OppositeDirection kNW) cardinal_directions
  /\ In (ClockwiseDirection kNW) cardinal_directions
  /\ In (CounterClockwiseDirection kNW) cardinal_directions.
Proof. apply (direction_turns kNW). cbn. tauto. Defined.

Lemma int8_sub_back (x y : Z) : int8_range x -> int8 (int8 (x + y) - x) = int8 y.
Proof.
  intros _. unfold int8.
  f_equal.
  replace ((x + y + 128) mod 256 - 128 - x + 128) with ((x + y + 128) mod 256 - x) by lia.
  rewrite Zminus_mod_idemp_l. f_equal. lia.
Qed.

(** X9 — [Neighbours] lists the grounded cells reached by [NeighbourAt] in
    the six cardinal directions; each lies at distance 1 from the position,
    differs from it, and the step in the opposite direction leads back, also
    where the [int8_t] coordinates wrap around. *)
Theorem neighbours_one_step (p : HivePosition) :
  wf_pos p ->
  Neighbours p = map (fun d => Grounded (NeighbourAt p d)) cardinal_directions
  /\ forall d, In d cardinal_directions ->
       DistanceTo (NeighbourAt p d) p = 1
       /\ DistanceTo p (NeighbourAt p d) = 1
       /\ NeighbourAt p d <> p
       /\ NeighbourAt (NeighbourAt p d) (OppositeDirection d) = p.
Proof.
  intros Hwf. split.
  - unfold Neighbours, NeighbourAt, pos_add, Grounded. cbn.
    rewrite !Z.add_0_r.
    replace (q_ p + -1) with (q_ p - 1) by lia.
    replace (r_ p + -1) with (r_ p - 1) by lia.
    reflexivity.
  - intros d Hd. repeat split.
    + unfold DistanceTo, NeighbourAt, pos_sub, pos_add. cbn [q_ r_ h_].
      destruct Hwf as (Hq & Hr & Hh).
      rewrite !int8_sub_back by assumption.
      cbn in Hd.
      repeat (destruct Hd as [<- | Hd]; [vm_compute; reflexivity |]). destruct Hd.
    + unfold DistanceTo, NeighbourAt, pos_sub, pos_add. cbn [q_ r_ h_].
      destruct Hwf as (Hq & Hr & Hh).
      assert (E : forall x y, int8 (x - int8 (x + y)) = int8 (- y)).
      { intros x y. unfold int8. f_equal.
        replace (x - ((x + y + 128) mod 256 - 128) + 128)
          with (x + 256 - (x + y + 128) mod 256) by lia.
        rewrite Zminus_mod_idemp_r. f_equal. lia. }
      rewrite !E.
      cbn in Hd.
      repeat (destruct Hd as [<- | Hd]; [vm_compute; reflexivity |]). destruct Hd.
    + apply pos_add_offset_neq. exact Hd.
    + apply pos_add_offset_back; assumption.
Qed.

Lemma neighbours_one_step_witness :
  Neighbours (MkPos 127 (-128) 0)
  = map (fun d => Grounded (NeighbourAt (MkPos 127 (-128) 0) d)) cardinal_directions
  /\ forall d, In d cardinal_directions ->
       DistanceTo (NeighbourAt (MkPos 127 (-128) 0) d) (MkPos 127 (-128) 0) = 1
       /\ DistanceTo (MkPos 127 (-128) 0) (NeighbourAt (MkPos 127 (-128) 0) d) = 1
       /\ NeighbourAt (MkPos 127 (-128) 0) d <> MkPos 127 (-128) 0
       /\ NeighbourAt (NeighbourAt (MkPos 127 (-128) 0) d) (OppositeDirection d)
          = MkPos 127 (-128) 0.
Proof.
  apply (neighbours_one_step (MkPos 127 (-128) 0)).
  unfold wf_pos, int8_range. cbn. lia.
Defined.

(** ** Shape of the legal actions, tiles that may not move *)





Lemma IsPinned_In (b : HexBoard) (tile : NewHiveTile) :
  HasValue tile = true ->
  In (tile_positions_at b tile) (articulation_points_ b) ->
  IsPinned b tile = true.
Proof.
  intros Hv Hin. unfold IsPinned, IsPinned_pos. rewrite Hv. cbn [andb].
  apply set_contains_In. exact Hin.
Qed.

Lemma IsCovered_In (b : HexBoard) (tile : NewHiveTile) :
  HasValue tile = true -> In tile (covered_tiles_ b) -> IsCovered b tile = true.
Proof.
  intros Hv Hin. unfold IsCovered. rewrite Hv. cbn [andb].
  apply existsb_exists. exists tile. split; [exact Hin | apply tile_eqb_eq; reflexivity].
Qed.

(** X11 — for a tile whose recorded position is an articulation point,
    [GenerateMovesFor] yields no move when it acts as Queen, Ant,
    Grasshopper, Spider, Beetle or Ladybug. *)
Theorem pinned_tile_immobile (b : HexBoard) (tile : NewHiveTile)
        (acting_type : BugType) (to_move : Colour) :
  HasValue tile = true ->
  In (tile_positions_at b tile) (articulation_points_ b) ->
  In acting_type [kQueen; kAnt; kGrasshopper; kSpider; kBeetle; kLadybug] ->
  GenerateMovesFor b tile acting_type to_move = Some [].
Proof.
  intros Hv Hin Ht. pose proof (IsPinned_In b tile Hv Hin) as Hp.
  cbn [In] in Ht.
  repeat (destruct Ht as [<- | Ht];
          [ unfold GenerateMovesFor, GenerateMovesFor_acting, GenerateValidSlides,
              GenerateValidGrasshopperPositions, GenerateValidClimbs,
              GenerateValidLadybugPositions;
            rewrite Hp; cbn [orb];
            try destruct (h_ (tile_positions_at b tile) =? 0); reflexivity |]).
  destruct Ht.
Qed.

(** X12 — for a tile listed among the covered tiles [GenerateMovesFor]
    yields no move, whatever the bug type it acts as (the Pillbug's special
    and the Mosquito included). *)
Theorem covered_tile_immobile (b : HexBoard) (tile : NewHiveTile)
        (acting_type : BugType) (to_move : Colour) :
  HasValue tile = true ->
  In tile (covered_tiles_ b) ->
  GenerateMovesFor b tile acting_type to_move = Some [].
Proof.
  intros Hv Hin. pose proof (IsCovered_In b tile Hv Hin) as Hc.
  destruct acting_type;
    unfold GenerateMovesFor, GenerateValidMosquitoPositions, GenerateMovesFor_acting,
      GenerateValidSlides, GenerateValidGrasshopperPositions, GenerateValidClimbs,
      GenerateValidLadybugPositions, GenerateValidPillbugSpecials;
    rewrite ?Hc, ?orb_true_r;
    try destruct (h_ (tile_positions_at b tile) =? 0); reflexivity.
Qed.

Lemma pinned_tile_immobile_witness :
  GenerateMovesFor (Board climb_state) bQ kQueen kBlack = Some [].
Proof.
  apply (pinned_tile_immobile (Board climb_state) bQ kQueen kBlack).
  - reflexivity.
  - vm_compute. tauto.
  - cbn. tauto.
Defined.

Lemma covered_tile_immobile_witness :
  GenerateMovesFor (Board climb_state) wQ kQueen kWhite = Some [].
Proof.
  apply (covered_tile_immobile (Board climb_state) wQ kQueen kWhite).
  - reflexivity.
  - vm_compute. tauto.
Defined.

Lemma reference_moves_from (b : HexBoard) (tile : NewHiveTile)
      (start_pos : HivePosition) (positions : PosSet) (m : Move) :
  In m (reference_moves b tile start_pos positions) -> from m = tile.
Proof.
  unfold reference_moves. intros H.
  apply in_flat_map in H. destruct H as [to_pos [_ H]].
  destruct (h_ to_pos >? 0).
  - destruct H as [<- | []]. reflexivity.
  - apply in_flat_map in H. destruct H as [dir [_ H]].
    destruct (HasValue _); [| destruct H].
    destruct (_ && _).
    + destruct H as [<- | []]. reflexivity.
    + destruct (negb _); [| destruct H]. destruct H as [<- | []]. reflexivity.
Qed.

Lemma GenerateValidPillbugSpecials_from (b : HexBoard) (tile : NewHiveTile)
      (start_pos : HivePosition) (m : Move) :
  In m (GenerateValidPillbugSpecials b tile start_pos) ->
  from m <> last_moved_ b.
Proof.
  unfold GenerateValidPillbugSpecials. intros H.
  destruct (IsCovered b tile); [destruct H |].
  apply in_flat_map in H. destruct H as [target [Ht H]].
  apply in_flat_map in H. destruct H as [pos [_ H]].
  apply in_flat_map in H. destruct H as [dir [_ H]].
  destruct (_ && _); [| destruct H]. destruct H as [<- | []]. cbn [from].
  apply in_flat_map in Ht. destruct Ht as [d [_ Ht]].
  destruct (HasValue _); [| destruct Ht].
  destruct (_ && _) eqn:E; [| destruct Ht]. destruct Ht as [<- | []].
  rewrite !andb_true_iff in E. destruct E as [[[_ _] E] _].
  unfold LastMovedTile in E. intros Heq. rewrite Heq in E.
  assert (T : tile_eqb (last_moved_ b) (last_moved_ b) = true)
    by (apply tile_eqb_eq; reflexivity).
  rewrite T in E. discriminate E.
Qed.

Lemma GenerateMovesFor_acting_from (b : HexBoard) (tile : NewHiveTile)
      (acting_type : BugType) (moves : list Move) (m : Move) :
  GenerateMovesFor_acting b tile acting_type = Some moves ->
  In m moves ->
  from m = tile \/ from m <> last_moved_ b.
Proof.
  unfold GenerateMovesFor_acting. intros H Hin.
  match type of H with
  | (let? x := ?e in _) = _ => destruct e as [[positions specials] |] eqn:E
  end; [| discriminate H].
  cbn in H. injection H as <-.
  apply in_app_or in Hin. destruct Hin as [Hin | Hin].
  - right.
    destruct acting_type;
      try (match type of E with
           | (let? s := ?e in _) = _ => destruct e; [| discriminate E]
           | (if ?c then _ else _) = _ =>
               destruct c;
               try match type of E with
                   | (let? s := ?e in _) = _ => destruct e; [| discriminate E]
                   end
           | _ => idtac
           end);
      cbn in E; injection E as <- <-; try (now destruct Hin).
    eapply GenerateValidPillbugSpecials_from. exact Hin.
  - left. eapply reference_moves_from. exact Hin.
Qed.

Lemma GenerateMovesFor_from (b : HexBoard) (tile : NewHiveTile)
      (acting_type : BugType) (to_move : Colour) (moves : list Move) (m : Move) :
  GenerateMovesFor b tile acting_type to_move = Some moves ->
  In m moves ->
  from m = tile \/ from m <> last_moved_ b.
Proof.
  intros H Hin.
  assert (A : forall ty ms, GenerateMovesFor_acting b tile ty = Some ms ->
                            In m ms -> from m = tile \/ from m <> last_moved_ b).
  { intros ty ms. apply GenerateMovesFor_acting_from. }
  destruct acting_type; try (exact (A _ _ H Hin)).
  unfold GenerateMovesFor, GenerateValidMosquitoPositions in H.
  destruct (IsCovered b tile).
  { injection H as <-. destruct Hin. }
  destruct (h_ (tile_positions_at b tile) >? 0).
  { exact (A _ _ H Hin). }
  match type of H with
  | (let? x := fold_left ?f _ _ in _) = _ =>
      assert (G : forall l acc seen out,
                 fold_left f l acc = Some (seen, out) ->
                 (forall seen0 out0, acc = Some (seen0, out0) ->
                    forall m, In m out0 -> from m = tile \/ from m <> last_moved_ b) ->
                 forall m, In m out -> from m = tile \/ from m <> last_moved_ b)
  end.
  { clear H Hin m A. induction l as [| n l IH]; intros acc seen out Hf Hacc m Hm.
    - cbn in Hf. exact (Hacc _ _ Hf m Hm).
    - cbn [fold_left] in Hf. eapply IH; [exact Hf | | exact Hm].
      intros seen0 out0 E m0 Hm0.
      destruct acc as [[s0 o0] |]; [| discriminate E].
      cbn in E.
      destruct (existsb _ s0).
      { injection E as <- <-. exact (Hacc _ _ eq_refl m0 Hm0). }
      destruct (BugType_eqb (GetBugType n) kMosquito).
      { injection E as <- <-. exact (Hacc _ _ eq_refl m0 Hm0). }
      destruct (_ && _).
      { injection E as <- <-. exact (Hacc _ _ eq_refl m0 Hm0). }
      destruct (GenerateMovesFor_acting b tile (GetBugType n)) as [ms |] eqn:Ea;
        [| discriminate E].
      cbn in E. injection E as <- <-.
      apply in_app_or in Hm0. destruct Hm0 as [Hm0 | Hm0].
      + exact (Hacc _ _ eq_refl m0 Hm0).
      + exact (GenerateMovesFor_acting_from _ _ _ _ _ Ea Hm0). }
  match type of H with
  | (let? x := ?e in _) = _ => destruct e as [[seen out] |] eqn:Ef
  end; [| discriminate H].
  cbn in H. injection H as <-.
  eapply G; [exact Ef | | exact Hin].
  intros seen0 out0 E m0 Hm0. injection E as <- <-. destruct Hm0.
Qed.

Lemma GetTilesForColour_HasValue (c : Colour) (t : NewHiveTile) :
  In t (GetTilesForColour c) -> HasValue t = true.
Proof.
  destruct c; cbn; intros H;
    repeat (destruct H as [<- | H]; [reflexivity |]); destruct H.
Qed.

Lemma GetColour_HasValue (t : NewHiveTile) (c : Colour) :
  GetColour t = Some c -> HasValue t = true.
Proof. destruct t; cbn; intros H; try reflexivity; discriminate H. Qed.

Lemma GeneratePlacementMoves_from (b : HexBoard) (c : Colour) (n : Z)
      (moves : list Move) (m : Move) :
  2 <= n ->
  GeneratePlacementMoves b c n = Some moves ->
  In m moves ->
  HasValue (from m) = true /\ tile_positions_at b (from m) = kNullPosition.
Proof.
  intros Hn H Hin. unfold GeneratePlacementMoves in H.
  remember cardinal_directions as dirs eqn:Edirs in H. clear Edirs.
  replace (n =? 0) with false in H by (symmetry; apply Z.eqb_neq; lia).
  replace (n =? 1) with false in H by (symmetry; apply Z.eqb_neq; lia).
  injection H as <-.
  apply in_flat_map in Hin. destruct Hin as [tile [Ht Hin]].
  destruct (IsInPlay b tile) eqn:Ep; [destruct Hin |].
  destruct (_ && _); [destruct Hin |].
  apply in_flat_map in Hin. destruct Hin as [pos [_ Hin]].
  destruct (HasValue (GetTopTileAt b pos)); [destruct Hin |].
  destruct (set_contains _ pos); [destruct Hin |].
  apply in_flat_map in Hin. destruct Hin as [i [_ Hin]].
  destruct (HasValue _); [| destruct Hin].
  destruct Hin as [<- | []]. cbn [from].
  pose proof (GetTilesForColour_HasValue c tile Ht) as Hv.
  split; [exact Hv |].
  unfold IsInPlay in Ep. rewrite Hv in Ep. cbn [andb] in Ep.
  apply negb_false_iff in Ep. apply pos_eqb_eq in Ep. exact Ep.
Qed.

(** X13 — from the third move of the game on, when the tile moved last is
    in play (or there is none, after a pass), no move [GenerateAllMoves]
    emits moves that tile: neither its own moves, nor a placement, nor a
    Pillbug special of any tile. *)
Theorem last_moved_tile_rests (b : HexBoard) (to_move : Colour) (n : Z)
        (moves : list Move) :
  GenerateAllMoves b to_move n = Some moves ->
  2 <= n ->
  last_moved_ b = kNoneTile
  \/ tile_positions_at b (last_moved_ b) <> kNullPosition ->
  forall m, In m moves -> from m <> last_moved_ b.
Proof.
  intros H Hn Hl. unfold GenerateAllMoves in H.
  destruct (GeneratePlacementMoves b to_move n) as [placements |] eqn:Ep;
    [| discriminate H].
  cbn in H.
  assert (P : forall m, In m placements -> from m <> last_moved_ b).
  { intros m Hm Heq.
    destruct (GeneratePlacementMoves_from b to_move n placements m Hn Ep Hm) as [Hv Hp].
    rewrite Heq in Hv, Hp.
    destruct Hl as [Hl | Hl]; [rewrite Hl in Hv; discriminate Hv | exact (Hl Hp)]. }
  destruct (IsInPlay_type b to_move kQueen 1); [| injection H as <-; exact P].
  clear Ep.
  revert placements P H.
  induction (played_tiles_ b) as [| tile tiles IH]; intros out P H.
  - cbn in H. injection H as <-. exact P.
  - cbn [fold_left] in H.
    destruct (GetColour tile) as [colour |] eqn:Ec.
    2:{ exfalso. clear - H. cbn in H.
        induction tiles as [| t ts IHt]; [discriminate H | exact (IHt H)]. }
    cbn in H.
    destruct (Colour_eqb colour to_move && negb (tile_eqb tile (last_moved_ b))) eqn:Ecl.
    + destruct (GenerateMovesFor b tile (GetBugType tile) to_move) as [ms |] eqn:Eg.
      2:{ exfalso. clear - H. cbn in H.
          induction tiles as [| t ts IHt]; [discriminate H | exact (IHt H)]. }
      cbn in H. apply (IH (out ++ ms)); [| exact H].
      intros m Hm. apply in_app_or in Hm. destruct Hm as [Hm | Hm]; [exact (P m Hm) |].
      destruct (GenerateMovesFor_from b tile _ to_move ms m Eg Hm) as [Ef | Ef];
        [| exact Ef].
      rewrite Ef. apply andb_true_iff in Ecl. destruct Ecl as [_ Ecl].
      apply negb_true_iff in Ecl. intros Heq. rewrite Heq in Ecl.
      assert (T : tile_eqb (last_moved_ b) (last_moved_ b) = true)
        by (apply tile_eqb_eq; reflexivity).
      rewrite T in Ecl. discriminate Ecl.
    + apply (IH out); [exact P | exact H].
Qed.

Lemma last_moved_tile_rests_witness :
  exists moves,
    GenerateAllMoves (Board spider_state) kWhite 22 = Some moves
    /\ forall m, In m moves -> from m <> last_moved_ (Board spider_state).
Proof.
  assert (E : exists moves,
             GenerateAllMoves (Board spider_state) kWhite 22 = Some moves)
    by (vm_compute; eexists; reflexivity).
  destruct E as [moves E]. exists moves. split; [exact E |].
  refine (last_moved_tile_rests (Board spider_state) kWhite 22 moves E _ _).
  - intros H; discriminate H.
  - right. vm_compute. intros H; discriminate H.
Defined.

(** X14 — [DoApplyAction] hands the turn to the other player, whether the
    action is a pass, a move that succeeds or one that fails, and leaves
    history, move number and game alone; a pass clears the last-moved tile
    and changes neither the grid, nor the recorded positions, nor the
    forced-terminal flag. *)
Theorem DoApplyAction_alternates (s s' : HiveState) (action : Z) :
  DoApplyAction s action = Some s' ->
  current_player_ s = kPlayerWhite \/ current_player_ s = kPlayerBlack ->
  current_player_ s' = 1 - current_player_ s
  /\ PlayerToColour (current_player_ s')
     = OtherColour (PlayerToColour (current_player_ s))
  /\ history_ s' = history_ s
  /\ move_number_ s' = move_number_ s
  /\ game_ s' = game_ s
  /\ (action = PassAction ->
      last_moved_ (Board s') = kNoneTile
      /\ tile_grid_ (Board s') = tile_grid_ (Board s)
      /\ tile_positions_ (Board s') = tile_positions_ (Board s)
      /\ force_terminal_ s' = force_terminal_ s).
Proof.
  unfold DoApplyAction. intros H Hp.
  destruct (action =? PassAction) eqn:Ea.
  - cbn in H. injection H as <-. cbn.
    destruct Hp as [-> | ->]; cbn; repeat split; reflexivity.
  - destruct (MoveTile (Board s) (ActionToMove action)) as [[ok b'] |];
      [| discriminate H].
    cbn in H. injection H as <-.
    assert (N : action <> PassAction) by (apply Z.eqb_neq; exact Ea).
    destruct ok; cbn; destruct Hp as [-> | ->]; cbn;
      repeat (split; [reflexivity |]); intros Hx; contradiction.
Qed.

Lemma DoApplyAction_alternates_witness :
  exists s',
    DoApplyAction opening_state PassAction = Some s'
    /\ current_player_ s' = 1 - current_player_ opening_state.
Proof.
  destruct (DoApplyAction opening_state PassAction) as [s' |] eqn:E.
  - exists s'. split; [reflexivity |].
    refine (proj1 (DoApplyAction_alternates opening_state s' PassAction E _)).
    right. reflexivity.
  - vm_compute in E. discriminate E.
Defined.

(** ** Placing a tile *)

Lemma vector_set_nth {A : Type} (l l' : list A) (i : Z) (x d : A) :
  vector_set l i x = Some l' ->
  nth (Z.to_nat i) l' d = x
  /\ forall j, j <> Z.to_nat i -> nth j l' d = nth j l d.
Proof.
  unfold vector_set.
  destruct ((0 <=? i) && (i <? Z.of_nat (List.length l))) eqn:E; [| discriminate].
  apply andb_true_iff in E. destruct E as [E1 E2].
  apply Z.leb_le in E1. apply Z.ltb_lt in E2.
  intros H.
  replace l' with (firstn (Z.to_nat i) l ++ x :: skipn (S (Z.to_nat i)) l)
    by congruence.
  clear H.
  assert (Hlen : (Z.to_nat i < List.length l)%nat) by lia.
  assert (Hf : List.length (firstn (Z.to_nat i) l) = Z.to_nat i).
  { rewrite length_firstn. lia. }
  split.
  - rewrite app_nth2 by lia. rewrite Hf, Nat.sub_diag. reflexivity.
  - intros j Hj.
    destruct (Nat.lt_ge_cases j (Z.to_nat i)) as [Hlt | Hge].
    + rewrite app_nth1 by lia. rewrite nth_firstn.
      replace (j <? Z.to_nat i)%nat with true by (symmetry; apply Nat.ltb_lt; lia).
      reflexivity.
    + rewrite app_nth2 by lia. rewrite Hf.
      destruct (j - Z.to_nat i)%nat as [| k] eqn:Ek; [lia |].
      cbn [nth]. rewrite nth_skipn. f_equal. lia.
Qed.

Lemma UpdateInfluence_shape (b b' : HexBoard) (c : Colour) :
  UpdateInfluence b c = Some b' ->
  exists s, b' = with_colour_influence b c s.
Proof.
  unfold UpdateInfluence.
  match goal with
  | |- context [fold_left ?f ?l ?a] => destruct (fold_left f l a) as [s |]
  end; [| discriminate].
  intros [= <-]. exists s. reflexivity.
Qed.

Lemma UpdateArticulationPoints_shape (b b' : HexBoard) :
  UpdateArticulationPoints b = Some b' ->
  exists s, b' = with_articulation_points b s.
Proof.
  unfold UpdateArticulationPoints.
  destruct (ap_dfs _ b _ _ _ _) as [st |]; [| discriminate].
  intros [= <-]. exists (ap_points st). reflexivity.
Qed.

Lemma MoveTile_new_pos_wf (b : HexBoard) (m : Move) : wf_pos (MoveTile_new_pos b m).
Proof.
  unfold MoveTile_new_pos.
  destruct (HasValue (to m)).
  - pose proof (pos_add_wf (tile_positions_at b (to m)) (kNeighbourOffsets (direction m)))
      as (Hq & Hr & Hh).
    destruct (h_ _ >? 0).
    + destruct (HasValue _); unfold SetH, wf_pos; cbn [q_ r_ h_];
        (split; [exact Hq | split; [exact Hr |]]);
        [apply int8_in_range | unfold int8_range; lia].
    + split; [exact Hq | split; [exact Hr | exact Hh]].
  - unfold wf_pos, int8_range. cbn. lia.
Qed.

Lemma AxialToIndex_inj (b : HexBoard) (p p' : HivePosition) :
  grid_sized b -> wf_pos p -> wf_pos p' ->
  DistanceTo p kOriginPosition <= Radius b ->
  DistanceTo p' kOriginPosition <= Radius b ->
  AxialToIndex b p = AxialToIndex b p' ->
  q_ p = q_ p' /\ r_ p = r_ p'.
Proof.
  intros [Hcap Hlen] Hp Hp' Hd Hd'.
  destruct (DistanceTo_origin_bound p (Radius b) Hp Hd) as [Hq Hr].
  destruct (DistanceTo_origin_bound p' (Radius b) Hp' Hd') as [Hq' Hr'].
  unfold AxialToIndex, SquareDimensions in *. unfold Radius in *.
  unfold kMaxBoardRadius in Hcap.
  set (rad := hex_radius_ b) in *.
  assert (Hrad : 0 <= rad <= 14) by lia.
  assert (B : forall q r, - rad <= q <= rad -> - rad <= r <= rad ->
              0 <= q + rad + (r + rad) * (rad * 2 + 1) < 2 ^ 64).
  { intros q r Hq0 Hr0. split; [nia |].
    apply Z.le_lt_trans with (29 * 29); [nia | reflexivity]. }
  rewrite !Z.mod_small by (apply B; assumption).
  intros E. assert (r_ p = r_ p') by nia. split; nia.
Qed.

Lemma AxialToIndex_radius (b b1 : HexBoard) (p : HivePosition) :
  hex_radius_ b1 = hex_radius_ b -> AxialToIndex b1 p = AxialToIndex b p.
Proof.
  intros E. unfold AxialToIndex, SquareDimensions, Radius. rewrite E. reflexivity.
Qed.

Lemma AxialToIndex_nonneg (b : HexBoard) (p : HivePosition) : 0 <= AxialToIndex b p.
Proof. unfold AxialToIndex. apply Z.mod_pos_bound. reflexivity. Qed.

Ltac same_index b p :=
  repeat match goal with
         | |- context [AxialToIndex ?X p] =>
             lazymatch X with
             | b => fail
             | _ => change (AxialToIndex X p) with (AxialToIndex b p)
             end
         end.

Ltac step_option H :=
  match type of H with
  | match ?e with Some _ => _ | None => None end = _ =>
      let E := fresh "E" in
      destruct e eqn:E; [cbv beta iota in H | discriminate H]
  end.

(** X15 — when [MoveTile] succeeds for a tile that was not in play, the
    destination lies on the board, the tile's recorded position is the
    destination and the tile is the top tile of that cell (index
    consistency), it is appended to the played tiles and becomes the
    last-moved tile; no other tile's position and no other cell's top tile
    changes. *)
Theorem MoveTile_places (b b' : HexBoard) (m : Move) :
  grid_sized b ->
  tile_positions_at b (from m) = kNullPosition ->
  MoveTile b m = Some (true, b') ->
  let new_pos := MoveTile_new_pos b m in
  hex_distance new_pos <= Radius b
  /\ tile_positions_at b' (from m) = new_pos
  /\ GetTopTileAt b' new_pos = from m
  /\ played_tiles_ b' = played_tiles_ b ++ [from m]
  /\ last_moved_ b' = from m
  /\ (forall t, t <> from m -> tile_positions_at b' t = tile_positions_at b t)
  /\ (forall p, wf_pos p -> (q_ p, r_ p) <> (q_ new_pos, r_ new_pos) ->
                GetTopTileAt b' p = GetTopTileAt b p).
Proof.
  intros Hg Hnull HM new_pos.
  pose proof (MoveTile_new_pos_wf b m) as Hwf. fold new_pos in Hwf.
  unfold MoveTile in HM. fold new_pos in HM.
  destruct (negb (HasValue (from m))); [discriminate HM |].
  cbv zeta in HM. board_fields.
  destruct (DistanceTo new_pos kOriginPosition >? hex_radius_ b) eqn:Ed;
    [discriminate HM |].
  unfold tile_positions_at in HM, Hnull. board_fields.
  rewrite !Hnull in HM.
  change (pos_eqb kNullPosition kNullPosition) with true in HM.
  change (h_ kNullPosition >? 0) with false in HM.
  cbn [negb orb] in HM.
  assert (Goal :
    exists grid positions covered from_pos radius white black points,
      vector_set (tile_grid_ b) (AxialToIndex b new_pos) (from m) = Some grid
      /\ vector_set (tile_positions_ b) (tile_value (from m)) new_pos = Some positions
      /\ b' = MkBoard (hex_radius_ b) (num_tiles_ b) grid
                      (played_tiles_ b ++ [from m]) positions covered points
                      radius (from m) from_pos white black).
  { destruct (negb (pos_eqb new_pos kNullPosition)); board_fields;
      repeat match type of HM with
             | context [AxialToIndex ?X new_pos] =>
                 lazymatch X with
                 | b => fail
                 | _ => change (AxialToIndex X new_pos)
                          with (AxialToIndex b new_pos) in HM
                 end
             end;
      step_option HM;
      (destruct (HasValue _); board_fields);
      step_option HM; step_option HM; step_option HM; step_option HM;
      (destruct (h_ new_pos >? 0));
      step_option HM; try step_option HM;
      injection HM as <-;
      repeat match goal with
             | H : UpdateInfluence _ _ = Some _ |- _ =>
                 apply UpdateInfluence_shape in H; destruct H as [? ->]
             | H : UpdateArticulationPoints _ = Some _ |- _ =>
                 apply UpdateArticulationPoints_shape in H; destruct H as [? ->]
             | H : Some _ = Some _ |- _ => injection H as <-
             end;
      do 8 eexists; (split; [reflexivity |]); (split; [reflexivity |]);
      reflexivity. }
  destruct Goal as (grid & positions & covered & from_pos & radius & white & black
                    & points & Egrid & Epos & ->).
  clear HM. unfold tile_positions_at, GetTopTileAt, GetTopTileAt_index, Radius.
  board_fields.
  assert (Hd : DistanceTo new_pos kOriginPosition <= hex_radius_ b).
  { rewrite Z.gtb_ltb in Ed. apply Z.ltb_ge in Ed. exact Ed. }
  destruct (vector_set_nth _ _ _ _ kNoneTile Egrid) as [Gat Gother].
  destruct (vector_set_nth _ _ _ _ kNullPosition Epos) as [Pat Pother].
  split.
  { rewrite <- DistanceTo_origin_hex; [exact Hd | apply Hwf | apply Hwf]. }
  split; [exact Pat |].
  split.
  { rewrite Ed.
    same_index b new_pos. exact Gat. }
  split; [reflexivity |].
  split; [reflexivity |].
  split.
  { intros t Ht. apply Pother. intros E. apply Ht. apply tile_value_inj.
    pose proof (tile_value_range t). pose proof (tile_value_range (from m)). lia. }
  intros p Hp Hne.
  destruct (DistanceTo p kOriginPosition >? hex_radius_ b) eqn:Edp; [reflexivity |].
  same_index b p.
  apply Gother. intros E. apply Hne.
  assert (Hdp : DistanceTo p kOriginPosition <= hex_radius_ b).
  { rewrite Z.gtb_ltb in Edp. apply Z.ltb_ge in Edp. exact Edp. }
  pose proof (AxialToIndex_nonneg b p). pose proof (AxialToIndex_nonneg b new_pos).
  destruct (AxialToIndex_inj b p new_pos Hg Hp Hwf Hdp Hd) as [-> ->]; [lia |].
  reflexivity.
Qed.

Lemma MoveTile_places_witness :
  exists b',
    MoveTile (Board opening_state) (MkMove bA1 wG1 kE) = Some (true, b')
    /\ tile_positions_at b' bA1 = MkPos 1 0 0
    /\ GetTopTileAt b' (MkPos 1 0 0) = bA1.
Proof.
  destruct (MoveTile (Board opening_state) (MkMove bA1 wG1 kE)) as [[[|] b'] |] eqn:E.
  - exists b'. split; [reflexivity |].
    pose proof (MoveTile_places (Board opening_state) b' (MkMove bA1 wG1 kE)) as H.
    cbv zeta in H.
    replace (MoveTile_new_pos (Board opening_state) (MkMove bA1 wG1 kE))
      with (MkPos 1 0 0) in H by (vm_compute; reflexivity).
    refine ((fun H' => conj (proj1 (proj2 H')) (proj1 (proj2 (proj2 H')))) (H _ _ E)).
    + vm_compute. split; [intros X; discriminate X | reflexivity].
    + vm_compute. reflexivity.
  - vm_compute in E. discriminate E.
  - vm_compute in E. discriminate E.
Defined.

(** ** Observation planes *)



(** ** Influence *)

Lemma set_insert_NoDup (s : PosSet) (p : HivePosition) :
  NoDup s -> NoDup (set_insert s p).
Proof.
  intros H. unfold set_insert.
  destruct (set_contains s p) eqn:E; [exact H |].
  apply set_contains_false in E.
  apply NoDup_app; [exact H | constructor; [intros [] | constructor] |].
  intros x Hx [<- | []]. exact (E Hx).
Qed.

Lemma insert_cells_In (cells : list HivePosition) (s : PosSet) (p : HivePosition) :
  In p (fold_left (fun s pos => set_insert s (Grounded pos)) cells s)
  <-> In p s \/ In p (map Grounded cells).
Proof.
  revert s. induction cells as [| c cells IH]; intros s; cbn [fold_left map In].
  - tauto.
  - rewrite IH, set_insert_In. intuition congruence.
Qed.

Lemma insert_cells_NoDup (cells : list HivePosition) (s : PosSet) :
  NoDup s -> NoDup (fold_left (fun s pos => set_insert s (Grounded pos)) cells s).
Proof.
  revert s. induction cells as [| c cells IH]; intros s H; cbn [fold_left].
  - exact H.
  - apply IH. apply set_insert_NoDup. exact H.
Qed.

Lemma six_cells_grounded (p : HivePosition) : map Grounded (six_cells p) = six_cells p.
Proof. reflexivity. Qed.

Lemma colour_of_tile (t : NewHiveTile) (c : Colour) :
  HasValue t = true ->
  (exists tc, GetColour t = Some tc)
  /\ forall tc, GetColour t = Some tc ->
       (Colour_eqb tc c = true <-> In t (GetTilesForColour c)).
Proof.
  intros Hv.
  destruct t; try discriminate Hv; (split; [eexists; reflexivity |]);
    intros tc E; cbn in E; injection E as <-; destruct c; cbn;
    split; intros H; try reflexivity; try discriminate H; try tauto;
    repeat (destruct H as [H | H]; [discriminate H |]); destruct H.
Qed.

Lemma IsCovered_iff (b : HexBoard) (t : NewHiveTile) :
  HasValue t = true -> (IsCovered b t = true <-> In t (covered_tiles_ b)).
Proof.
  intros Hv. unfold IsCovered. rewrite Hv. cbn [andb].
  rewrite existsb_exists. split.
  - intros [x [Hx E]]. apply tile_eqb_eq in E. subst x. exact Hx.
  - intros H. exists t. split; [exact H | apply tile_eqb_eq; reflexivity].
Qed.

(** X17 — on a board whose played tiles have values and lie on the board,
    [UpdateInfluence] returns, and the influence set it stores for the
    colour holds exactly the six cells around every played tile of that
    colour that is not covered, without duplicates; the other colour's set,
    the grid, the positions, the played and the covered tiles are
    unchanged. *)
Theorem UpdateInfluence_cells (b : HexBoard) (c : Colour) :
  grid_sized b ->
  (forall t, In t (played_tiles_ b) ->
     HasValue t = true /\ hex_distance (tile_positions_at b t) <= Radius b) ->
  exists b',
    UpdateInfluence b c = Some b'
    /\ (forall p, In p (colour_influence_ b' c)
                  <-> exists t, In t (played_tiles_ b)
                                /\ In t (GetTilesForColour c)
                                /\ ~ In t (covered_tiles_ b)
                                /\ In p (six_cells (tile_positions_at b t)))
    /\ NoDup (colour_influence_ b' c)
    /\ colour_influence_ b' (OtherColour c) = colour_influence_ b (OtherColour c)
    /\ tile_grid_ b' = tile_grid_ b
    /\ tile_positions_ b' = tile_positions_ b
    /\ played_tiles_ b' = played_tiles_ b
    /\ covered_tiles_ b' = covered_tiles_ b.
Proof.
  intros [Hcap _] Hplayed. unfold UpdateInfluence.
  match goal with
  | |- context [fold_left ?f _ _] => set (step := f)
  end.
  assert (G : forall tiles acc,
             (forall t, In t tiles -> In t (played_tiles_ b)) ->
             NoDup acc ->
             exists s,
               fold_left step tiles (Some acc) = Some s
               /\ NoDup s
               /\ forall p, In p s
                    <-> In p acc
                        \/ exists t, In t tiles
                                     /\ In t (GetTilesForColour c)
                                     /\ ~ In t (covered_tiles_ b)
                                     /\ In p (six_cells (tile_positions_at b t))).
  { induction tiles as [| tile tiles IH]; intros acc Hsub Hnd.
    - exists acc. split; [reflexivity |]. split; [exact Hnd |].
      intros p. split; [auto |]. intros [H | (t & [] & _)]. exact H.
    - cbn [fold_left].
      assert (Hin : In tile (played_tiles_ b)) by (apply Hsub; left; reflexivity).
      destruct (Hplayed tile Hin) as [Hv Hon].
      destruct (colour_of_tile tile c Hv) as [[tc Etc] Hcol].
      specialize (Hcol tc Etc).
      destruct (hex_distance_bound _ _ Hon) as [Hq Hr].
      unfold Radius, kMaxBoardRadius in *.
      assert (EN : Neighbours (tile_positions_at b tile)
                   = six_cells (tile_positions_at b tile)).
      { apply Neighbours_six_cells; lia. }
      assert (Estep : exists acc',
                 step (Some acc) tile = Some acc'
                 /\ NoDup acc'
                 /\ forall p, In p acc'
                      <-> In p acc
                          \/ (In tile (GetTilesForColour c)
                              /\ ~ In tile (covered_tiles_ b)
                              /\ In p (six_cells (tile_positions_at b tile)))).
      { unfold step. cbv beta iota. rewrite Etc. cbv beta iota.
        destruct (Colour_eqb tc c) eqn:Ec; cbn [negb].
        - destruct (IsCovered b tile) eqn:Ecov.
          + exists acc. split; [reflexivity |]. split; [exact Hnd |].
            intros p. split; [auto |]. intros [H | (_ & Hn & _)]; [exact H |].
            exfalso. apply Hn. apply IsCovered_iff; assumption.
          + eexists. split; [reflexivity |].
            split; [apply insert_cells_NoDup; exact Hnd |].
            intros p. rewrite insert_cells_In, EN, six_cells_grounded.
            split; [| tauto]. intros [H | H]; [auto |]. right.
            split; [apply Hcol; reflexivity |]. split; [| exact H].
            intros Hc. apply (IsCovered_iff b tile Hv) in Hc. congruence.
        - exists acc. split; [reflexivity |]. split; [exact Hnd |].
          intros p. split; [auto |]. intros [H | (Hc & _)]; [exact H |].
          apply Hcol in Hc. discriminate Hc. }
      destruct Estep as (acc' & Es & Hnd' & Hacc').
      rewrite Es.
      destruct (IH acc' (fun t Ht => Hsub t (or_intror Ht)) Hnd') as (s & Ef & Hs & Hp).
      exists s. split; [exact Ef |]. split; [exact Hs |].
      intros p. rewrite Hp, Hacc'. split.
      + intros [[H | (A & B & C)] | (t & Ht & A & B & C)].
        * left. exact H.
        * right. exists tile. cbn [In]. auto.
        * right. exists t. cbn [In]. auto.
      + intros [H | (t & [<- | Ht] & A & B & C)].
        * left. left. exact H.
        * left. right. auto.
        * right. exists t. auto. }
  destruct (G (played_tiles_ b) [] (fun t H => H) (NoDup_nil _)) as (s & Ef & Hs & Hp).
  rewrite Ef. cbn. eexists. split; [reflexivity |].
  destruct c; cbn; (split; [| split; [exact Hs | repeat split]]);
    intros p; rewrite Hp; split;
    try (intros [[] | H]; exact H); intros H; right; exact H.
Qed.

Lemma UpdateInfluence_cells_witness :
  exists b',
    UpdateInfluence (Board spider_state) kBlack = Some b'
    /\ forall p, In p (colour_influence_ b' kBlack)
         <-> exists t, In t (played_tiles_ (Board spider_state))
                       /\ In t (GetTilesForColour kBlack)
                       /\ ~ In t (covered_tiles_ (Board spider_state))
                       /\ In p (six_cells (tile_positions_at (Board spider_state) t)).
Proof.
  destruct (UpdateInfluence_cells (Board spider_state) kBlack) as (b' & E & H & _).
  - vm_compute. split; [intros X; discriminate X | reflexivity].
  - intros t Ht.
    assert (A : forallb (fun t => HasValue t
                  && (hex_distance (tile_positions_at (Board spider_state) t)
                      <=? Radius (Board spider_state)))
                  (played_tiles_ (Board spider_state)) = true)
      by (vm_compute; reflexivity).
    rewrite forallb_forall in A. specialize (A t Ht).
    apply andb_true_iff in A. destruct A as [A1 A2].
    split; [exact A1 | apply Z.leb_le; exact A2].
  - exists b'. split; [exact E | exact H].
Defined.

(** ** One slide of the Queen, jumps of the Grasshopper *)

Lemma unpinned_uncovered (b : HexBoard) (tile : NewHiveTile) :
  ~ In (tile_positions_at b tile) (articulation_points_ b) ->
  ~ In tile (covered_tiles_ b) ->
  IsPinned b tile = false /\ IsCovered b tile = false.
Proof.
  intros Hart Hunc. split.
  - unfold IsPinned, IsPinned_pos.
    rewrite (proj2 (set_contains_false _ _) Hart). apply andb_false_r.
  - unfold IsCovered.
    destruct (existsb (tile_eqb tile) (covered_tiles_ b)) eqn:E;
      [| apply andb_false_r].
    apply existsb_exists in E. destruct E as (x & Hx & E).
    apply tile_eqb_eq in E. subst x. contradiction.
Qed.

Lemma hex_neighbour_apart (p : HivePosition) (d : Direction) :
  In d cardinal_directions -> hex_neighbour p d <> p.
Proof.
  intros Hd E. destruct p as [q r h]. cbn in Hd.
  repeat (destruct Hd as [<- | Hd]; [cbn in E; injection E; lia |]). destruct Hd.
Qed.

(** X18 — for a Queen at ground level on the board that is neither covered
    nor on an articulation point, the search with distance 1 returns, and
    its destinations (which [GenerateMovesFor] turns into moves) are exactly
    the cells reached by one step of the ground-slide primitive. *)
Theorem queen_one_slide (b : HexBoard) (tile : NewHiveTile) (to_move : Colour) :
  GetBugType tile = kQueen ->
  ~ In (tile_positions_at b tile) (articulation_points_ b) ->
  ~ In tile (covered_tiles_ b) ->
  grid_sized b ->
  heights_recorded b ->
  wf_pos (tile_positions_at b tile) ->
  h_ (tile_positions_at b tile) = 0 ->
  hex_distance (tile_positions_at b tile) <= Radius b ->
  exists positions,
    GenerateValidSlides [] b tile (tile_positions_at b tile) 1 = Some positions
    /\ GenerateMovesFor b tile (GetBugType tile) to_move
       = Some (reference_moves b tile (tile_positions_at b tile) positions)
    /\ forall target,
         In target positions
         <-> exists d, ground_slide_spec b (tile_positions_at b tile)
                                         (tile_positions_at b tile) d
                       /\ target = hex_neighbour (tile_positions_at b tile) d.
Proof.
  intros Htype Hart Hunc Hs Hrec Hwf Hh Hon.
  destruct (unpinned_uncovered b tile Hart Hunc) as [Hpin Hcov].
  set (start_pos := tile_positions_at b tile) in *.
  destruct (slides_dfs_limited b start_pos 1 1 (slides_fuel b 1) start_pos
                               kNumAllDirections 1 [] [])
    as (positions & E & Hpos).
  - lia.
  - unfold slides_fuel. simpl. lia.
  - reflexivity.
  - lia.
  - exact Hwf.
  - intros [].
  - intros d Hd Ed. apply Direction_eqb_eq in Ed. subst d.
    simpl in Hd. intuition discriminate.
  - assert (HG : GenerateValidSlides [] b tile start_pos 1 = Some positions).
    { unfold GenerateValidSlides. rewrite Hpin, Hcov. cbn [orb].
      unfold PosSet in *. rewrite E. reflexivity. }
    exists positions. split; [exact HG |]. split.
    + rewrite Htype. unfold GenerateMovesFor, GenerateMovesFor_acting.
      fold start_pos. rewrite HG. reflexivity.
    + intros target. rewrite Hpos. cbn [slide_path In].
      destruct (hex_distance_bound _ _ Hon) as [Hq Hr].
      destruct Hs as [Hcap _]. unfold Radius, kMaxBoardRadius in *.
      split.
      * intros [[] | (d & Hg & -> & _)]. exists d.
        destruct (offsets_name_cells start_pos d Hh ltac:(lia) ltac:(lia) (proj1 Hg))
          as (Et & _).
        split; [| exact Et].
        apply ground_slide_refines_spec; try assumption; try lia.
        apply hex_neighbour_apart. exact (proj1 Hg).
      * intros (d & Hg & ->). right. exists d.
        assert (Hd : In d cardinal_directions) by exact (proj1 Hg).
        destruct (offsets_name_cells start_pos d Hh ltac:(lia) ltac:(lia) Hd)
          as (Et & _).
        split; [| split; [symmetry; exact Et | intros []]].
        apply ground_slide_refines_spec; try assumption; try lia.
        apply hex_neighbour_apart. exact Hd.
Qed.

Lemma queen_one_slide_witness :
  exists positions,
    GenerateValidSlides [] (Board spider_state) bQ
                        (tile_positions_at (Board spider_state) bQ) 1
    = Some positions
    /\ GenerateMovesFor (Board spider_state) bQ (GetBugType bQ) kBlack
       = Some (reference_moves (Board spider_state) bQ
                               (tile_positions_at (Board spider_state) bQ)
                               positions)
    /\ forall target,
         In target positions
         <-> exists d, ground_slide_spec (Board spider_state)
                         (tile_positions_at (Board spider_state) bQ)
                         (tile_positions_at (Board spider_state) bQ) d
                       /\ target = hex_neighbour
                                     (tile_positions_at (Board spider_state) bQ) d.
Proof.
  refine (queen_one_slide (Board spider_state) bQ kBlack _ _ _ _ _ _ _ _).
  - reflexivity.
  - refine (proj1 (set_contains_false _ _) _). vm_compute. reflexivity.
  - intros Hin.
    assert (E : existsb (tile_eqb bQ) (covered_tiles_ (Board spider_state)) = true).
    { apply existsb_exists. exists bQ. split; [exact Hin | reflexivity]. }
    revert E. vm_compute. discriminate.
  - split; vm_compute; [discriminate | reflexivity].
  - refine (heights_recordedb_sound (Board spider_state) _). vm_compute. reflexivity.
  - repeat split; vm_compute; discriminate.
  - vm_compute. reflexivity.
  - vm_compute. discriminate.
Defined.

Lemma first_gap (f : nat -> bool) (n : nat) :
  f n = false ->
  exists k, (k <= n)%nat /\ f k = false /\ forall i, (i < k)%nat -> f i = true.
Proof.
  induction n as [n IH] using lt_wf_ind. intros Hn.
  destruct (forallb f (seq 0 n)) eqn:E.
  - exists n. split; [lia |]. split; [exact Hn |].
    intros i Hi. rewrite forallb_forall in E. apply E. apply in_seq. lia.
  - assert (X : exists m, (m < n)%nat /\ f m = false).
    { clear - E. induction n as [| n IHn].
      - discriminate E.
      - rewrite seq_S, forallb_app in E. cbn in E.
        destruct (forallb f (seq 0 n)).
        + exists n. split; [lia |]. destruct (f n); [discriminate E | reflexivity].
        + destruct (IHn eq_refl) as [m [Hm Hf]]. exists m. split; [lia | exact Hf]. }
    destruct X as [m [Hm Hf]].
    destruct (IH m Hm Hf) as [k [Hk [Hfk Hlt]]].
    exists k. split; [lia |]. split; assumption.
Qed.

Lemma line_cell_coords (p : HivePosition) (d : Direction) (k : nat) :
  In d cardinal_directions ->
  h_ (line_cell p d k) = 0
  /\ exists dq dr,
       (dq, dr) = (q_ (hex_neighbour kOriginPosition d), r_ (hex_neighbour kOriginPosition d))
       /\ q_ (line_cell p d k) = q_ p + Z.of_nat k * dq
       /\ r_ (line_cell p d k) = r_ p + Z.of_nat k * dr.
Proof.
  intros Hd. split.
  - destruct k; [reflexivity | apply hex_neighbour_near].
  - eexists. eexists. split; [reflexivity |].
    induction k as [| k IH].
    + cbn [line_cell Grounded q_ r_]. lia.
    + cbn [line_cell]. destruct IH as [IHq IHr].
      cbn in Hd.
      repeat (destruct Hd as [<- | Hd];
              [cbn [hex_neighbour q_ r_ kOriginPosition] in *; lia |]).
      destruct Hd.
Qed.

(** A cell far enough along a line lies off the board. *)
Lemma line_cell_off_board (b : HexBoard) (p : HivePosition) (d : Direction) (k : nat) :
  grid_sized b ->
  hex_distance p <= Radius b ->
  In d cardinal_directions ->
  (Z.to_nat (SquareDimensions b) <= k <= 100)%nat ->
  HasValue (GetTopTileAt b (line_cell p d k)) = false.
Proof.
  intros [Hcap _] Hon Hd Hk.
  destruct (hex_distance_bound _ _ Hon) as [Hq Hr].
  destruct (line_cell_coords p d k Hd) as (Hh & dq & dr & E & Eq & Er).
  unfold SquareDimensions, Radius, kMaxBoardRadius in *.
  unfold GetTopTileAt, GetTopTileAt_index.
  assert (Hfar : DistanceTo (line_cell p d k) kOriginPosition > Radius b).
  { rewrite DistanceTo_origin_hex.
    2,3: unfold int8_range;
      cbn in Hd;
      repeat (destruct Hd as [<- | Hd];
              [cbn in E; injection E as -> ->; lia |]); destruct Hd.
    unfold hex_distance, Radius. rewrite Eq, Er.
    assert (2 * hex_radius_ b + 2
            <= Z.abs (q_ p + Z.of_nat k * dq)
               + Z.abs (q_ p + Z.of_nat k * dq + (r_ p + Z.of_nat k * dr))
               + Z.abs (r_ p + Z.of_nat k * dr)).
    { cbn in Hd.
      repeat (destruct Hd as [<- | Hd];
              [cbn in E; injection E as -> ->; lia |]); destruct Hd. }
    revert H.
    generalize (Z.abs (q_ p + Z.of_nat k * dq)
               + Z.abs (q_ p + Z.of_nat k * dq + (r_ p + Z.of_nat k * dr))
               + Z.abs (r_ p + Z.of_nat k * dr)).
    intros z Hz. Z.to_euclidean_division_equations. lia. }
  apply Z.gtb_gt in Hfar. rewrite Hfar. reflexivity.
Qed.

Lemma line_cell_step (b : HexBoard) (p : HivePosition) (d : Direction) (j : nat) :
  grid_sized b ->
  hex_distance p <= Radius b ->
  In d cardinal_directions ->
  (j <= 100)%nat ->
  pos_add (line_cell p d j) (kNeighbourOffsets d) = line_cell p d (S j).
Proof.
  intros [Hcap _] Hon Hd Hj.
  destruct (hex_distance_bound _ _ Hon) as [Hq Hr].
  destruct (line_cell_coords p d j Hd) as (Hh & dq & dr & E & Eq & Er).
  unfold Radius, kMaxBoardRadius in *.
  cbn [line_cell].
  apply offsets_name_cells; [exact Hh | | | exact Hd];
    cbn in Hd;
    repeat (destruct Hd as [<- | Hd];
            [cbn in E; injection E as -> ->; lia |]); destruct Hd.
Qed.

Lemma grasshopper_jump_runs (b : HexBoard) (p : HivePosition) (d : Direction) :
  grid_sized b ->
  hex_distance p <= Radius b ->
  In d cardinal_directions ->
  forall (k fuel j : nat) (found : bool),
    (j + k <= 100)%nat ->
    (k < fuel)%nat ->
    (forall i, (i < k)%nat ->
               HasValue (GetTopTileAt b (line_cell p d (j + i))) = true) ->
    HasValue (GetTopTileAt b (line_cell p d (j + k))) = false ->
    grasshopper_jump fuel b (line_cell p d j) d found
    = Some (line_cell p d (j + k), found || (0 <? k)%nat).
Proof.
  intros Hg Hon Hd. induction k as [| k IH]; intros fuel j found Hj Hf Hocc Hgap.
  - destruct fuel as [| fuel]; [lia |]. cbn [grasshopper_jump].
    rewrite Nat.add_0_r in *. rewrite Hgap. rewrite orb_false_r. reflexivity.
  - destruct fuel as [| fuel]; [lia |]. cbn [grasshopper_jump].
    pose proof (Hocc O ltac:(lia)) as H0. rewrite Nat.add_0_r in H0. rewrite H0.
    rewrite (line_cell_step b p d j Hg Hon Hd) by lia.
    rewrite (IH fuel (S j) true).
    + rewrite orb_true_r. f_equal. f_equal. f_equal. lia.
    + lia.
    + lia.
    + intros i Hi. replace (S j + i)%nat with (j + S i)%nat by lia.
      apply Hocc. lia.
    + replace (S j + k)%nat with (j + S k)%nat by lia. exact Hgap.
Qed.

(** The jump in one direction returns, on the first empty cell of the line. *)
Lemma grasshopper_jump_lands (b : HexBoard) (start_pos : HivePosition) (d : Direction) :
  grid_sized b ->
  h_ start_pos = 0 ->
  hex_distance start_pos <= Radius b ->
  In d cardinal_directions ->
  exists k,
    grasshopper_jump (Z.to_nat (SquareDimensions b) + 2) b
                     (pos_add start_pos (kNeighbourOffsets d)) d false
    = Some (line_cell start_pos d (S k), (0 <? k)%nat)
    /\ (forall i, (1 <= i <= k)%nat ->
                  HasValue (GetTopTileAt b (line_cell start_pos d i)) = true)
    /\ HasValue (GetTopTileAt b (line_cell start_pos d (S k))) = false.
Proof.
  intros Hg Hh Hon Hd.
  set (n := Z.to_nat (SquareDimensions b)).
  assert (Hn : (n <= 29)%nat).
  { destruct Hg as [Hcap _]. unfold n, SquareDimensions, Radius, kMaxBoardRadius in *.
    lia. }
  destruct (first_gap (fun i => HasValue (GetTopTileAt b (line_cell start_pos d (S i)))) n)
    as (k & Hk & Hgap & Hocc).
  { apply line_cell_off_board; try assumption. fold n. lia. }
  exists k. split; [| split].
  - assert (E0 : pos_add start_pos (kNeighbourOffsets d) = line_cell start_pos d 1).
    { rewrite <- (line_cell_step b start_pos d 0 Hg Hon Hd) by lia.
      cbn [line_cell]. unfold Grounded. destruct start_pos as [q r h].
      cbn in Hh. subst h. reflexivity. }
    rewrite E0.
    rewrite (grasshopper_jump_runs b start_pos d Hg Hon Hd k (n + 2) 1 false).
    + reflexivity.
    + lia.
    + lia.
    + intros i Hi. apply (Hocc i Hi).
    + exact Hgap.
  - intros i Hi. destruct i as [| i]; [lia |]. apply (Hocc i). lia.
  - exact Hgap.
Qed.

Lemma jump_over_unique (b : HexBoard) (start_pos : HivePosition) (d : Direction)
      (k k' : nat) :
  (forall i, (1 <= i <= k)%nat ->
             HasValue (GetTopTileAt b (line_cell start_pos d i)) = true) ->
  HasValue (GetTopTileAt b (line_cell start_pos d (S k))) = false ->
  jump_over b start_pos d k' -> k = k'.
Proof.
  intros Hocc Hgap (H1 & Hocc' & Hgap').
  destruct (Nat.lt_trichotomy k k') as [Hlt | [E | Hgt]]; [| exact E |].
  - specialize (Hocc' (S k) ltac:(lia)). congruence.
  - specialize (Hocc (S k') ltac:(lia)). congruence.
Qed.

Lemma grasshopper_fold (b : HexBoard) (start_pos : HivePosition) (fuel : nat)
      (dirs : list Direction) :
  (forall d, In d dirs ->
     exists landing,
       grasshopper_jump fuel b (pos_add start_pos (kNeighbourOffsets d)) d false
       = Some landing) ->
  forall out,
  exists out',
    fold_left
      (fun acc d =>
         let? out := acc in
         let? (to_test, found) :=
           grasshopper_jump fuel b (pos_add start_pos (kNeighbourOffsets d)) d false in
         Some (if found then set_insert out to_test else out))
      dirs (Some out) = Some out'
    /\ forall t, In t out'
         <-> In t out
             \/ exists d, In d dirs
                  /\ grasshopper_jump fuel b (pos_add start_pos (kNeighbourOffsets d))
                                      d false = Some (t, true).
Proof.
  induction dirs as [| d dirs IH]; intros Hall out.
  - exists out. split; [reflexivity |]. intros t. split; [auto |].
    intros [H | (d & [] & _)]. exact H.
  - cbn [fold_left].
    destruct (Hall d (or_introl eq_refl)) as [[land found] Ej]. rewrite Ej.
    cbv beta iota.
    destruct (IH (fun d' H => Hall d' (or_intror H))
                 (if found then set_insert out land else out)) as (out' & Ef & Hin).
    exists out'. split; [exact Ef |].
    intros t. rewrite Hin. split.
    + intros [H | (d' & Hd' & Ej')].
      * destruct found.
        -- apply set_insert_In in H. destruct H as [H | ->]; [left; exact H |].
           right. exists d. split; [left; reflexivity | exact Ej].
        -- left. exact H.
      * right. exists d'. split; [right; exact Hd' | exact Ej'].
    + intros [H | (d' & [<- | Hd'] & Ej')].
      * left. destruct found; [apply set_insert_In; left |]; exact H.
      * left. rewrite Ej in Ej'. injection Ej' as -> ->.
        apply set_insert_In. right. reflexivity.
      * right. exists d'. split; assumption.
Qed.

(** X19 — for a Grasshopper at ground level on the board that is neither
    covered nor on an articulation point, all six jump loops return, and
    the destinations are exactly the first empty cells behind an unbroken
    straight line of one or more occupied cells next to the
    Grasshopper. *)
Theorem grasshopper_jumps (b : HexBoard) (tile : NewHiveTile) (to_move : Colour) :
  GetBugType tile = kGrasshopper ->
  ~ In (tile_positions_at b tile) (articulation_points_ b) ->
  ~ In tile (covered_tiles_ b) ->
  grid_sized b ->
  h_ (tile_positions_at b tile) = 0 ->
  hex_distance (tile_positions_at b tile) <= Radius b ->
  exists positions,
    GenerateValidGrasshopperPositions [] b tile (tile_positions_at b tile)
    = Some positions
    /\ GenerateMovesFor b tile (GetBugType tile) to_move
       = Some (reference_moves b tile (tile_positions_at b tile) positions)
    /\ forall target,
         In target positions
         <-> exists d k,
               In d [kNE; kE; kSE; kSW; kW; kNW]
               /\ jump_over b (tile_positions_at b tile) d k
               /\ target = line_cell (tile_positions_at b tile) d (S k).
Proof.
  intros Htype Hart Hunc Hg Hh Hon.
  destruct (unpinned_uncovered b tile Hart Hunc) as [Hpin Hcov].
  set (start_pos := tile_positions_at b tile) in *.
  destruct (grasshopper_fold b start_pos (Z.to_nat (SquareDimensions b) + 2)
                             cardinal_directions) with (out := @nil HivePosition)
    as (positions & Ef & Hin).
  { intros d Hd.
    destruct (grasshopper_jump_lands b start_pos d Hg Hh Hon Hd) as (k & Ej & _).
    eexists. exact Ej. }
  assert (HG : GenerateValidGrasshopperPositions [] b tile start_pos = Some positions).
  { unfold GenerateValidGrasshopperPositions. rewrite Hpin, Hcov. cbn [orb].
    exact Ef. }
  exists positions. split; [exact HG |]. split.
  - rewrite Htype. unfold GenerateMovesFor, GenerateMovesFor_acting.
    fold start_pos. rewrite HG. reflexivity.
  - intros target. rewrite Hin.
    change [kNE; kE; kSE; kSW; kW; kNW] with cardinal_directions.
    split.
    + intros [[] | (d & Hd & Ej)].
      destruct (grasshopper_jump_lands b start_pos d Hg Hh Hon Hd)
        as (k & Ej' & Hocc & Hgap).
      rewrite Ej in Ej'. injection Ej' as -> Ek.
      exists d, k. split; [exact Hd |]. split; [| reflexivity].
      split; [| split; assumption].
      symmetry in Ek. apply Nat.ltb_lt in Ek. lia.
    + intros (d & k' & Hd & Hj & ->). right. exists d. split; [exact Hd |].
      destruct (grasshopper_jump_lands b start_pos d Hg Hh Hon Hd)
        as (k & Ej' & Hocc & Hgap).
      pose proof (jump_over_unique b start_pos d k k' Hocc Hgap Hj) as Ek. subst k'.
      rewrite Ej'. f_equal. f_equal.
      apply Nat.ltb_lt. destruct Hj as [Hj _]. lia.
Qed.

Lemma grasshopper_jumps_witness :
  exists positions,
    GenerateValidGrasshopperPositions [] (Board split_state) bG1
                                      (tile_positions_at (Board split_state) bG1)
    = Some positions
    /\ GenerateMovesFor (Board split_state) bG1 (GetBugType bG1) kBlack
       = Some (reference_moves (Board split_state) bG1
                               (tile_positions_at (Board split_state) bG1) positions)
    /\ forall target,
         In target positions
         <-> exists d k,
               In d [kNE; kE; kSE; kSW; kW; kNW]
               /\ jump_over (Board split_state)
                            (tile_positions_at (Board split_state) bG1) d k
               /\ target = line_cell (tile_positions_at (Board split_state) bG1)
                                     d (S k).
Proof.
  refine (grasshopper_jumps (Board split_state) bG1 kBlack _ _ _ _ _ _).
  - reflexivity.
  - refine (proj1 (set_contains_false _ _) _). vm_compute. reflexivity.
  - intros Hin.
    assert (E : existsb (tile_eqb bG1) (covered_tiles_ (Board split_state)) = true).
    { apply existsb_exists. exists bG1. split; [exact Hin | reflexivity]. }
    revert E. vm_compute. discriminate.
  - split; vm_compute; [discriminate | reflexivity].
  - vm_compute. reflexivity.
  - vm_compute. discriminate.
Defined.

(** ** Where placements land *)

Lemma Z_range_In (lo : Z) (n : nat) (z : Z) :
  lo <= z < lo + Z.of_nat n -> In z (Z_range lo n).
Proof.
  intros H. unfold Z_range. apply in_map_iff. exists (Z.to_nat (z - lo)).
  split; [lia | apply in_seq; lia].
Qed.

Lemma GetTopTileAt_ground (b : HexBoard) (p : HivePosition) (h : Z) :
  GetTopTileAt b (MkPos (q_ p) (r_ p) h) = GetTopTileAt b p.
Proof. reflexivity. Qed.

Lemma cells_indexedb_sound (b : HexBoard) :
  grid_sized b -> cells_indexedb b = true -> cells_indexed b.
Proof.
  intros Hg Hb p Hwf Hv.
  assert (Hd : DistanceTo p kOriginPosition <= Radius b).
  { unfold GetTopTileAt, GetTopTileAt_index in Hv.
    destruct (DistanceTo p kOriginPosition >? Radius b) eqn:E; [discriminate Hv |].
    rewrite Z.gtb_ltb in E. apply Z.ltb_ge in E. exact E. }
  destruct (DistanceTo_origin_bound p (Radius b) Hwf Hd) as [Hq Hr].
  destruct Hg as [Hcap _]. unfold Radius, kMaxBoardRadius in *.
  unfold cells_indexedb in Hb. rewrite forallb_forall in Hb.
  specialize (Hb (q_ p) (Z_range_In (-14) 29 (q_ p) ltac:(lia))).
  rewrite forallb_forall in Hb.
  specialize (Hb (r_ p) (Z_range_In (-14) 29 (r_ p) ltac:(lia))).
  cbv zeta in Hb. rewrite (GetTopTileAt_ground b p 0) in Hb. rewrite Hv in Hb.
  rewrite !andb_true_iff in Hb. destruct Hb as [[[H1 H2] H3] H4].
  apply Z.eqb_eq in H1. apply Z.eqb_eq in H2. apply Z.leb_le in H3. apply Z.leb_le in H4.
  auto.
Qed.

Lemma influence_groundedb_sound (b : HexBoard) :
  influence_groundedb b = true -> influence_grounded b.
Proof.
  unfold influence_groundedb. rewrite forallb_forall. intros H c p Hp.
  specialize (H p). rewrite in_app_iff in H.
  assert (X : In p (colour_influence_white b) \/ In p (colour_influence_black b))
    by (destruct c; [left | right]; exact Hp).
  specialize (H X). rewrite !andb_true_iff in H.
  destruct H as [[[[H1 H2] H3] H4] H5].
  apply Z.leb_le in H1, H2, H3, H4. apply Z.eqb_eq in H5.
  unfold wf_pos, int8_range. rewrite H5. repeat split; lia.
Qed.

(** X20 — from the third move of the game on, on a board with consistent
    indices and grounded influence sets, every placement
    [GeneratePlacementMoves] emits is of a tile of the player's colour that
    is not in play, its reference tile is the top tile of a cell next to
    the destination [MoveTile] computes for it, and that destination is an
    empty cell inside the player's influence and outside the opponent's:
    a cell that [IsPlaceable] accepts. *)
Theorem placement_lands (b : HexBoard) (to_move : Colour) (n : Z) (moves : list Move) :
  grid_sized b ->
  cells_indexed b ->
  influence_grounded b ->
  2 <= n ->
  GeneratePlacementMoves b to_move n = Some moves ->
  forall m, In m moves ->
    let cell := MoveTile_new_pos b m in
    In cell (colour_influence_ b to_move)
    /\ ~ In cell (colour_influence_ b (OtherColour to_move))
    /\ HasValue (GetTopTileAt b cell) = false
    /\ IsPlaceable b to_move cell = true
    /\ In (from m) (GetTilesForColour to_move)
    /\ tile_positions_at b (from m) = kNullPosition
    /\ (exists d, In d [kNE; kE; kSE; kSW; kW; kNW]
                  /\ to m = GetTopTileAt b (hex_neighbour cell d)
                  /\ HasValue (to m) = true).
Proof.
  intros Hg Hidx Hinf Hn H m Hin. unfold GeneratePlacementMoves in H.
  remember cardinal_directions as dirs eqn:Edirs in H.
  replace (n =? 0) with false in H by (symmetry; apply Z.eqb_neq; lia).
  replace (n =? 1) with false in H by (symmetry; apply Z.eqb_neq; lia).
  injection H as <-.
  apply in_flat_map in Hin. destruct Hin as [tile [Ht Hin]].
  destruct (IsInPlay b tile) eqn:Ep; [destruct Hin |].
  destruct (_ && _); [destruct Hin |].
  apply in_flat_map in Hin. destruct Hin as [pos [Hpos Hin]].
  destruct (HasValue (GetTopTileAt b pos)) eqn:Eempty; [destruct Hin |].
  destruct (set_contains _ pos) eqn:Eother; [destruct Hin |].
  apply in_flat_map in Hin. destruct Hin as [i [Hi Hin]].
  destruct (HasValue (GetTopTileAt b (pos_add pos (kNeighbourOffsets i)))) eqn:Eref;
    [| destruct Hin].
  destruct Hin as [<- | []]. subst dirs.
  destruct (Hinf to_move pos Hpos) as [Hwf Hh].
  set (X := pos_add pos (kNeighbourOffsets i)) in *.
  assert (HwfX : wf_pos X) by apply pos_add_wf.
  destruct (Hidx X HwfX Eref) as (Pq & Pr & Ph).
  set (ref := GetTopTileAt b X) in *.
  assert (Hcell : MoveTile_new_pos b (MkMove tile ref (OppositeDirection i)) = pos).
  { unfold MoveTile_new_pos. cbn [to direction]. rewrite Eref.
    pose proof (pos_add_offset_back pos i Hwf Hi) as Eback. fold X in Eback.
    set (P := tile_positions_at b ref) in *.
    assert (EP : pos_add P (kNeighbourOffsets (OppositeDirection i))
                 = MkPos (q_ pos) (r_ pos) (h_ P)).
    { pose proof (f_equal q_ Eback) as Eq. pose proof (f_equal r_ Eback) as Er.
      unfold pos_add in Eq, Er |- *. cbn [q_ r_] in Eq, Er.
      rewrite Pq, Pr, Eq, Er. f_equal.
      pose proof (OppositeDirection_in_cardinal i Hi) as Ho.
      cbn in Ho.
      repeat (destruct Ho as [<- | Ho];
              [cbn [kNeighbourOffsets h_]; rewrite Z.add_0_r;
               apply int8_id; unfold int8_range; lia |]).
      destruct Ho. }
    rewrite EP. cbn [h_].
    destruct (h_ P >? 0) eqn:Eh.
    - rewrite (GetTopTileAt_ground b pos (h_ P)). rewrite Eempty.
      unfold SetH. cbn [q_ r_]. destruct pos as [q r h]. cbn in Hh. subst h.
      reflexivity.
    - rewrite Z.gtb_ltb in Eh. apply Z.ltb_ge in Eh.
      replace (h_ P) with 0 by lia.
      destruct pos as [q r h]. cbn in Hh. subst h. reflexivity. }
  cbv zeta. rewrite Hcell. cbn [from to].
  assert (Hno : ~ In pos (colour_influence_ b (OtherColour to_move))).
  { apply set_contains_false. exact Eother. }
  split; [exact Hpos |]. split; [exact Hno |]. split; [exact Eempty |].
  split.
  { unfold IsPlaceable. rewrite (proj2 (set_contains_In _ _) Hpos), Eother.
    unfold IsInPlay. rewrite Eempty. reflexivity. }
  split; [exact Ht |].
  split.
  { pose proof (GetTilesForColour_HasValue to_move tile Ht) as Hv.
    unfold IsInPlay in Ep. rewrite Hv in Ep. cbn [andb] in Ep.
    apply negb_false_iff in Ep. apply pos_eqb_eq in Ep. exact Ep. }
  exists i. split; [exact Hi |]. split; [| exact Eref].
  unfold ref. f_equal.
  assert (Hon : DistanceTo X kOriginPosition <= Radius b).
  { pose proof Eref as Eref'. unfold ref, GetTopTileAt, GetTopTileAt_index in Eref'.
    destruct (DistanceTo X kOriginPosition >? Radius b) eqn:E; [discriminate Eref' |].
    rewrite Z.gtb_ltb in E. apply Z.ltb_ge in E. exact E. }
  destruct (DistanceTo_origin_bound X (Radius b) HwfX Hon) as [HqX HrX].
  destruct Hg as [Hcap _]. unfold Radius, kMaxBoardRadius in *.
  pose proof (pos_add_offset_back pos i Hwf Hi) as Eback. fold X in Eback.
  assert (Hq : -15 <= q_ pos <= 15 /\ -15 <= r_ pos <= 15).
  { rewrite <- Eback. unfold pos_add.
    pose proof (OppositeDirection_in_cardinal i Hi) as Ho. cbn in Ho.
    repeat (destruct Ho as [<- | Ho];
            [cbn [kNeighbourOffsets q_ r_];
             rewrite !int8_id by (unfold int8_range; lia); lia |]).
    destruct Ho. }
  unfold X. apply offsets_name_cells; try assumption; lia.
Qed.

Lemma placement_lands_witness :
  exists moves,
    GeneratePlacementMoves (Board fourth_turn_state) kWhite 6 = Some moves
    /\ forall m, In m moves ->
         In (MoveTile_new_pos (Board fourth_turn_state) m)
            (colour_influence_ (Board fourth_turn_state) kWhite)
         /\ ~ In (MoveTile_new_pos (Board fourth_turn_state) m)
                 (colour_influence_ (Board fourth_turn_state) kBlack).
Proof.
  destruct (GeneratePlacementMoves (Board fourth_turn_state) kWhite 6)
    as [moves |] eqn:E.
  - exists moves. split; [reflexivity |]. intros m Hm.
    assert (Hg : grid_sized (Board fourth_turn_state)).
    { split; vm_compute; [discriminate | reflexivity]. }
    pose proof (placement_lands (Board fourth_turn_state) kWhite 6 moves Hg) as H.
    refine ((fun H' => conj (proj1 H') (proj1 (proj2 H'))) (H _ _ _ E m Hm)).
    + apply cells_indexedb_sound; [exact Hg | vm_compute; reflexivity].
    + apply influence_groundedb_sound. vm_compute. reflexivity.
    + intros X; discriminate X.
  - vm_compute in E. discriminate E.
Defined.
